(** * AI implementation assistant: a shallow embedding of [ai_assistant.py]

    The development follows the source file top to bottom: Python values
    (strings, insertion-ordered dictionaries, binary64 floats), the
    phase-heading parser run at import time, and the methods of
    [AIAssistant] written in a small state-and-exception monad whose world
    records what the process printed and which external calls it issued. *)

From Stdlib Require Import ZArith Bool Ascii String DecimalString Lia QArith.
From Stdlib Require Import Floats.PrimFloat Floats.FloatOps Floats.SpecFloat.
From Stdlib Require Import Numbers.Cyclic.Int63.Uint63 List.
Import ListNotations.

Local Open Scope Z_scope.
Local Open Scope list_scope.

(** ** Python strings

    A [str] is a sequence of code points; the model keeps the code points
    below 256, which is what [ascii] holds.  The two pictographs of the
    progress messages stand as their UTF-8 bytes. *)

Definition str := list ascii.

Definition lit (s : string) : str := list_ascii_of_string s.

Definition code (c : ascii) : Z := Z.of_N (N_of_ascii c).

Fixpoint str_eqb (a b : str) : bool :=
  match a, b with
  | [], [] => true
  | x :: a', y :: b' => Ascii.eqb x y && str_eqb a' b'
  | _, _ => false
  end.

(** [s.startswith(p)] *)
Fixpoint startswith (s p : str) {struct p} : bool :=
  match p, s with
  | [], _ => true
  | x :: p', y :: s' => Ascii.eqb x y && startswith s' p'
  | _ :: _, [] => false
  end.

(** [sub in s] *)
Fixpoint str_in (sub s : str) : bool :=
  startswith s sub ||
  match s with
  | [] => false
  | _ :: s' => str_in sub s'
  end.

(** [a < b] on strings: lexicographic on code points. *)
Fixpoint str_ltb (a b : str) : bool :=
  match a, b with
  | _, [] => false
  | [], _ :: _ => true
  | x :: a', y :: b' =>
      if code x <? code y then true
      else if code y <? code x then false
      else str_ltb a' b'
  end.

(** [str.isspace] on one code point, which is also the class [\s] of [re]. *)
Definition is_space (c : ascii) : bool :=
  let n := code c in
  ((9 <=? n) && (n <=? 13)) || ((28 <=? n) && (n <=? 32))
  || (n =? 133) || (n =? 160).

(** The class [\d] of [re]: below 256 the decimal digits are [0]..[9]. *)
Definition is_digit (c : ascii) : bool :=
  let n := code c in (48 <=? n) && (n <=? 57).

(** [str.lower] on one code point. *)
Definition lower_char (c : ascii) : ascii :=
  let n := code c in
  if ((65 <=? n) && (n <=? 90))
     || ((192 <=? n) && (n <=? 222) && negb (n =? 215))
  then ascii_of_N (Z.to_N (n + 32))
  else c.

Definition lower (s : str) : str := map lower_char s.

Fixpoint lstrip (s : str) : str :=
  match s with
  | c :: s' => if is_space c then lstrip s' else s
  | [] => []
  end.

(** [s.strip()] *)
Definition strip (s : str) : str := rev (lstrip (rev (lstrip s))).

(** [l[:n]] *)
Definition slice_to {A} (l : list A) (n : Z) : list A :=
  if 0 <=? n then firstn (Z.to_nat n) l
  else firstn (Z.to_nat (Z.of_nat (length l) + n)) l.

(** [len(l)] *)
Definition len {A} (l : list A) : Z := Z.of_nat (length l).

(** [sum(1 for x in l if cond(x))] *)
Definition count_if {A} (cond : A -> bool) (l : list A) : Z :=
  len (filter cond l).

(** Truthiness of a string. *)
Definition nonempty (s : str) : bool :=
  match s with [] => false | _ :: _ => true end.

(** [str(n)] for an integer. *)
Definition str_of_Z (n : Z) : str :=
  lit (NilZero.string_of_int (Z.to_int n)).

(** ** Insertion-ordered dictionaries keyed by strings

    [d[k] = v] overwrites in place when [k] is present and appends
    otherwise, so iteration follows first insertion, as in Python. *)

Module Dict.

Definition t (V : Type) := list (str * V).

Definition empty {V} : t V := [].

Fixpoint get {V} (k : str) (d : t V) : option V :=
  match d with
  | [] => None
  | (k', v) :: d' => if str_eqb k k' then Some v else get k d'
  end.

Definition mem {V} (k : str) (d : t V) : bool :=
  match get k d with Some _ => true | None => false end.

Fixpoint set {V} (k : str) (v : V) (d : t V) : t V :=
  match d with
  | [] => [(k, v)]
  | (k', v') :: d' =>
      if str_eqb k k' then (k', v) :: d' else (k', v') :: set k v d'
  end.

(** [d[k] = f(d[k])] for a key that is present *)
Fixpoint update {V} (k : str) (f : V -> V) (d : t V) : t V :=
  match d with
  | [] => []
  | (k', v) :: d' =>
      if str_eqb k k' then (k', f v) :: d' else (k', v) :: update k f d'
  end.

Definition keys {V} (d : t V) : list str := map fst d.

Definition map_values {V W} (f : V -> W) (d : t V) : t W :=
  map (fun kv => (fst kv, f (snd kv))) d.

End Dict.

(** ** Binary64 arithmetic

    The floats that [get_task_status] forms are non-negative and finite.
    [b64] holds such a value as [mant * 2^expo]; every operation is the
    exact result rounded to nearest, ties to even, on 53 bits, with the
    subnormal threshold of binary64.  Overflow is not represented: the
    quotients formed below are at most 1 and their products at most 100. *)

Module Binary64.

Record b64 := mk { mant : Z; expo : Z }.

Definition emin : Z := -1074.

(** Nearest integer to [n / d], ties to even ([0 < d]). *)
Definition rne (n d : Z) : Z :=
  let q := n / d in
  match 2 * (n mod d) ?= d with
  | Lt => q
  | Gt => q + 1
  | Eq => if Z.even q then q else q + 1
  end.

(** [n / (d * 2^e)] as a fraction of integers. *)
Definition scale (n d e : Z) : Z * Z :=
  if 0 <=? e then (n, d * 2 ^ e) else (n * 2 ^ (- e), d).

(** The exponent at which [n / d] is rounded: the one that puts the
    significand in [[2^52, 2^53)], or [emin] below the normal range. *)
Definition binade (n d : Z) : Z :=
  let e0 := Z.log2 n - Z.log2 d - 52 in
  let '(n', d') := scale n d e0 in
  let e := if 2 ^ 52 * d' <=? n' then e0 else e0 - 1 in
  Z.max e emin.

(** The float nearest to [n / d] ([0 <= n], [0 < d]). *)
Definition of_ratio (n d : Z) : b64 :=
  if n =? 0 then mk 0 0
  else
    let e := binade n d in
    let '(n', d') := scale n d e in
    mk (rne n' d') e.

(** [float(n)] and a float literal with an integer value. *)
Definition of_Z (n : Z) : b64 := of_ratio n 1.

(** [a / b] on integers: Python rounds the exact quotient once. *)
Definition int_truediv (a b : Z) : b64 := of_ratio a b.

(** [x * k] for a float [x] and an integer-valued float [k]. *)
Definition mul_Z (x : b64) (k : Z) : b64 :=
  let '(n, d) := scale (mant x * k) 1 (- expo x) in of_ratio n d.

(** [round(x, 1)]: the exact value of [x] is rounded to a whole number
    of tenths, ties to even, and the float nearest to that decimal is
    returned. *)
Definition tenths (x : b64) : Z :=
  let '(n, d) := scale (mant x * 10) 1 (- expo x) in rne n d.

Definition round1 (x : b64) : b64 := of_ratio (tenths x) 10.

(** The exact value of a float. *)
Definition to_Q (x : b64) : Q :=
  if 0 <=? expo x then inject_Z (mant x * 2 ^ expo x)
  else Qmake (mant x) (Z.to_pos (2 ^ (- expo x))).

End Binary64.

Import Binary64.

(** A number as Python holds it: [int] or [float]. *)
Inductive py_number :=
| PyInt (n : Z)
| PyFloat (x : b64).


(** ** Phase headings of the knowledge blob

    [phase_pattern] is [PHASE (\d+): (.*?)\s*\(([^)]+)\)].  Each greedy
    class is followed by a character outside the class, so giving back
    characters never helps and the longest run is the only candidate; the
    lazy group [(.*?)] takes the shortest name, made of characters other
    than the newline, after which the rest of the pattern matches. *)

Definition newline : ascii := ascii_of_nat 10.
Definition lparen : ascii := "("%char.
Definition rparen : ascii := ")"%char.

(** The longest prefix of [s] made of characters in the class [f]. *)
Fixpoint span (f : ascii -> bool) (s : str) : str * str :=
  match s with
  | c :: s' =>
      if f c then let '(a, b) := span f s' in (c :: a, b) else ([], s)
  | [] => ([], [])
  end.

(** A literal: what is left of [s] after [p]. *)
Definition expect (p s : str) : option str :=
  if startswith s p then Some (skipn (length p) s) else None.

Definition not_rparen (c : ascii) : bool := negb (Ascii.eqb c rparen).

(** [\s*\(([^)]+)\)] at the head of [s]: the timeline and the rest. *)
Definition match_timeline (s : str) : option (str * str) :=
  let '(_, s1) := span is_space s in
  match s1 with
  | c :: s2 =>
      if Ascii.eqb c lparen then
        let '(timeline, s3) := span not_rparen s2 in
        match timeline, s3 with
        | _ :: _, _ :: rest => Some (timeline, rest)
        | _, _ => None
        end
      else None
  | [] => None
  end.

(** [(.*?)\s*\(([^)]+)\)] at the head of [s]. *)
Fixpoint match_name (s : str) : option (str * str * str) :=
  match match_timeline s with
  | Some (timeline, rest) => Some ([], timeline, rest)
  | None =>
      match s with
      | c :: s' =>
          if Ascii.eqb c newline then None
          else
            match match_name s' with
            | Some (phase_name, timeline, rest) =>
                Some (c :: phase_name, timeline, rest)
            | None => None
            end
      | [] => None
      end
  end.

(** The whole pattern at the head of [s]: the three groups and the rest. *)
Definition match_phase (s : str) : option (str * str * str * str) :=
  match expect (lit "PHASE ") s with
  | Some s1 =>
      let '(phase_num, s2) := span is_digit s1 in
      match phase_num with
      | [] => None
      | _ :: _ =>
          match expect (lit ": ") s2 with
          | Some s3 =>
              match match_name s3 with
              | Some (phase_name, timeline, rest) =>
                  Some (phase_num, phase_name, timeline, rest)
              | None => None
              end
          | None => None
          end
      end
  | None => None
  end.

(** [phase_pattern.findall]: the matches from left to right, the search
    resuming where the previous match ended.  [skip] counts the characters
    of the current match still to pass. *)
Fixpoint findall_from (skip : nat) (s : str) : list (str * str * str) :=
  match s with
  | [] => []
  | _ :: s' =>
      match skip with
      | S k => findall_from k s'
      | O =>
          match match_phase s with
          | Some (phase_num, phase_name, timeline, rest) =>
              (phase_num, phase_name, timeline)
                :: findall_from (length s' - length rest) s'
          | None => findall_from 0 s'
          end
      end
  end.

Definition findall (s : str) : list (str * str * str) := findall_from 0 s.

Record phase := {
  ph_name : str;
  ph_description : str;
  ph_key_activities : list str;
  ph_deliverables : list str
}.

(** The record stored for one match. *)
Definition phase_of_match (phase_name timeline : str) : phase :=
  {| ph_name := phase_name ++ lit " (" ++ timeline ++ lit ")";
     ph_description := [];
     ph_key_activities := [];
     ph_deliverables := [] |}.

(** The loop over [matches] filling [IMPLEMENTATION_PHASES]. *)
Fixpoint store_phases (matches : list (str * str * str))
    (phases : Dict.t phase) : Dict.t phase :=
  match matches with
  | [] => phases
  | (phase_num, phase_name, timeline) :: rest =>
      store_phases rest
        (Dict.set phase_num (phase_of_match phase_name timeline) phases)
  end.

Definition parse_phases (domain_knowledge : str) : Dict.t phase :=
  store_phases (findall domain_knowledge) Dict.empty.

(** ** Records exchanged with the external services *)

(** A field the service may leave out of the dictionary or send as
    [null]. *)
Inductive field (A : Type) :=
| Absent
| Null
| Value (a : A).
Arguments Absent {A}.
Arguments Null {A}.
Arguments Value {A} a.

(** A task as the tracking service returns it; a field is [None] when the
    key is absent from the dictionary.  The service sends [due_on] as
    [null] for a task without due date and [assignee] as [null] for an
    unassigned task; an assignee is otherwise the object carrying the
    name. *)
Record task := {
  gid : option str;
  name : option str;
  completed : option bool;
  notes : option str;
  due_on : field str;
  assignee : field str
}.

Record user := { u_gid : str; u_name : str }.

(** The partial update sent with [update_task]. *)
Record patch := {
  p_notes : option str;
  p_assignee : option str;
  p_due_on : option str
}.

(** The chat-completion request: model, system message, user message.
    The headers and the temperature are the same in every request. *)
Record request := { rq_model : str; rq_system : str; rq_user : str }.

Inductive exn := Exception (msg : str).

Definition str_of_exn (e : exn) : str := let 'Exception msg := e in msg.

Inductive result (A : Type) :=
| Ret (a : A)
| Raise (e : exn).
Arguments Ret {A} a.
Arguments Raise {A} e.

(** The provider's answer: [message_content] is what
    [response.json()['choices'][0]['message']['content']] evaluates to. *)
Record response := {
  status_code : Z;
  text : str;
  message_content : result str
}.

(** ** The world and the monad

    The world is the trace of what the process did, latest event first.
    The services answer as a function of the trace so far. *)

Inductive event :=
| Printed (line : str)
| Posted (rq : request)
| Patched (task_id : option str) (data : patch)
| Slept (seconds : Z).

Definition world := list event.

(** What a call of [asana_client.tasks.get_tasks_for_project] hands back.
    The client the module builds with [asana.Client.access_token] hands
    back a generator over the items of the answer: it asks the service
    only when it is iterated, and [len] is not defined on it.  A stand-in
    for the client may hand back the list of the items itself. *)
Inductive handed_back := AsGenerator | AsList.

Record env := {
  ASANA_PROJECT_ID : str;
  OPENAI_API_KEY : str;
  ASSISTANT_NAME : str;
  DOMAIN_KNOWLEDGE : str;
  (** [datetime.now()], [days] later, as [%Y-%m-%d] *)
  date_after : world -> Z -> str;
  (** [open("Path.txt").read()] *)
  read_path_txt : world -> result str;
  (** the object [get_tasks_for_project] hands back *)
  tasks_handed_back : handed_back;
  (** the items of the answer, or the error of the request *)
  get_tasks_for_project : world -> str -> list (str * str) -> result (list task);
  users_find_all : world -> result (list user);
  tasks_update_task : world -> option str -> patch -> result unit;
  post_chat_completions : world -> request -> result response
}.

Definition IMPLEMENTATION_PHASES (e : env) : Dict.t phase :=
  parse_phases (DOMAIN_KNOWLEDGE e).

Definition M (A : Type) := world -> result A * world.

Definition ret {A} (a : A) : M A := fun w => (Ret a, w).

Definition raise {A} (e : exn) : M A := fun w => (Raise e, w).

Definition bind {A B} (m : M A) (k : A -> M B) : M B :=
  fun w =>
    match m w with
    | (Ret a, w') => k a w'
    | (Raise e, w') => (Raise e, w')
    end.

(** [try: body except Exception as e: handler] *)
Definition try_except {A} (body : M A) (handler : exn -> M A) : M A :=
  fun w =>
    match body w with
    | (Ret a, w') => (Ret a, w')
    | (Raise e, w') => handler e w'
    end.

Notation "x <- m ;; k" := (bind m (fun x => k))
  (at level 61, m at next level, right associativity).
Notation "m ;;; k" := (bind m (fun _ => k))
  (at level 61, right associativity).

Definition emit (ev : event) : M unit := fun w => (Ret tt, ev :: w).

Definition print (line : str) : M unit := emit (Printed line).

Definition sleep (seconds : Z) : M unit := emit (Slept seconds).

(** A call whose answer the environment gives from the trace. *)
Definition ask_env {A} (f : world -> result A) : M A := fun w => (f w, w).

Definition now_strftime (e : env) : M str :=
  fun w => (Ret (date_after e w 0), w).

Definition requests_post (e : env) (rq : request) : M response :=
  fun w => (post_chat_completions e w rq, Posted rq :: w).

Definition update_task (e : env) (task_id : option str) (data : patch)
  : M unit :=
  fun w => (tasks_update_task e w task_id data, Patched task_id data :: w).

(** The calls the process issued, oldest first. *)
Fixpoint patch_calls (w : world) : list (option str * patch) :=
  match w with
  | [] => []
  | Patched task_id data :: w' => patch_calls w' ++ [(task_id, data)]
  | _ :: w' => patch_calls w'
  end.

Fixpoint post_calls (w : world) : list request :=
  match w with
  | [] => []
  | Posted rq :: w' => post_calls w' ++ [rq]
  | _ :: w' => post_calls w'
  end.

Fixpoint printed (w : world) : list str :=
  match w with
  | [] => []
  | Printed line :: w' => printed w' ++ [line]
  | _ :: w' => printed w'
  end.

(** ** [AIAssistant] *)

Definition nl : str := [newline].

(** ["\n".join(lines)] *)
Fixpoint join_lines (lines : list str) : str :=
  match lines with
  | [] => []
  | [l] => l
  | l :: rest => l ++ nl ++ join_lines rest
  end.

(** [task.get('completed', False)] as a condition *)
Definition is_completed (t : task) : bool :=
  match completed t with Some b => b | None => false end.

(** [task.get(key, default)] *)
Definition get_or {A} (field : option A) (default : A) : A :=
  match field with Some v => v | None => default end.

Definition ask_prompt (domain_knowledge question : str) : str :=
  join_lines
    [ lit "You are an expert consultant on the specific processes described in the following context.";
      lit "            ";
      lit "            CONTEXT FROM PATH.TXT:";
      lit "            " ++ firstn 3000 domain_knowledge
        ++ lit "... (abbreviated for prompt length)";
      lit "            ";
      lit "            Please answer this question about implementing these processes:";
      lit "            " ++ question;
      lit "            ";
      lit "            Provide a comprehensive but practical answer based on the knowledge provided.";
      lit "            Reference specific sections of the implementation path where relevant.";
      lit "            " ].

(** The body of the request [ask_question] sends. *)
Definition ask_data (e : env) (model question : str) : request :=
  let prompt := ask_prompt (DOMAIN_KNOWLEDGE e) question in
  {| rq_model := model;
     rq_system :=
       lit "You are an expert consultant providing guidance on implementation.";
     rq_user := prompt |}.

(** [ask_question]: the answer, or [None]. *)
Definition ask_question (e : env) (model question : str) : M (option str) :=
  try_except
    (print (lit "Asking AI expert: " ++ question) ;;;
     let data := ask_data e model question in
     response <- requests_post e data ;;
     if status_code response =? 200 then
       content <- ask_env (fun _ => message_content response) ;;
       let message := strip content in
       ret (Some message)
     else
       (if status_code response =? 401 then
          print (lit "Authentication error: Check your OPENAI_API_KEY in .env file")
        else if status_code response =? 429 then
          print (lit "Rate limit or quota exceeded: Check your OpenAI billing status")
        else if status_code response =? 500 then
          print (lit "OpenAI server error, please try again later")
        else
          print (lit "Error " ++ str_of_Z (status_code response) ++ lit ": "
                 ++ text response)) ;;;
       ret None)
    (fun ex =>
       print (lit "Exception in ask_question: " ++ str_of_exn ex) ;;;
       (if str_in (lit "Connection") (str_of_exn ex) then
          print (lit "Network error: Check your internet connection")
        else if str_in (lit "SSLError") (str_of_exn ex) then
          print (lit "SSL error: Check your network security settings")
        else ret tt) ;;;
       ret None).

(** *** Task enrichment *)

Record results := {
  processed : Z;
  updated : Z;
  skipped : Z;
  failed : Z
}.

Definition incr_processed (r : results) : results :=
  {| processed := processed r + 1; updated := updated r;
     skipped := skipped r; failed := failed r |}.
Definition incr_updated (r : results) : results :=
  {| processed := processed r; updated := updated r + 1;
     skipped := skipped r; failed := failed r |}.
Definition incr_skipped (r : results) : results :=
  {| processed := processed r; updated := updated r;
     skipped := skipped r + 1; failed := failed r |}.
Definition incr_failed (r : results) : results :=
  {| processed := processed r; updated := updated r;
     skipped := skipped r; failed := failed r + 1 |}.

(** Truthiness of the optional [limit]. *)
Definition limit_set (limit : option Z) : bool :=
  match limit with Some n => negb (n =? 0) | None => false end.

Definition select_tasks (limit : option Z) (tasks : list task) : list task :=
  let incomplete_tasks := filter (fun t => negb (is_completed t)) tasks in
  if limit_set limit then slice_to incomplete_tasks (get_or limit 0)
  else incomplete_tasks.

Definition enrich_prompt (task_name path_content : str) : str :=
  join_lines
    [ lit "As an expert on the processes described in the implementation path, write a detailed description for the following task:";
      lit "                    ";
      lit "                    TASK NAME: " ++ task_name;
      lit "                    ";
      lit "                    IMPLEMENTATION CONTEXT:";
      lit "                    " ++ firstn 1500 path_content
        ++ lit "... (abbreviated for prompt length)";
      lit "                    ";
      lit "                    Your description should include:";
      lit "                    1. The purpose and importance of this task in the implementation";
      lit "                    2. Key requirements related to this task";
      lit "                    3. Implementation guidance (how to complete this task effectively)";
      lit "                    4. Common pitfalls to avoid";
      lit "                    5. How this task connects to other parts of the system";
      lit "                    6. How this task fits into the implementation path described above";
      lit "                    ";
      lit "                    Format the description in clear paragraphs with appropriate headings.";
      lit "                    " ].

Definition format_description
    (assistant_name today description task_name : str) : str :=
  join_lines
    [ [];
      lit "# TASK DESCRIPTION";
      lit "Generated by " ++ assistant_name ++ lit " on " ++ today;
      [];
      description;
      [];
      lit "---";
      lit "Original task: " ++ task_name;
      lit "                        " ].

(** The body of the request sent for one task. *)
Definition enrich_data (model task_name path_content : str) : request :=
  let prompt := enrich_prompt task_name path_content in
  {| rq_model := model;
     rq_system :=
       lit "You are an expert consultant providing implementation guidance.";
     rq_user := prompt |}.

(** The test of the skip path: notes that already carry a description. *)
Definition already_enriched (existing_notes : str) : bool :=
  (200 <? len existing_notes)
  && str_in (lit "TASK DESCRIPTION") existing_notes.

(** One iteration of the loop over [tasks_to_process].  The counters are
    incremented only after the last call that can raise, so the handler
    finds them as they were when the iteration began. *)
Definition enrich_task (e : env) (model path_content : str)
    (n_tasks : Z) (i : Z) (t : task) (r : results) : M results :=
  try_except
    (let task_name := get_or (name t) (lit "Unnamed task") in
     let task_id := gid t in
     let existing_notes := get_or (notes t) [] in
     print (nl ++ lit "Enriching task " ++ str_of_Z (i + 1) ++ lit "/"
            ++ str_of_Z n_tasks ++ lit ": " ++ task_name) ;;;
     if already_enriched existing_notes then
       print (lit "Task already has detailed description. Skipping.") ;;;
       ret (incr_skipped r)
     else
       let data := enrich_data model task_name path_content in
       print (lit "Generating description for task: " ++ task_name) ;;;
       response <- requests_post e data ;;
       r <- (if status_code response =? 200 then
               content <- ask_env (fun _ => message_content response) ;;
               let description := strip content in
               today <- now_strftime e ;;
               let formatted_description :=
                 format_description (ASSISTANT_NAME e) today description
                   task_name in
               let updated_notes :=
                 if nonempty existing_notes
                 then existing_notes ++ nl ++ nl ++ formatted_description
                 else formatted_description in
               update_task e task_id
                 {| p_notes := Some updated_notes; p_assignee := None;
                    p_due_on := None |} ;;;
               print (lit "✅ Updated task description for: " ++ task_name) ;;;
               ret (incr_updated r)
             else
               print (lit "❌ Failed to generate description: "
                      ++ str_of_Z (status_code response) ++ lit " - "
                      ++ text response) ;;;
               ret (incr_failed r)) ;;
       let r := incr_processed r in
       sleep 1 ;;;
       ret r)
    (fun ex =>
       print (lit "Error processing task " ++ get_or (name t) (lit "Unknown")
              ++ lit ": " ++ str_of_exn ex) ;;;
       ret (incr_failed r)).

(** [for i, task in enumerate(tasks_to_process)] *)
Fixpoint enrich_loop (e : env) (model path_content : str) (n_tasks : Z)
    (i : Z) (tasks : list task) (r : results) : M results :=
  match tasks with
  | [] => ret r
  | t :: rest =>
      r' <- enrich_task e model path_content n_tasks i t r ;;
      enrich_loop e model path_content n_tasks (i + 1) rest r'
  end.

Definition print_summary (r : results) : M unit :=
  print (nl ++ lit "--- TASK ENRICHMENT SUMMARY ---") ;;;
  print (lit "Processed: " ++ str_of_Z (processed r) ++ lit " tasks") ;;;
  print (lit "Updated: " ++ str_of_Z (updated r) ++ lit " tasks") ;;;
  print (lit "Skipped: " ++ str_of_Z (skipped r) ++ lit " tasks") ;;;
  print (lit "Failed: " ++ str_of_Z (failed r) ++ lit " tasks").

(** The object a call handed back: a generator that has not asked the
    service yet, with what iterating it will give, or a list. *)
Inductive collection :=
| Generator (items : result (list task))
| ListOf (items : list task).

(** [asana_client.tasks.get_tasks_for_project(ASANA_PROJECT_ID, params)] *)
Definition call_get_tasks (e : env) (params : list (str * str))
  : M collection :=
  fun w =>
    let answer := get_tasks_for_project e w (ASANA_PROJECT_ID e) params in
    match tasks_handed_back e with
    | AsGenerator => (Ret (Generator answer), w)
    | AsList =>
        match answer with
        | Ret items => (Ret (ListOf items), w)
        | Raise ex => (Raise ex, w)
        end
    end.

(** [for task in tasks] *)
Definition iterate (tasks : collection) : M (list task) :=
  match tasks with
  | Generator items => fun w => (items, w)
  | ListOf items => ret items
  end.

(** [len(tasks)] *)
Definition py_len (tasks : collection) : M Z :=
  match tasks with
  | Generator _ =>
      raise (Exception (lit "object of type 'generator' has no len()"))
  | ListOf items => ret (len items)
  end.

(** The call followed at once by one iteration over what it handed back,
    as in [enrich_task_descriptions] and [get_upcoming_tasks]: the items
    of the answer, or the error of the request, whichever object is
    handed back. *)
Definition fetch_tasks (e : env) (params : list (str * str))
  : M (list task) :=
  ask_env (fun w => get_tasks_for_project e w (ASANA_PROJECT_ID e) params).

Definition enrich_fields : list (str * str) :=
  [(lit "opt_fields", lit "name,notes,completed,gid")].

(** [enrich_task_descriptions]: the function has no [return] statement,
    so the value handed to the caller is [None] on every path. *)
Definition enrich_task_descriptions (e : env) (model : str)
    (limit : option Z) : M (option results) :=
  try_except
    (print (lit "Enriching task descriptions with domain expertise...") ;;;
     path_content <-
       try_except
         (content <- ask_env (read_path_txt e) ;;
          print (lit "Loaded implementation path for context") ;;;
          ret content)
         (fun ex =>
            print (lit "Could not load Path.txt file: " ++ str_of_exn ex) ;;;
            ret []) ;;
     tasks <- fetch_tasks e enrich_fields ;;
     let tasks_to_process := select_tasks limit tasks in
     print (lit "Found " ++ str_of_Z (len tasks_to_process)
            ++ lit " tasks to enrich") ;;;
     let r := {| processed := 0; updated := 0; skipped := 0; failed := 0 |} in
     r <- enrich_loop e model path_content (len tasks_to_process) 0
            tasks_to_process r ;;
     print_summary r ;;;
     ret None)
    (fun ex =>
       print (lit "Error in task enrichment: " ++ str_of_exn ex) ;;;
       ret None).

(** *** Upcoming tasks *)

Definition get_upcoming_tasks (e : env) (days : Z) : M (list task) :=
  try_except
    (target_date <- (fun w => (Ret (date_after e w days), w)) ;;
     tasks <- fetch_tasks e
                [(lit "opt_fields", lit "name,due_on,assignee.name,completed");
                 (lit "due_on.before", target_date)] ;;
     let upcoming_tasks := filter (fun t => negb (is_completed t)) tasks in
     ret upcoming_tasks)
    (fun ex =>
       print (lit "Error getting upcoming tasks: " ++ str_of_exn ex) ;;;
       ret []).

(** *** Status aggregation *)

(** One entry of [phases]; [b_percentage] is absent until the second loop
    stores it. *)
Record bucket := {
  b_total : Z;
  b_completed : Z;
  b_percentage : option py_number
}.

Record status := {
  st_total : Z;
  st_completed : Z;
  st_incomplete : Z;
  st_unassigned : Z;
  st_overdue : Z;
  st_percentage : py_number;
  st_phases : Dict.t bucket
}.

(** [round((completed / total) * 100, 1) if total > 0 else 0] *)
Definition percentage_of (n_completed n_total : Z) : py_number :=
  if 0 <? n_total
  then PyFloat (round1 (mul_Z (int_truediv n_completed n_total) 100))
  else PyInt 0.

Definition phase_marker (phase_num : str) : str :=
  lit "PHASE " ++ phase_num ++ lit ":".

(** The condition of the inner loop. *)
Definition names_phase (task_name phase_num : str) : bool :=
  str_in (phase_marker phase_num) task_name
  || startswith task_name (phase_marker phase_num).

Definition incr_total (b : bucket) : bucket :=
  {| b_total := b_total b + 1; b_completed := b_completed b;
     b_percentage := b_percentage b |}.

Definition incr_completed (b : bucket) : bucket :=
  {| b_total := b_total b; b_completed := b_completed b + 1;
     b_percentage := b_percentage b |}.

(** The body run for the phase that matches, before [break]. *)
Definition count_in_phase (phase_num : str) (t : task)
    (phases : Dict.t bucket) : Dict.t bucket :=
  let phases :=
    if Dict.mem phase_num phases then phases
    else Dict.set phase_num
           {| b_total := 0; b_completed := 0; b_percentage := None |} phases in
  let phases := Dict.update phase_num incr_total phases in
  if is_completed t then Dict.update phase_num incr_completed phases
  else phases.

(** [for phase_num in IMPLEMENTATION_PHASES.keys(): ... break] *)
Fixpoint assign_phase (phase_nums : list str) (t : task) (task_name : str)
    (phases : Dict.t bucket) : Dict.t bucket :=
  match phase_nums with
  | [] => phases
  | phase_num :: rest =>
      if names_phase task_name phase_num
      then count_in_phase phase_num t phases
      else assign_phase rest t task_name phases
  end.

(** [for task in tasks] *)
Fixpoint group_by_phase (phase_nums : list str) (tasks : list task)
    (phases : Dict.t bucket) : Dict.t bucket :=
  match tasks with
  | [] => phases
  | t :: rest =>
      group_by_phase phase_nums rest
        (assign_phase phase_nums t (get_or (name t) []) phases)
  end.

(** The second loop: [data['percentage'] = ...] for every bucket. *)
Definition with_percentage (data : bucket) : bucket :=
  {| b_total := b_total data; b_completed := b_completed data;
     b_percentage := Some (percentage_of (b_completed data) (b_total data)) |}.

Definition is_unassigned (t : task) : bool :=
  negb (is_completed t)
  && match assignee t with Value _ => false | Null | Absent => true end.

Definition is_overdue (today : str) (t : task) : bool :=
  negb (is_completed t)
  && match due_on t with
     | Value d => nonempty d && str_ltb d today
     | Null | Absent => false
     end.

(** What [get_task_status] computes from the fetched list. *)
Definition summarize (known_phases : Dict.t phase) (today : str)
    (tasks : list task) : status :=
  let n_total := len tasks in
  let n_completed := count_if is_completed tasks in
  let n_incomplete := n_total - n_completed in
  let n_unassigned := count_if is_unassigned tasks in
  let n_overdue := count_if (is_overdue today) tasks in
  let phases := group_by_phase (Dict.keys known_phases) tasks Dict.empty in
  let phases := Dict.map_values with_percentage phases in
  let percentage := percentage_of n_completed n_total in
  {| st_total := n_total;
     st_completed := n_completed;
     st_incomplete := n_incomplete;
     st_unassigned := n_unassigned;
     st_overdue := n_overdue;
     st_percentage := percentage;
     st_phases := phases |}.

Definition status_fields : list (str * str) :=
  [(lit "opt_fields", lit "name,completed,due_on,assignee.name")].

(** [get_task_status].  [total = len(tasks)] is applied to what the call
    handed back, before anything iterates over it; the loops that follow
    go over the list, of which [summarize] takes the length again. *)
Definition get_task_status (e : env) : M (option status) :=
  try_except
    (tasks <- call_get_tasks e status_fields ;;
     total <- py_len tasks ;;
     tasks <- iterate tasks ;;
     today <- now_strftime e ;;
     ret (Some (summarize (IMPLEMENTATION_PHASES e) today tasks)))
    (fun ex =>
       print (lit "Error getting task status: " ++ str_of_exn ex) ;;;
       ret None).

(** *** Bulk reassignment *)

Record assignment := {
  a_id : str;
  a_name : str;
  a_error : option str
}.

Record assign_results := {
  success : Z;
  n_failed : Z;
  assigned : list assignment
}.

(** The loop that looks the assignee up, with its [break]. *)
Fixpoint find_assignee (users : list user) (assignee_name : str)
  : option str :=
  match users with
  | [] => None
  | u :: rest =>
      if str_in (lower assignee_name) (lower (u_name u))
      then Some (u_gid u)
      else find_assignee rest assignee_name
  end.

(** The value of the local [task_id] when a message is formatted; the
    variable is unbound until a first [task['gid']] has succeeded. *)
Definition read_task_id (task_id : option str) : M str :=
  match task_id with
  | Some g => ret g
  | None =>
      raise (Exception (lit "local variable 'task_id' referenced before assignment"))
  end.

(** The handler of the loop over [tasks]. *)
Definition assign_failed (t : task) (r : assign_results)
    (task_id : option str) (ex : exn) : M (assign_results * option str) :=
  let r :=
    {| success := success r;
       n_failed := n_failed r + 1;
       assigned := assigned r ++
         [{| a_id := get_or (gid t) (lit "Unknown");
             a_name := get_or (name t) (lit "Unknown task");
             a_error := Some (str_of_exn ex) |}] |} in
  shown <- read_task_id task_id ;;
  print (lit "❌ Failed to update task: " ++ get_or (name t) shown) ;;;
  ret (r, task_id).

(** One iteration of the loop over [tasks]; the state is the running
    result and the local [task_id].  [task['gid']] raises [KeyError] when
    the key is absent, before [task_id] is assigned. *)
Definition assign_task (e : env) (update_data : patch) (t : task)
    (st : assign_results * option str) : M (assign_results * option str) :=
  let '(r, task_id) := st in
  match gid t with
  | None => assign_failed t r task_id (Exception (lit "'gid'"))
  | Some g =>
      let task_id := Some g in
      try_except
        (update_task e task_id update_data ;;;
         let r :=
           {| success := success r + 1;
              n_failed := n_failed r;
              assigned := assigned r ++
                [{| a_id := g;
                    a_name := get_or (name t) (lit "Unknown task");
                    a_error := None |}] |} in
         print (lit "✅ Updated task: " ++ get_or (name t) g) ;;;
         ret (r, task_id))
        (assign_failed t r task_id)
  end.

Fixpoint assign_loop (e : env) (update_data : patch) (tasks : list task)
    (st : assign_results * option str) : M (assign_results * option str) :=
  match tasks with
  | [] => ret st
  | t :: rest =>
      st' <- assign_task e update_data t st ;;
      assign_loop e update_data rest st'
  end.

Definition bulk_assign_tasks (e : env) (tasks : list task)
    (assignee_name : str) (due : option str) : M assign_results :=
  let r := {| success := 0; n_failed := 0; assigned := [] |} in
  users <- ask_env (users_find_all e) ;;
  let assignee_gid := find_assignee users assignee_name in
  if negb (nonempty (get_or assignee_gid [])) then
    print (lit "Could not find user: " ++ assignee_name) ;;;
    ret r
  else
    let update_data :=
      {| p_notes := None;
         p_assignee := assignee_gid;
         p_due_on := match due with
                     | Some d => if nonempty d then Some d else None
                     | None => None
                     end |} in
    st <- assign_loop e update_data tasks (r, None) ;;
    ret (fst st).

(** ** The rest of the module: start-up, batch entry point, sessions *)

(** Truthiness of a list. *)
Definition any_item {A} (l : list A) : bool :=
  match l with [] => false | _ :: _ => true end.

(** The start-up block that reads [Path.txt] into [DOMAIN_KNOWLEDGE]. *)
Definition load_domain_knowledge (e : env) : M str :=
  try_except
    (content <- ask_env (read_path_txt e) ;;
     print (lit "Successfully loaded domain knowledge from Path.txt") ;;;
     ret content)
    (fun ex =>
       print (lit "Warning: Could not load Path.txt - " ++ str_of_exn ex) ;;;
       print (lit "The assistant will have limited domain-specific knowledge") ;;;
       ret (lit "No specific domain knowledge provided.")).

(** The start-up block that fills [IMPLEMENTATION_PHASES], with the line
    it prints. *)
Definition load_implementation_phases (domain_knowledge : str)
  : M (Dict.t phase) :=
  let matches := findall domain_knowledge in
  if any_item matches then
    let phases := store_phases matches Dict.empty in
    print (lit "Found " ++ str_of_Z (len phases)
           ++ lit " implementation phases in Path.txt") ;;;
    ret phases
  else
    print (lit "No phase information found in Path.txt") ;;;
    ret Dict.empty.

(** [AIAssistant(model)] *)
Definition new_assistant (model : str) : M str :=
  print (lit "Initialized AI Assistant with model: " ++ model) ;;;
  ret model.

Definition default_model : str := lit "gpt-3.5-turbo".

(** [for task in upcoming_tasks: print(...)] *)
Fixpoint print_task_names (tasks : list task) : M unit :=
  match tasks with
  | [] => ret tt
  | t :: rest =>
      print (lit "- " ++ get_or (name t) (lit "Unnamed task")) ;;;
      print_task_names rest
  end.

(** [process_tasks]: the coroutine awaits nothing, so it runs from start
    to end when scheduled. *)
Definition process_tasks (e : env) (model : str) (limit : option Z) : M unit :=
  try_except
    (print (lit "Processing tasks from Asana project "
            ++ ASANA_PROJECT_ID e) ;;;
     enrich_task_descriptions e model limit ;;;
     upcoming_tasks <- get_upcoming_tasks e 7 ;;
     if any_item upcoming_tasks then
       print (lit "Found " ++ str_of_Z (len upcoming_tasks)
              ++ lit " upcoming tasks") ;;;
       print_task_names upcoming_tasks
     else
       print (lit "No upcoming tasks found"))
    (fun ex => print (lit "Error processing tasks: " ++ str_of_exn ex)).

(** [process_asana_tasks] *)
Definition process_asana_tasks (e : env) (limit : option Z) : M unit :=
  assistant <- new_assistant default_model ;;
  process_tasks e assistant limit.

(** *** The interactive session

    Standard input is the list of lines still to be read; [input] takes
    the first one and raises [EOFError] when none is left.  The prompt
    [input] writes is not recorded. *)

Definition input (stdin : list str) : M (str * list str) :=
  match stdin with
  | line :: rest => ret (line, rest)
  | [] => raise (Exception (lit "EOF when reading a line"))
  end.

Definition exit_words : list str := [lit "exit"; lit "quit"; lit "bye"].

(** [question.lower() in ['exit', 'quit', 'bye']] *)
Definition is_exit_word (question : str) : bool :=
  existsb (str_eqb (lower question)) exit_words.

(** The [while True] loop: one iteration per line read. *)
Fixpoint question_loop (e : env) (model : str) (stdin : list str)
  : M (list str) :=
  print (nl ++ lit "What would you like to ask? (type 'exit' to quit)") ;;;
  match stdin with
  | [] => raise (Exception (lit "EOF when reading a line"))
  | question :: rest =>
      if is_exit_word question then ret rest
      else
        response <- ask_question e model question ;;
        (if nonempty (get_or response []) then
           print (nl ++ lit "--- RESPONSE FROM AI EXPERT ---") ;;;
           print (get_or response []) ;;;
           print (lit "-------------------------------------")
         else
           print (lit "Failed to get a response")) ;;;
        question_loop e model rest
  end.

(** [interactive_session]: what is left of standard input when the
    session ends. *)
Definition interactive_session (e : env) (stdin : list str) : M (list str) :=
  print (lit "=== " ++ ASSISTANT_NAME e ++ lit " ===") ;;;
  print (nl ++ lit "Select AI model:") ;;;
  print (lit "1. GPT-3.5 Turbo (default, faster)") ;;;
  print (lit "2. GPT-4 (if available, more advanced)") ;;;
  read <- input stdin ;;
  let model_choice := strip (fst read) in
  let model := if str_eqb model_choice (lit "2") then lit "gpt-4"
               else default_model in
  assistant <- new_assistant model ;;
  stdin <- question_loop e assistant (snd read) ;;
  print (lit "Session ended") ;;;
  ret stdin.

(** *** The configuration block

    [getenv] is [os.getenv]: the value of a variable, [None] when it is
    not set.  [sys.exit(1)] ends the start-up with that status. *)

Inductive startup (A : Type) :=
| Loaded (a : A)
| Exited (status : Z).
Arguments Loaded {A} a.
Arguments Exited {A} status.

Record configuration := {
  cfg_SLACK_BOT_TOKEN : option str;
  cfg_SLACK_APP_TOKEN : option str;
  cfg_ASANA_TOKEN : option str;
  cfg_ASANA_PROJECT_ID : option str;
  cfg_OPENAI_API_KEY : option str;
  cfg_ASSISTANT_NAME : str
}.

(** [not value] for the value of a variable. *)
Definition unset (value : option str) : bool :=
  negb (nonempty (get_or value [])).

(** Two printed lines and [sys.exit(1)]. *)
Definition halt {A} (line1 line2 : str) (w : world) : startup A * world :=
  (Exited 1, Printed line2 :: Printed line1 :: w).

Definition load_configuration (getenv : str -> option str) (w : world)
  : startup configuration * world :=
  let w := Printed (lit "Environment variables loaded successfully") :: w in
  let SLACK_BOT_TOKEN := getenv (lit "SLACK_BOT_TOKEN") in
  let SLACK_APP_TOKEN := getenv (lit "SLACK_APP_TOKEN") in
  let ASANA_TOKEN := getenv (lit "ASANA_TOKEN") in
  let ASANA_PROJECT_ID := getenv (lit "ASANA_PROJECT_ID") in
  let OPENAI_API_KEY := getenv (lit "OPENAI_API_KEY") in
  let ASSISTANT_NAME :=
    get_or (getenv (lit "ASSISTANT_NAME")) (lit "AI Assistant") in
  if unset SLACK_BOT_TOKEN then
    halt (lit "Warning: SLACK_BOT_TOKEN not found in environment variables.")
         (lit "Please add SLACK_BOT_TOKEN to your .env file") w
  else if unset SLACK_APP_TOKEN then
    halt (lit "Warning: SLACK_APP_TOKEN not found in environment variables.")
         (lit "Please add SLACK_APP_TOKEN to your .env file") w
  else if unset ASANA_TOKEN then
    halt (lit "Warning: ASANA_TOKEN not found in environment variables.")
         (lit "Please add ASANA_TOKEN to your .env file") w
  else if unset ASANA_PROJECT_ID then
    halt (lit "Warning: ASANA_PROJECT_ID not found in environment variables.")
         (lit "Please add ASANA_PROJECT_ID to your .env file") w
  else
    let w :=
      if unset OPENAI_API_KEY then
        Printed (lit "Some API-based features will not work")
        :: Printed (lit "Please add OPENAI_API_KEY to your .env file")
        :: Printed (lit "Warning: OPENAI_API_KEY not found in environment variables.")
        :: w
      else w in
    (Loaded {| cfg_SLACK_BOT_TOKEN := SLACK_BOT_TOKEN;
               cfg_SLACK_APP_TOKEN := SLACK_APP_TOKEN;
               cfg_ASANA_TOKEN := ASANA_TOKEN;
               cfg_ASANA_PROJECT_ID := ASANA_PROJECT_ID;
               cfg_OPENAI_API_KEY := OPENAI_API_KEY;
               cfg_ASSISTANT_NAME := ASSISTANT_NAME |}, w).

(** ** The chat surface

    A session pairs the process trace with what was sent to the chat, the
    conversation history and the bot identity.  The functions [ack] and
    [say] that the framework hands to a handler, and the posting of a
    message from the worker thread, are taken to succeed. *)

Record message := { m_role : str; m_content : str }.

Inductive chat_event :=
| Acked
| Said (text : str) (thread_ts : option str)
| PostedMessage (channel text : str)
| ThreadStarted (limit : option Z) (channel : str).

Record session := {
  process : world;
  chat : list chat_event;
  conversation_history : Dict.t (list message);
  BOT_ID : option str
}.

Definition C (A : Type) := session -> result A * session.

Definition cret {A} (a : A) : C A := fun s => (Ret a, s).

Definition cbind {A B} (m : C A) (k : A -> C B) : C B :=
  fun s =>
    match m s with
    | (Ret a, s') => k a s'
    | (Raise ex, s') => (Raise ex, s')
    end.

Definition ctry {A} (body : C A) (handler : exn -> C A) : C A :=
  fun s =>
    match body s with
    | (Ret a, s') => (Ret a, s')
    | (Raise ex, s') => handler ex s'
    end.

Notation "x <~ m ;; k" := (cbind m (fun x => k))
  (at level 61, m at next level, right associativity).
Notation "m ;;~ k" := (cbind m (fun _ => k))
  (at level 61, right associativity).

(** A computation of the assistant run inside a session. *)
Definition lift {A} (m : M A) : C A :=
  fun s =>
    let '(r, w) := m (process s) in
    (r, {| process := w; chat := chat s;
           conversation_history := conversation_history s;
           BOT_ID := BOT_ID s |}).

Definition tell (ev : chat_event) : C unit :=
  fun s =>
    (Ret tt, {| process := process s; chat := ev :: chat s;
                conversation_history := conversation_history s;
                BOT_ID := BOT_ID s |}).

Definition ack : C unit := tell Acked.

Definition say (text : str) : C unit := tell (Said text None).

Definition say_in_thread (text : str) (thread_ts : option str) : C unit :=
  tell (Said text thread_ts).

Definition chat_postMessage (channel text : str) : C unit :=
  tell (PostedMessage channel text).

(** [get_bot_id]: [auth_test] is the answer of the chat service. *)
Definition get_bot_id (auth_test : result str) : C (option str) :=
  fun s =>
    match auth_test with
    | Ret user_id =>
        (Ret (Some user_id),
         {| process := Printed (lit "Bot ID: " ++ user_id) :: process s;
            chat := chat s;
            conversation_history := conversation_history s;
            BOT_ID := Some user_id |})
    | Raise ex =>
        (Ret None,
         {| process := Printed (lit "Error getting bot ID: " ++ str_of_exn ex)
                       :: process s;
            chat := chat s;
            conversation_history := conversation_history s;
            BOT_ID := BOT_ID s |})
    end.

(** The two appends to [conversation_history] after an answer. *)
Definition remember (conversation_key question answer : str) : C unit :=
  fun s =>
    let history := conversation_history s in
    let history :=
      if Dict.mem conversation_key history then history
      else Dict.set conversation_key [] history in
    let history :=
      Dict.update conversation_key
        (fun l => l ++ [{| m_role := lit "user"; m_content := question |}])
        history in
    let history :=
      Dict.update conversation_key
        (fun l => l ++ [{| m_role := lit "assistant"; m_content := answer |}])
        history in
    (Ret tt, {| process := process s; chat := chat s;
                conversation_history := history; BOT_ID := BOT_ID s |}).

(** [s.split(' ', 1)]: the part before the first space, and the part
    after it when there is one. *)
Fixpoint split_once (s : str) : str * option str :=
  match s with
  | [] => ([], None)
  | c :: s' =>
      if Ascii.eqb c " "%char then ([], Some s')
      else let '(a, b) := split_once s' in (c :: a, b)
  end.

(** [str.isdigit]: below 256 the digits are [0]..[9] and the three
    superscripts. *)
Definition isdigit_char (c : ascii) : bool :=
  let n := code c in
  ((48 <=? n) && (n <=? 57)) || (n =? 178) || (n =? 179) || (n =? 185).

Definition isdigit (s : str) : bool := nonempty s && forallb isdigit_char s.

(** [int(s)] for a string that passed [isdigit]: the superscripts are no
    decimal literals, and a string of more than 4300 digits, leading
    zeros counted, is refused by the interpreter's default limit on
    conversions. *)
Definition int_of_str (s : str) : result Z :=
  if forallb is_digit s then
    if 4300 <? len s then
      Raise (Exception
               (lit "Exceeds the limit (4300 digits) for integer string conversion: value has "
                ++ str_of_Z (len s)
                ++ lit " digits; use sys.set_int_max_str_digits() to increase the limit"))
    else Ret (fold_left (fun acc c => 10 * acc + (code c - 48)) s 0)
  else Raise (Exception (lit "invalid literal for int() with base 10: '"
                         ++ s ++ lit "'")).

(** [s.replace(old, "")] for a non-empty [old]; [skip] counts the
    characters of the current occurrence still to drop. *)
Fixpoint remove_from (skip : nat) (old s : str) : str :=
  match s with
  | [] => []
  | c :: s' =>
      match skip with
      | S k => remove_from k old s'
      | O =>
          if startswith s old then remove_from (length old - 1) old s'
          else c :: remove_from 0 old s'
      end
  end.

Definition remove_all (old s : str) : str := remove_from 0 old s.

(** [str(x)] for a number of a status.  A float there comes out of
    [round(_, 1)]: it is the float nearest to a whole number of tenths,
    and the shortest decimal that reads back as this float is that
    number of tenths. *)
Definition str_of_number (x : py_number) : str :=
  match x with
  | PyInt n => str_of_Z n
  | PyFloat f =>
      let k := tenths f in
      str_of_Z (k / 10) ++ lit "." ++ str_of_Z (k mod 10)
  end.

(** [sorted(d.items())]: the keys of a dictionary differ, so the order is
    that of the keys. *)
Fixpoint insert_item {V} (kv : str * V) (l : list (str * V))
  : list (str * V) :=
  match l with
  | [] => [kv]
  | x :: rest =>
      if str_ltb (fst kv) (fst x) then kv :: l else x :: insert_item kv rest
  end.

Definition sorted_items {V} (d : Dict.t V) : list (str * V) :=
  fold_right insert_item [] d.

Definition bullet : str := lit "• ".

Definition help_text : str :=
  lit "*AI Implementation Assistant - Available Commands*" ++ nl ++ nl
  ++ bullet ++ lit "`/assistant help` - Show this help message" ++ nl
  ++ bullet ++ lit "`/assistant ask [question]` - Ask the AI expert" ++ nl
  ++ bullet ++ lit "`/assistant tasks` - Show upcoming tasks" ++ nl
  ++ bullet ++ lit "`/assistant status` - Show implementation progress" ++ nl
  ++ bullet ++ lit "`/assistant phase [number]` - Get details about a specific phase" ++ nl
  ++ bullet ++ lit "`/assistant enrich [limit]` - Add detailed descriptions to tasks".

Definition show_help : C unit := say help_text.

(** [task.get('due_on', 'No due date')] in the reply: the default stands
    in for a missing key only, and [null] is shown as [None]. *)
Definition due_date_of (t : task) : str :=
  match due_on t with
  | Absent => lit "No due date"
  | Null => lit "None"
  | Value d => d
  end.

(** [task.get('assignee', {}).get('name', 'Unassigned')]: the default
    stands in for a missing key only, and [.get] on the [null] of an
    unassigned task raises [AttributeError]. *)
Definition assignee_name_of (t : task) : result str :=
  match assignee t with
  | Absent => Ret (lit "Unassigned")
  | Null => Raise (Exception (lit "'NoneType' object has no attribute 'get'"))
  | Value assignee_name => Ret assignee_name
  end.

(** The lines of the reply of the [tasks] subcommand, up to the first
    task on which the loop raises. *)
Fixpoint upcoming_lines (tasks : list task) : result str :=
  match tasks with
  | [] => Ret []
  | t :: rest =>
      let due_date := due_date_of t in
      match assignee_name_of t with
      | Raise ex => Raise ex
      | Ret assignee_name =>
          match upcoming_lines rest with
          | Raise ex => Raise ex
          | Ret lines =>
              Ret (bullet ++ lit "*" ++ get_or (name t) (lit "None")
                   ++ lit "*" ++ nl
                   ++ lit "  Due: " ++ due_date ++ lit " | Assignee: "
                   ++ assignee_name ++ nl ++ lines)
          end
      end
  end.

(** [phase_data['percentage']] *)
Definition subscript_percentage (data : bucket) : result py_number :=
  match b_percentage data with
  | Some p => Ret p
  | None => Raise (Exception (lit "'percentage'"))
  end.

(** The lines of [Progress by Phase]. *)
Fixpoint phase_lines (known : Dict.t phase) (items : list (str * bucket))
  : result str :=
  match items with
  | [] => Ret []
  | (phase_num, phase_data) :: rest =>
      let phase_name :=
        match Dict.get phase_num known with
        | Some ph => ph_name ph
        | None => lit "Phase " ++ phase_num
        end in
      match subscript_percentage phase_data with
      | Raise ex => Raise ex
      | Ret percentage =>
          match phase_lines known rest with
          | Raise ex => Raise ex
          | Ret lines =>
              Ret (bullet ++ phase_name ++ lit ": "
                   ++ str_of_Z (b_completed phase_data) ++ lit "/"
                   ++ str_of_Z (b_total phase_data) ++ lit " ("
                   ++ str_of_number percentage ++ lit "%)" ++ nl ++ lines)
          end
      end
  end.

(** The reply of the [status] subcommand. *)
Definition status_text (known : Dict.t phase) (st : status) : result str :=
  let response :=
    lit "*Implementation Status*" ++ nl
    ++ lit "Total Tasks: " ++ str_of_Z (st_total st) ++ nl
    ++ lit "Progress: " ++ str_of_Z (st_completed st) ++ lit "/"
    ++ str_of_Z (st_total st) ++ lit " tasks ("
    ++ str_of_number (st_percentage st) ++ lit "%)" ++ nl
    ++ lit "Incomplete: " ++ str_of_Z (st_incomplete st) ++ lit " tasks" ++ nl
    ++ lit "Unassigned: " ++ str_of_Z (st_unassigned st) ++ lit " tasks" ++ nl
    ++ lit "Overdue: " ++ str_of_Z (st_overdue st) ++ lit " tasks" ++ nl ++ nl in
  if any_item (st_phases st) then
    match phase_lines known (sorted_items (st_phases st)) with
    | Ret lines => Ret (response ++ lit "*Progress by Phase:*" ++ nl ++ lines)
    | Raise ex => Raise ex
    end
  else Ret response.

(** The reply of the [phase] subcommand. *)
Fixpoint bullet_lines (items : list str) : str :=
  match items with
  | [] => []
  | item :: rest => bullet ++ item ++ nl ++ bullet_lines rest
  end.

Definition phase_text (ph : phase) : str :=
  let response := lit "*" ++ ph_name ph ++ lit "*" ++ nl in
  let response :=
    if nonempty (ph_description ph)
    then response ++ ph_description ph ++ nl ++ nl else response in
  let response :=
    if any_item (ph_key_activities ph)
    then response ++ lit "*Key Activities:*" ++ nl
         ++ bullet_lines (ph_key_activities ph) ++ nl
    else response in
  if any_item (ph_deliverables ph)
  then response ++ lit "*Deliverables:*" ++ nl
       ++ bullet_lines (ph_deliverables ph)
  else response.

Record command := {
  cmd_text : str;
  cmd_user_id : str;
  cmd_channel_id : str
}.

(** The body of the worker thread started by the [enrich] subcommand. *)
Definition run_enrichment (e : env) (assistant : str) (limit : option Z)
    (channel : str) : C unit :=
  ctry
    (lift (enrich_task_descriptions e assistant limit) ;;~
     chat_postMessage channel
       (lit "✅ Task enrichment completed! Check Asana for updated task descriptions."))
    (fun ex =>
       chat_postMessage channel
         (lit "❌ Error during task enrichment: " ++ str_of_exn ex)).

(** [handle_assistant_command].  Starting the worker thread is recorded
    as [ThreadStarted]; what the thread does is [run_enrichment]. *)
Definition handle_assistant_command (e : env) (cmd : command) : C unit :=
  ack ;;~
  let text := cmd_text cmd in
  let parts := split_once (strip text) in
  let subcommand := lower (fst parts) in
  let content := get_or (snd parts) [] in
  let user_id := cmd_user_id cmd in
  assistant <~ lift (new_assistant default_model) ;;
  if str_eqb subcommand (lit "help") || negb (nonempty subcommand) then
    show_help
  else if str_eqb subcommand (lit "ask") then
    if negb (nonempty content) then
      say (lit "Please provide a question after 'ask'. For example: `/assistant ask What is the next step?`")
    else
      say (lit "Asking the AI Assistant: *" ++ content ++ lit "*" ++ nl
           ++ lit "Please wait...") ;;~
      response <~ lift (ask_question e assistant content) ;;
      if nonempty (get_or response []) then
        let conversation_key := lit "slack-" ++ user_id in
        remember conversation_key content (get_or response []) ;;~
        say (get_or response [])
      else
        say (lit "Sorry, I couldn't get an answer to that question. Please try rephrasing.")
  else if str_eqb subcommand (lit "tasks") then
    ctry
      (upcoming_tasks <~ lift (get_upcoming_tasks e 7) ;;
       if negb (any_item upcoming_tasks) then
         say (lit "No upcoming tasks found.")
       else
         lines <~ (fun s => (upcoming_lines upcoming_tasks, s)) ;;
         say (lit "*Upcoming Tasks:*" ++ nl ++ lines))
      (fun ex => say (lit "Error retrieving tasks: " ++ str_of_exn ex))
  else if str_eqb subcommand (lit "status") then
    st <~ lift (get_task_status e) ;;
    match st with
    | None => say (lit "Could not retrieve implementation status.")
    | Some st =>
        response <~ (fun s => (status_text (IMPLEMENTATION_PHASES e) st, s)) ;;
        say response
    end
  else if str_eqb subcommand (lit "enrich") then
    ctry
      (limit <~ (if isdigit content
                 then fun s => (match int_of_str content with
                                | Ret n => Ret (Some n)
                                | Raise ex => Raise ex
                                end, s)
                 else cret None) ;;
       say (lit "Starting task enrichment process"
            ++ (if limit_set limit
                then lit " for " ++ str_of_Z (get_or limit 0) ++ lit " tasks"
                else [])
            ++ lit ". This may take a few minutes...") ;;~
       tell (ThreadStarted limit (cmd_channel_id cmd)))
      (fun ex => say (lit "Error starting enrichment: " ++ str_of_exn ex))
  else if str_eqb subcommand (lit "phase") then
    if negb (nonempty content) || negb (isdigit content) then
      say (lit "Please specify a phase number. For example: `/assistant phase 1`")
    else
      let phase_num := content in
      match Dict.get phase_num (IMPLEMENTATION_PHASES e) with
      | None =>
          say (lit "Phase " ++ phase_num
               ++ lit " not found in the implementation plan.")
      | Some ph => say (phase_text ph)
      end
  else
    say (lit "Unknown command: " ++ subcommand ++ nl
         ++ lit "Type `/assistant help` to see available commands.").

Record mention := {
  ev_text : option str;
  ev_user : option str;
  ev_thread_ts : option str;
  ev_ts : option str
}.

(** [handle_mention] *)
Definition handle_mention (e : env) (event : mention) : C unit :=
  fun s =>
    let text := get_or (ev_text event) [] in
    let user := get_or (ev_user event) [] in
    let text :=
      match BOT_ID s with
      | Some bot_id =>
          if nonempty bot_id
          then strip (remove_all (lit "<@" ++ bot_id ++ lit ">") text)
          else text
      | None => text
      end in
    (if negb (nonempty text) then
       say (lit "Hi <@" ++ user
            ++ lit ">! How can I help you? Ask me anything about the implementation process.")
     else
       assistant <~ lift (new_assistant default_model) ;;
       response <~ lift (ask_question e assistant text) ;;
       if nonempty (get_or response []) then
         let conversation_key := lit "slack-" ++ user in
         remember conversation_key text (get_or response []) ;;~
         let thread_ts :=
           match ev_thread_ts event with
           | Some ts => Some ts
           | None => ev_ts event
           end in
         say_in_thread (get_or response []) thread_ts
       else
         say (lit "Sorry <@" ++ user
              ++ lit ">, I couldn't get an answer to that question. Please try rephrasing or using the `/assistant ask` command.")) s.

(** ** Spec-side definitions used in the statements *)

(** The first known phase, in the order given, whose marker occurs in the
    task name. *)
Definition first_phase (phase_nums : list str) (task_name : str)
  : option str :=
  find (fun p => str_in (phase_marker p) task_name) phase_nums.

(** The pair (total, completed) a phase holds in [phases], zero when the
    phase has no bucket. *)
Definition tally (k : str) (phases : Dict.t bucket) : Z * Z :=
  match Dict.get k phases with
  | Some b => (b_total b, b_completed b)
  | None => (0, 0)
  end.

Definition in_phase (phase_nums : list str) (k : str) (t : task) : bool :=
  match first_phase phase_nums (get_or (name t) []) with
  | Some p => str_eqb p k
  | None => false
  end.

(** One when the task is completed, zero otherwise. *)
Definition completed_unit (t : task) : Z := if is_completed t then 1 else 0.

(** What holds of every bucket while the tasks are being grouped. *)
Definition counted (kv : str * bucket) : Prop :=
  1 <= b_total (snd kv) /\ 0 <= b_completed (snd kv) <= b_total (snd kv)
  /\ b_percentage (snd kv) = None.

(** [x] lies between 0 and the integer [b]. *)
Definition bounded (x : b64) (b : Z) : Prop :=
  0 <= mant x /\
  fst (scale (mant x) 1 (- expo x)) <= b * snd (scale (mant x) 1 (- expo x)).


(** A heading [PHASE <number>: <name> (<timeline>)] at the head of [s], as
    the pattern reads: digits, a name free of newlines, optional white
    space, and a non-empty timeline between parentheses. *)
Definition not_newline (c : ascii) : bool := negb (Ascii.eqb c newline).

Definition heading (phase_num phase_name timeline rest s : str) : Prop :=
  exists ws,
    s = lit "PHASE " ++ phase_num ++ lit ": " ++ phase_name ++ ws
          ++ lparen :: timeline ++ rparen :: rest
    /\ phase_num <> [] /\ forallb is_digit phase_num = true
    /\ forallb not_newline phase_name = true
    /\ forallb is_space ws = true
    /\ timeline <> [] /\ forallb not_rparen timeline = true.

(** Some heading stands at the head of [s]. *)
Definition heading_at (s : str) : Prop :=
  exists phase_num phase_name timeline rest,
    heading phase_num phase_name timeline rest s.

(** The match of the pattern at the head of [s]: of the headings [s]
    starts with, the one with the shortest name, since the lazy [(.*?)]
    takes as little as lets the rest of the pattern match. *)
Definition pattern_match (phase_num phase_name timeline rest s : str)
  : Prop :=
  heading phase_num phase_name timeline rest s
  /\ forall phase_num' phase_name' timeline' rest',
       heading phase_num' phase_name' timeline' rest' s ->
       (length phase_name <= length phase_name')%nat.

(** The scan of the specification: the matches of the pattern from left
    to right, each taken at the first position where a heading stands,
    the scan resuming where the match ended. *)
Inductive scan : str -> list (str * str * str) -> Prop :=
| scan_end (s : str) :
    (forall before s', s = before ++ s' -> ~ heading_at s') ->
    scan s []
| scan_match (before s phase_num phase_name timeline rest : str)
    (matches : list (str * str * str)) :
    (forall b1 b2, before = b1 ++ b2 -> b2 <> [] -> ~ heading_at (b2 ++ s)) ->
    pattern_match phase_num phase_name timeline rest s ->
    scan rest matches ->
    scan (before ++ s) ((phase_num, phase_name, timeline) :: matches).

(** The name and timeline of the last match that captured number [k]. *)
Fixpoint last_match (k : str) (matches : list (str * str * str))
  : option (str * str) :=
  match matches with
  | [] => None
  | (phase_num, phase_name, timeline) :: rest =>
      match last_match k rest with
      | Some m => Some m
      | None => if str_eqb k phase_num then Some (phase_name, timeline) else None
      end
  end.

(** ** Sample inputs *)

Definition sample_task (id title : string) (done : bool) (body : str) : task :=
  {| gid := Some (lit id); name := Some (lit title); completed := Some done;
     notes := Some body; due_on := Absent; assignee := Absent |}.

(** An environment whose services always give the same answers, the
    stand-in for the client handing lists back. *)
Definition sample_env (knowledge : str) (tasks : result (list task))
    (users : result (list user)) (answer : result response) : env :=
  {| ASANA_PROJECT_ID := lit "1200";
     OPENAI_API_KEY := lit "sk-test";
     ASSISTANT_NAME := lit "AI Assistant";
     DOMAIN_KNOWLEDGE := knowledge;
     date_after := fun _ _ => lit "2024-05-01";
     read_path_txt := fun _ => Ret knowledge;
     tasks_handed_back := AsList;
     get_tasks_for_project := fun _ _ _ => tasks;
     users_find_all := fun _ => users;
     tasks_update_task := fun _ _ _ => Ret tt;
     post_chat_completions := fun _ _ => answer |}.

Definition sample_knowledge : str :=
  lit "PHASE 1: Discovery (Week 1-2)" ++ nl
  ++ lit "PHASE 2: Build   (Weeks 3-6)" ++ nl
  ++ lit "PHASE 1: Discovery again (Week 7)".

Definition ten_tasks : list task :=
  [ sample_task "1" "PHASE 1: interviews" true [];
    sample_task "2" "PHASE 1: survey" true [];
    sample_task "3" "PHASE 2: schema" true [];
    sample_task "4" "PHASE 2: api, after PHASE 1: survey" true [];
    sample_task "5" "PHASE 2: ui" false [];
    sample_task "6" "PHASE 2: tests" false [];
    sample_task "7" "PHASE 3: launch" false [];
    sample_task "8" "retrospective" false [];
    sample_task "9" "PHASE 2: docs" false [];
    sample_task "10" "PHASE 1: sign-off" false [] ].

Definition ok_response (body : string) : response :=
  {| status_code := 200; text := lit body; message_content := Ret (lit body) |}.

Definition sample_status_env : env :=
  sample_env sample_knowledge (Ret ten_tasks) (Ret []) (Ret (ok_response "ok")).

(** The same services behind the client of the module, which hands
    generators back. *)
Definition behind_client (e : env) : env :=
  {| ASANA_PROJECT_ID := ASANA_PROJECT_ID e;
     OPENAI_API_KEY := OPENAI_API_KEY e;
     ASSISTANT_NAME := ASSISTANT_NAME e;
     DOMAIN_KNOWLEDGE := DOMAIN_KNOWLEDGE e;
     date_after := date_after e;
     read_path_txt := read_path_txt e;
     tasks_handed_back := AsGenerator;
     get_tasks_for_project := get_tasks_for_project e;
     users_find_all := users_find_all e;
     tasks_update_task := tasks_update_task e;
     post_chat_completions := post_chat_completions e |}.

Definition client_status_env : env := behind_client sample_status_env.

(** The provider gives no answer: the call raises, or the status is not
    200. *)
Definition provider_fails (o : result response) : Prop :=
  match o with
  | Ret r => status_code r <> 200
  | Raise _ => True
  end.

(** The lines of the enrichment summary, latest first. *)
Definition summary_events (r : results) : list event :=
  [ Printed (lit "Failed: " ++ str_of_Z (failed r) ++ lit " tasks");
    Printed (lit "Skipped: " ++ str_of_Z (skipped r) ++ lit " tasks");
    Printed (lit "Updated: " ++ str_of_Z (updated r) ++ lit " tasks");
    Printed (lit "Processed: " ++ str_of_Z (processed r) ++ lit " tasks");
    Printed (nl ++ lit "--- TASK ENRICHMENT SUMMARY ---") ].

(** The trace when the provider is called for task [t]. *)
Definition at_enrich_call (n_tasks i : Z) (t : task) (w : world) : world :=
  Printed (lit "Generating description for task: "
           ++ get_or (name t) (lit "Unnamed task"))
  :: Printed (nl ++ lit "Enriching task " ++ str_of_Z (i + 1) ++ lit "/"
              ++ str_of_Z n_tasks ++ lit ": "
              ++ get_or (name t) (lit "Unnamed task"))
  :: w.

Definition no_results : results :=
  {| processed := 0; updated := 0; skipped := 0; failed := 0 |}.

Definition enriched_notes : str :=
  nl ++ lit "# TASK DESCRIPTION" ++ nl ++ repeat "x"%char 200.

Definition open_tasks : list task :=
  [ sample_task "11" "Draft plan" false [];
    sample_task "12" "Review plan" false enriched_notes;
    sample_task "13" "Kick-off" true [] ].

Definition sample_enrich_env : env :=
  sample_env sample_knowledge (Ret open_tasks) (Ret [])
    (Ret (ok_response "  Do it well. ")).

Definition rate_limited : response :=
  {| status_code := 429;
     text := lit "quota exceeded";
     message_content := Raise (Exception (lit "'choices'")) |}.

Definition rate_limited_env : env :=
  sample_env sample_knowledge (Ret open_tasks) (Ret []) (Ret rate_limited).

Definition gpt : str := lit "gpt-3.5-turbo".

Definition sample_users : list user :=
  [ {| u_gid := lit "501"; u_name := lit "Alice Martin" |};
    {| u_gid := lit "502"; u_name := lit "Bob Stone" |} ].

Definition sample_users_env : env :=
  sample_env sample_knowledge (Ret open_tasks) (Ret sample_users)
    (Ret (ok_response "ok")).

(** The user list cannot be fetched. *)
Definition failing_users_env : env :=
  sample_env sample_knowledge (Ret open_tasks)
    (Raise (Exception (lit "Connection aborted")))
    (Ret (ok_response "ok")).

(** ** The binary64 model against the kernel's floats

    [agrees c t] runs [round((c / t) * 100, 1)] once in the model and once
    on primitive floats and compares the two results bit for bit. *)

Definition spec_float_of (x : b64) : spec_float :=
  if mant x =? 0 then S754_zero false
  else if mant x =? 2 ^ 53
  then S754_finite false (Z.to_pos (2 ^ 52)) (expo x + 1)
  else S754_finite false (Z.to_pos (mant x)) (expo x).

Definition spec_float_eqb (a b : spec_float) : bool :=
  match a, b with
  | S754_zero s, S754_zero s' => Bool.eqb s s'
  | S754_finite s m e, S754_finite s' m' e' =>
      Bool.eqb s s' && Pos.eqb m m' && (e =? e')
  | _, _ => false
  end.

Definition prim_of_Z (n : Z) : float := PrimFloat.of_uint63 (Uint63.of_Z n).

Definition agrees (c t : Z) : bool :=
  let y := mul_Z (int_truediv c t) 100 in
  spec_float_eqb
    (Prim2SF (PrimFloat.mul (PrimFloat.div (prim_of_Z c) (prim_of_Z t))
                (prim_of_Z 100)))
    (spec_float_of y)
  && spec_float_eqb
       (Prim2SF (PrimFloat.div (prim_of_Z (tenths y)) (prim_of_Z 10)))
       (spec_float_of (round1 y)).

Definition agrees_upto (n : nat) : bool :=
  forallb (fun t => forallb (fun c => agrees (Z.of_nat c) (Z.of_nat t))
                      (seq 0 (S t)))
    (seq 1 n).

(** ** Proof automation *)

Ltac unfold_M :=
  unfold try_except, bind, print, sleep, emit, ret, raise, ask_env,
    requests_post, update_task, now_strftime in *.

Ltac settle_iteration :=
  split; [reflexivity|]; cbn [patch_calls post_calls];
  split; [first [reflexivity | rewrite app_nil_r; reflexivity]|];
  split; [first [reflexivity | rewrite app_nil_r; reflexivity]|].


(** ** Further spec-side definitions *)

(** The totals and the completed counts of all buckets added up. *)
Fixpoint sum_totals (phases : Dict.t bucket) : Z :=
  match phases with
  | [] => 0
  | (_, b) :: rest => b_total b + sum_totals rest
  end.

Fixpoint sum_completed (phases : Dict.t bucket) : Z :=
  match phases with
  | [] => 0
  | (_, b) :: rest => b_completed b + sum_completed rest
  end.

(** The task names some known phase. *)
Definition has_phase (phase_nums : list str) (t : task) : bool :=
  match first_phase phase_nums (get_or (name t) []) with
  | Some _ => true
  | None => false
  end.

(** The pauses the process took, oldest first. *)
Fixpoint sleep_calls (w : world) : list Z :=
  match w with
  | [] => []
  | Slept seconds :: w' => sleep_calls w' ++ [seconds]
  | _ :: w' => sleep_calls w'
  end.

(** The notes written for a task: the description block alone, or the
    notes already there, a blank line, and the block. *)
Definition notes_with (existing_notes formatted_description : str) : str :=
  if nonempty existing_notes
  then existing_notes ++ nl ++ nl ++ formatted_description
  else formatted_description.

(** An update as the enrichment of task [t] sends it. *)
Definition enrichment_of (e : env) (t : task) (c : option str * patch)
  : Prop :=
  fst c = gid t
  /\ already_enriched (get_or (notes t) []) = false
  /\ exists description today,
       snd c =
       {| p_notes :=
            Some (notes_with (get_or (notes t) [])
                    (format_description (ASSISTANT_NAME e) today
                       (strip description)
                       (get_or (name t) (lit "Unnamed task"))));
          p_assignee := None;
          p_due_on := None |}.

(** The request sent for task [t]. *)
Definition request_for (model path_content : str) (t : task) : request :=
  enrich_data model (get_or (name t) (lit "Unnamed task")) path_content.

(** The tasks of a batch that are not on the skip path. *)
Definition to_enrich (tasks : list task) : list task :=
  filter (fun t => negb (already_enriched (get_or (notes t) []))) tasks.

(** The context a run of the batch reads from [Path.txt]: the text of the
    file, or nothing when it cannot be read. *)
Definition path_content_at (e : env) (w : world) : str :=
  match read_path_txt e
          (Printed (lit "Enriching task descriptions with domain expertise...")
           :: w) with
  | Ret content => content
  | Raise _ => []
  end.

(** A string with no white space at either end. *)
Definition trimmed (s : str) : Prop :=
  match s with
  | [] => True
  | c :: _ => is_space c = false /\ is_space (last s c) = false
  end.

(** The update [bulk_assign_tasks] sends for every task. *)
Definition assignment_patch (assignee_gid : str) (due : option str) : patch :=
  {| p_notes := None;
     p_assignee := Some assignee_gid;
     p_due_on := match due with
                 | Some d => if nonempty d then Some d else None
                 | None => None
                 end |}.

Definition three_with_ids : list task :=
  [ sample_task "11" "Draft plan" false [];
    sample_task "12" "Review plan" false [];
    sample_task "13" "Kick-off" true [] ].

Definition no_gid_task : task :=
  {| gid := None; name := Some (lit "Orphan"); completed := None;
     notes := None; due_on := Absent; assignee := Absent |}.

(** The elements of [l] not in [seen], each kept at its first
    occurrence. *)
Fixpoint first_occurrences (seen l : list str) : list str :=
  match l with
  | [] => []
  | k :: rest =>
      if existsb (str_eqb k) seen then first_occurrences seen rest
      else k :: first_occurrences (seen ++ [k]) rest
  end.

(** The phase numbers captured by the scan, in the order of the blob. *)
Definition captured_numbers (blob : str) : list str :=
  map (fun m => fst (fst m)) (findall blob).

Definition placeholder_knowledge : str :=
  lit "No specific domain knowledge provided.".

(** The model the interactive session works with after the choice typed
    at the first prompt. *)
Definition chosen_model (choice : str) : str :=
  if str_eqb (strip choice) (lit "2") then lit "gpt-4" else default_model.

(** The texts said in a stretch of chat events, oldest first. *)
Fixpoint said (events : list chat_event) : list str :=
  match events with
  | [] => []
  | Said text _ :: rest => said rest ++ [text]
  | _ :: rest => said rest
  end.

(** The worker threads started in a stretch of chat events. *)
Fixpoint threads_started (events : list chat_event) : list (option Z) :=
  match events with
  | [] => []
  | ThreadStarted limit _ :: rest => threads_started rest ++ [limit]
  | _ :: rest => threads_started rest
  end.

(** The subcommand and the content a command text is split into. *)
Definition subcommand_of (text : str) : str :=
  lower (fst (split_once (strip text))).

Definition content_of (text : str) : str :=
  get_or (snd (split_once (strip text))) [].

(** The session once a handler has acknowledged the command and built
    its assistant. *)
Definition acknowledged (s : session) : session :=
  {| process :=
       Printed (lit "Initialized AI Assistant with model: " ++ default_model)
       :: process s;
     chat := Acked :: chat s;
     conversation_history := conversation_history s;
     BOT_ID := BOT_ID s |}.

Definition sample_session : session :=
  {| process := []; chat := []; conversation_history := [];
     BOT_ID := Some (lit "U42") |}.

Definition sample_command (text : string) : command :=
  {| cmd_text := lit text; cmd_user_id := lit "U7";
     cmd_channel_id := lit "C1" |}.

Ltac unfold_C :=
  unfold show_help, ack, say, say_in_thread, chat_postMessage, remember,
    new_assistant, lift, cbind, ctry, cret, tell, bind, print, emit, ret
    in *.

(** The history kept under a key, empty when there is none. *)
Definition history_of (key : str) (s : session) : list message :=
  get_or (Dict.get key (conversation_history s)) [].

(** The two entries an answered question adds. *)
Definition exchange (question answer : str) : list message :=
  [ {| m_role := lit "user"; m_content := question |};
    {| m_role := lit "assistant"; m_content := answer |} ].

(** The messages posted to channels in a stretch of chat events, oldest
    first. *)
Fixpoint posted (events : list chat_event) : list (str * str) :=
  match events with
  | [] => []
  | PostedMessage channel text :: rest => posted rest ++ [(channel, text)]
  | _ :: rest => posted rest
  end.

(** The thread a mention is answered in. *)
Definition reply_thread (event : mention) : option str :=
  match ev_thread_ts event with
  | Some ts => Some ts
  | None => ev_ts event
  end.

(** The session once the mention handler has built its assistant. *)
Definition with_assistant (s : session) : session :=
  {| process :=
       Printed (lit "Initialized AI Assistant with model: " ++ default_model)
       :: process s;
     chat := chat s;
     conversation_history := conversation_history s;
     BOT_ID := BOT_ID s |}.

Definition sample_mention (text : string) : mention :=
  {| ev_text := Some (lit text); ev_user := Some (lit "U7");
     ev_thread_ts := None; ev_ts := Some (lit "1700000000.000100") |}.

(** The session of a process that has not learnt its bot id. *)
Definition fresh_session : session :=
  {| process := []; chat := []; conversation_history := [];
     BOT_ID := None |}.

(** An environment whose task fetch fails. *)
Definition no_tasks_env : env :=
  sample_env sample_knowledge (Raise (Exception (lit "Forbidden")))
    (Ret []) (Ret (ok_response "ok")).

Ltac settle_detail :=
  split; [reflexivity|]; cbn [patch_calls post_calls sleep_calls];
  split; [first [reflexivity | rewrite app_nil_r; reflexivity]|];
  split; [first [reflexivity | rewrite app_nil_r; reflexivity]|];
  split; [first [reflexivity | rewrite app_nil_r; reflexivity]|].

Ltac close_detail :=
  first [ solve [apply Forall_nil]
        | solve [reflexivity]
        | solve [constructor; [reflexivity | apply Forall_nil]]
        | solve [constructor; [auto | apply Forall_nil]]
        | solve [unfold len;
                 cbn [length incr_failed incr_skipped incr_updated
                      incr_processed skipped updated failed processed];
                 lia] ].

Ltac split_events :=
  cbn [chat acknowledged process conversation_history BOT_ID];
  match goal with
  | |- ?a :: ?l = ?new ++ ?l => unify new [a]; reflexivity
  | |- ?a :: ?b :: ?l = ?new ++ ?l => unify new [a; b]; reflexivity
  end.

Ltac one_reply :=
  eexists; eexists; split; [reflexivity|];
  split; [split_events|];
  cbn [said app length process chat conversation_history BOT_ID
       acknowledged patch_calls post_calls sleep_calls];
  repeat split; auto.

(** The variables without which the process does not start, in the order
    in which they are checked. *)
Definition required_names : list str :=
  [lit "SLACK_BOT_TOKEN"; lit "SLACK_APP_TOKEN"; lit "ASANA_TOKEN";
   lit "ASANA_PROJECT_ID"].

(** The variable has a non-empty value. *)
Definition is_set (getenv : str -> option str) (variable : str) : bool :=
  nonempty (get_or (getenv variable) []).


(** The lines of the [tasks] reply for one task whose assignee is not
    [null]. *)
Definition shown (t : task) : str :=
  bullet ++ lit "*" ++ get_or (name t) (lit "None") ++ lit "*" ++ nl
  ++ lit "  Due: "
  ++ match due_on t with
     | Value d => d
     | Null => lit "None"
     | Absent => lit "No due date"
     end
  ++ lit " | Assignee: "
  ++ match assignee t with
     | Value assignee_name => assignee_name
     | Null | Absent => lit "Unassigned"
     end
  ++ nl.

(** An upcoming task as the service sends it when nobody is assigned and
    no date is set. *)
Definition unassigned_task : task :=
  {| gid := Some (lit "21"); name := Some (lit "Book venue");
     completed := Some false; notes := None;
     due_on := Null; assignee := Null |}.

Definition assigned_task : task :=
  {| gid := Some (lit "22"); name := Some (lit "Send invitations");
     completed := Some false; notes := None;
     due_on := Value (lit "2024-05-03"); assignee := Value (lit "Alice") |}.

Definition upcoming_env (tasks : list task) : env :=
  sample_env sample_knowledge (Ret tasks) (Ret []) (Ret (ok_response "ok")).
(** * Proofs *)

(** ** Strings and dictionaries *)

Lemma str_eqb_eq (a b : str) : str_eqb a b = true <-> a = b.
Proof.
  revert b; induction a as [|x a IH]; destruct b as [|y b]; simpl;
    try (split; [discriminate | discriminate]); try tauto.
  rewrite andb_true_iff, Ascii.eqb_eq, IH.
  split; [intros [-> ->]; reflexivity | intros H; inversion H; auto].
Qed.

Lemma str_eqb_refl (a : str) : str_eqb a a = true.
Proof. apply str_eqb_eq; reflexivity. Qed.

Lemma str_eqb_neq (a b : str) : str_eqb a b = false <-> a <> b.
Proof.
  rewrite <- str_eqb_eq. destruct (str_eqb a b); split; congruence.
Qed.

Lemma str_eqb_sym (a b : str) : str_eqb a b = str_eqb b a.
Proof.
  destruct (str_eqb a b) eqn:E.
  - apply str_eqb_eq in E; subst; symmetry; apply str_eqb_refl.
  - apply str_eqb_neq in E. symmetry; apply str_eqb_neq; congruence.
Qed.

Lemma startswith_str_in (s p : str) :
  startswith s p = true -> str_in p s = true.
Proof. intros H. destruct s; cbn [str_in]; rewrite H; reflexivity. Qed.

Lemma names_phase_str_in (task_name phase_num : str) :
  names_phase task_name phase_num = str_in (phase_marker phase_num) task_name.
Proof.
  unfold names_phase.
  destruct (startswith task_name (phase_marker phase_num)) eqn:E.
  - rewrite (startswith_str_in _ _ E). reflexivity.
  - apply orb_false_r.
Qed.

Module DictFacts.

Lemma get_set_same {V} (k : str) (v : V) (d : Dict.t V) :
  Dict.get k (Dict.set k v d) = Some v.
Proof.
  induction d as [|[k' v'] d IH]; simpl.
  - now rewrite str_eqb_refl.
  - destruct (str_eqb k k') eqn:E; simpl; rewrite E; auto.
Qed.

Lemma get_set_other {V} (k k0 : str) (v : V) (d : Dict.t V) :
  k0 <> k -> Dict.get k0 (Dict.set k v d) = Dict.get k0 d.
Proof.
  intros N. induction d as [|[k' v'] d IH]; simpl.
  - apply str_eqb_neq in N. now rewrite N.
  - destruct (str_eqb k k') eqn:E; simpl.
    + apply str_eqb_eq in E; subst k'.
      apply str_eqb_neq in N. now rewrite N.
    + now rewrite IH.
Qed.

Lemma get_update_same {V} (k : str) (f : V -> V) (d : Dict.t V) :
  Dict.get k (Dict.update k f d) = option_map f (Dict.get k d).
Proof.
  induction d as [|[k' v'] d IH]; simpl; auto.
  destruct (str_eqb k k') eqn:E; simpl; rewrite E; auto.
Qed.

Lemma get_update_other {V} (k k0 : str) (f : V -> V) (d : Dict.t V) :
  k0 <> k -> Dict.get k0 (Dict.update k f d) = Dict.get k0 d.
Proof.
  intros N. induction d as [|[k' v'] d IH]; simpl; auto.
  destruct (str_eqb k k') eqn:E; simpl.
  - apply str_eqb_eq in E; subst k'.
    apply str_eqb_neq in N. now rewrite N.
  - now rewrite IH.
Qed.

Lemma set_absent {V} (k : str) (v : V) (d : Dict.t V) :
  Dict.get k d = None -> Dict.set k v d = d ++ [(k, v)].
Proof.
  induction d as [|[k' v'] d IH]; simpl; auto.
  destruct (str_eqb k k'); [discriminate|].
  intros H; now rewrite IH.
Qed.

Lemma update_app_absent {V} (k : str) (f : V -> V) (d d' : Dict.t V) :
  Dict.get k d = None -> Dict.update k f (d ++ d') = d ++ Dict.update k f d'.
Proof.
  induction d as [|[k' v'] d IH]; simpl; auto.
  destruct (str_eqb k k'); [discriminate|].
  intros H; now rewrite IH.
Qed.

Lemma update_update {V} (k : str) (f g : V -> V) (d : Dict.t V) :
  Dict.update k f (Dict.update k g d) = Dict.update k (fun v => f (g v)) d.
Proof.
  induction d as [|[k' v'] d IH]; simpl; auto.
  destruct (str_eqb k k') eqn:E; simpl; rewrite E; auto.
  now rewrite IH.
Qed.

Lemma update_Forall {V} (P : str * V -> Prop) (k : str) (f : V -> V)
    (d : Dict.t V) :
  (forall v, P (k, v) -> P (k, f v)) ->
  Forall P d -> Forall P (Dict.update k f d).
Proof.
  intros Hf. induction 1 as [|[k' v'] d Hx Hd IH]; simpl; auto.
  destruct (str_eqb k k') eqn:E; constructor; auto.
  apply str_eqb_eq in E; subst; auto.
Qed.

Lemma get_map_values {V W} (f : V -> W) (k : str) (d : Dict.t V) :
  Dict.get k (Dict.map_values f d) = option_map f (Dict.get k d).
Proof.
  induction d as [|[k' v'] d IH]; simpl; auto.
  destruct (str_eqb k k'); auto.
Qed.

Lemma get_In {V} (k : str) (v : V) (d : Dict.t V) :
  Dict.get k d = Some v -> In (k, v) d.
Proof.
  induction d as [|[k' v'] d IH]; simpl; [discriminate|].
  destruct (str_eqb k k') eqn:E.
  - apply str_eqb_eq in E; subst. intros [= ->]; auto.
  - auto.
Qed.

End DictFacts.

(** [fetch_tasks] is the call followed by one iteration, whichever object
    the call hands back. *)
Lemma fetch_tasks_iterates (e : env) (params : list (str * str)) (w : world) :
  fetch_tasks e params w
  = (tasks <- call_get_tasks e params ;; iterate tasks) w.
Proof.
  unfold fetch_tasks, ask_env, bind, call_get_tasks, iterate, ret.
  destruct (tasks_handed_back e);
    destruct (get_tasks_for_project e w (ASANA_PROJECT_ID e) params);
    reflexivity.
Qed.

(** ** Binary64: rounding stays below a representable bound *)

Module Binary64Facts.

Lemma rne_nonneg (n d : Z) : 0 <= n -> 0 < d -> 0 <= rne n d.
Proof.
  intros Hn Hd. unfold rne.
  assert (0 <= n / d) by (apply Z.div_pos; lia).
  destruct (2 * (n mod d) ?= d); [destruct (Z.even (n / d))|..]; lia.
Qed.

Lemma rne_le (n d k : Z) : 0 < d -> n <= k * d -> rne n d <= k.
Proof.
  intros Hd Hn. unfold rne.
  pose proof (Z.div_mod n d ltac:(lia)) as E.
  pose proof (Z.mod_pos_bound n d Hd) as B.
  set (q := n / d) in *. set (r := n mod d) in *.
  destruct (Z_lt_le_dec q k) as [L|L].
  - destruct (2 * r ?= d); [destruct (Z.even q)|..]; lia.
  - assert (Hq : q = k) by nia.
    assert (Hr : r = 0) by nia.
    rewrite Hr, Hq.
    destruct (Z.compare_spec (2 * 0) d); lia.
Qed.

Lemma scale_den_pos (n d e : Z) : 0 < d -> 0 < snd (scale n d e).
Proof.
  intros Hd. unfold scale. destruct (0 <=? e) eqn:E; simpl; auto.
  apply Z.leb_le in E.
  pose proof (Z.pow_pos_nonneg 2 e ltac:(lia) E). nia.
Qed.

Lemma scale_num_nonneg (n d e : Z) : 0 <= n -> 0 <= fst (scale n d e).
Proof.
  intros Hn. unfold scale. destruct (0 <=? e) eqn:E; simpl; auto.
  pose proof (Z.pow_nonneg 2 (- e) ltac:(lia)). nia.
Qed.

Lemma scale_mul (m k e : Z) :
  scale (m * k) 1 e = (fst (scale m 1 e) * k, snd (scale m 1 e)).
Proof.
  unfold scale. destruct (0 <=? e); simpl; f_equal; ring.
Qed.

(** Below [2^52] the rounding exponent is negative. *)
Lemma binade_neg (n d : Z) :
  0 < n -> 0 < d -> n < 2 ^ 52 * d -> binade n d < 0.
Proof.
  intros Hn Hd Hlt. unfold binade.
  pose proof (Z.log2_spec n Hn) as [Ln _].
  pose proof (Z.log2_spec d Hd) as [_ Ld].
  pose proof (Z.log2_nonneg n) as Nn.
  pose proof (Z.log2_nonneg d) as Nd.
  set (a := Z.log2 n) in *. set (b := Z.log2 d) in *.
  set (e0 := a - b - 52).
  destruct (scale n d e0) as [n' d'] eqn:S.
  assert (emin < 0) by (unfold emin; lia).
  destruct (Z_lt_le_dec e0 0) as [Neg|Pos].
  { destruct (2 ^ 52 * d' <=? n'); lia. }
  unfold scale in S.
  replace (0 <=? e0) with true in S by (symmetry; apply Z.leb_le; lia).
  inversion S; subst n' d'; clear S.
  pose proof (Z.pow_pos_nonneg 2 e0 ltac:(lia) Pos) as P0.
  destruct (2 ^ 52 * (d * 2 ^ e0) <=? n) eqn:T.
  - apply Z.leb_le in T. exfalso. nia.
  - destruct (Z.eq_dec e0 0) as [Z0|NZ]; [lia|].
    exfalso.
    assert (Ea : a = (e0 - 1) + 52 + Z.succ b) by (unfold e0; lia).
    rewrite Ea in Ln.
    rewrite !Z.pow_add_r in Ln by lia.
    pose proof (Z.pow_pos_nonneg 2 (e0 - 1) ltac:(lia) ltac:(lia)) as P1.
    assert (0 < 2 ^ 52) by (apply Z.pow_pos_nonneg; lia).
    nia.
Qed.

Lemma of_ratio_bounded (n d b : Z) :
  0 <= n -> 0 < d -> 1 <= b < 2 ^ 52 -> n <= b * d ->
  bounded (of_ratio n d) b.
Proof.
  intros Hn Hd Hb Hle. unfold of_ratio.
  destruct (n =? 0) eqn:Z0.
  { unfold bounded, scale; simpl. lia. }
  apply Z.eqb_neq in Z0.
  assert (E : binade n d < 0) by (apply binade_neg; nia).
  set (e := binade n d) in *.
  unfold scale at 1.
  replace (0 <=? e) with false by (symmetry; apply Z.leb_gt; lia).
  pose proof (Z.pow_pos_nonneg 2 (- e) ltac:(lia) ltac:(lia)) as P.
  unfold bounded; cbn [mant expo].
  split.
  - apply rne_nonneg; nia.
  - unfold scale.
    replace (0 <=? - e) with true by (symmetry; apply Z.leb_le; lia).
    cbn [fst snd]. rewrite Z.mul_1_l.
    apply rne_le; nia.
Qed.

Lemma mul_Z_bounded (x : b64) (b k : Z) :
  bounded x b -> 0 <= k -> 1 <= b * k < 2 ^ 52 ->
  bounded (mul_Z x k) (b * k).
Proof.
  intros [Hm Hx] Hk Hb. unfold mul_Z.
  rewrite scale_mul.
  pose proof (scale_den_pos (mant x) 1 (- expo x) ltac:(lia)) as Dp.
  pose proof (scale_num_nonneg (mant x) 1 (- expo x) Hm) as Np.
  apply of_ratio_bounded; nia.
Qed.

Lemma tenths_bounds (x : b64) (b : Z) :
  bounded x b -> 0 <= tenths x <= b * 10.
Proof.
  intros [Hm Hx]. unfold tenths. rewrite scale_mul.
  pose proof (scale_den_pos (mant x) 1 (- expo x) ltac:(lia)) as Dp.
  pose proof (scale_num_nonneg (mant x) 1 (- expo x) Hm) as Np.
  split; [apply rne_nonneg | apply rne_le]; nia.
Qed.

Lemma round1_bounded (x : b64) (b : Z) :
  bounded x b -> 1 <= b < 2 ^ 52 -> bounded (round1 x) b.
Proof.
  intros Hx Hb. pose proof (tenths_bounds x b Hx).
  unfold round1. apply of_ratio_bounded; lia.
Qed.

(** The bound read on the exact value. *)
Lemma bounded_to_Q (x : b64) (b : Z) :
  bounded x b -> (0 <= to_Q x <= inject_Z b)%Q.
Proof.
  intros [Hm Hx]. unfold to_Q, scale in *.
  destruct (Z_le_gt_dec 0 (expo x)) as [E|E].
  - replace (0 <=? expo x) with true by (symmetry; apply Z.leb_le; lia).
    pose proof (Z.pow_pos_nonneg 2 (expo x) ltac:(lia) E) as P.
    assert (U : mant x * 2 ^ expo x <= b).
    { destruct (0 <=? - expo x) eqn:E'; cbn [fst snd] in Hx.
      - apply Z.leb_le in E'. assert (E0 : expo x = 0) by lia.
        rewrite E0 in *. change (2 ^ (- 0)) with 1 in Hx.
        change (2 ^ 0) with 1. lia.
      - rewrite Z.opp_involutive in Hx. lia. }
    unfold Qle, inject_Z; cbn [Qnum Qden]. nia.
  - replace (0 <=? expo x) with false by (symmetry; apply Z.leb_gt; lia).
    replace (0 <=? - expo x) with true in Hx
      by (symmetry; apply Z.leb_le; lia).
    cbn [fst snd] in Hx.
    pose proof (Z.pow_pos_nonneg 2 (- expo x) ltac:(lia) ltac:(lia)) as P.
    unfold Qle, inject_Z; cbn [Qnum Qden].
    rewrite Z2Pos.id by lia. lia.
Qed.

(** The percentage of [c] out of [t], as the code computes it, for
    counts with [0 <= c <= t] and [1 <= t]. *)
Lemma percentage_bounded (c t : Z) :
  0 <= c <= t -> 1 <= t ->
  bounded (round1 (mul_Z (int_truediv c t) 100)) 100.
Proof.
  intros Hc Ht.
  assert (P : (100 : Z) < 2 ^ 52) by reflexivity.
  apply round1_bounded; [|lia].
  apply (mul_Z_bounded _ 1 100); [|lia|lia].
  unfold int_truediv. apply of_ratio_bounded; lia.
Qed.

(** On every total up to 48, and on two large quotients, the model and
    the kernel's binary64 arithmetic give the same float. *)
Lemma model_agrees_with_primitive_floats :
  agrees_upto 48 = true
  /\ agrees 12345678901 98765432101 = true
  /\ agrees 1 (2 ^ 40 + 1) = true.
Proof. vm_compute. repeat split. Qed.

End Binary64Facts.

(** ** Status aggregation *)

Lemma len_nonneg {A} (l : list A) : 0 <= len l.
Proof. unfold len; lia. Qed.

Lemma count_if_cons {A} (f : A -> bool) (x : A) (l : list A) :
  count_if f (x :: l) = (if f x then 1 else 0) + count_if f l.
Proof.
  unfold count_if, len; simpl. destruct (f x); simpl length; lia.
Qed.

Lemma count_if_bounds {A} (f : A -> bool) (l : list A) :
  0 <= count_if f l <= len l.
Proof.
  induction l as [|x l IH].
  - unfold count_if, len; simpl; lia.
  - rewrite count_if_cons. unfold len in *; simpl length.
    destruct (f x); lia.
Qed.

Lemma count_if_pos {A} (f : A -> bool) (l : list A) :
  1 <= count_if f l <-> exists x, In x l /\ f x = true.
Proof.
  induction l as [|x l IH].
  - unfold count_if, len; simpl. split; [lia | intros (x & [] & _)].
  - rewrite count_if_cons. pose proof (count_if_bounds f l) as B.
    destruct (f x) eqn:F.
    + split; [intros _; exists x; simpl; auto | lia].
    + rewrite Z.add_0_l, IH. split.
      * intros (y & Hy & Fy); exists y; simpl; auto.
      * intros (y & [->|Hy] & Fy); [congruence | exists y; auto].
Qed.

Lemma assign_phase_first (phase_nums : list str) (t : task)
    (task_name : str) (phases : Dict.t bucket) :
  assign_phase phase_nums t task_name phases =
  match first_phase phase_nums task_name with
  | Some p => count_in_phase p t phases
  | None => phases
  end.
Proof.
  unfold first_phase.
  induction phase_nums as [|p rest IH]; simpl; auto.
  rewrite names_phase_str_in.
  destruct (str_in (phase_marker p) task_name); auto.
Qed.

Lemma tally_count_in_phase (p k : str) (t : task) (phases : Dict.t bucket) :
  tally k (count_in_phase p t phases) =
  if str_eqb p k
  then (fst (tally k phases) + 1, snd (tally k phases) + completed_unit t)
  else tally k phases.
Proof.
  unfold count_in_phase, tally, completed_unit, Dict.mem.
  destruct (str_eqb p k) eqn:E.
  - apply str_eqb_eq in E; subst k.
    destruct (Dict.get p phases) as [b|] eqn:G; destruct (is_completed t);
      rewrite ?DictFacts.get_update_same, ?DictFacts.get_set_same, ?G;
      simpl; f_equal; lia.
  - apply str_eqb_neq in E.
    assert (N : k <> p) by congruence.
    destruct (Dict.get p phases) as [b|] eqn:G; destruct (is_completed t);
      rewrite ?DictFacts.get_update_other, ?DictFacts.get_set_other by exact N;
      reflexivity.
Qed.

Lemma tally_assign_phase (phase_nums : list str) (k : str) (t : task)
    (phases : Dict.t bucket) :
  tally k (assign_phase phase_nums t (get_or (name t) []) phases) =
  if in_phase phase_nums k t
  then (fst (tally k phases) + 1, snd (tally k phases) + completed_unit t)
  else tally k phases.
Proof.
  rewrite assign_phase_first. unfold in_phase.
  destruct (first_phase phase_nums (get_or (name t) [])) as [p|]; auto.
  apply tally_count_in_phase.
Qed.

Lemma tally_group_by_phase (phase_nums : list str) (k : str)
    (tasks : list task) (phases : Dict.t bucket) :
  tally k (group_by_phase phase_nums tasks phases) =
  (fst (tally k phases) + count_if (in_phase phase_nums k) tasks,
   snd (tally k phases)
   + count_if (fun t => in_phase phase_nums k t && is_completed t) tasks).
Proof.
  revert phases. induction tasks as [|t rest IH]; intros phases; simpl.
  - unfold count_if, len; simpl.
    rewrite !Z.add_0_r. now destruct (tally k phases).
  - rewrite IH, tally_assign_phase, !count_if_cons.
    unfold completed_unit.
    destruct (in_phase phase_nums k t), (is_completed t);
      cbn [fst snd andb]; f_equal; lia.
Qed.

Lemma tally_map_values (k : str) (phases : Dict.t bucket) :
  tally k (Dict.map_values with_percentage phases) = tally k phases.
Proof.
  unfold tally. rewrite DictFacts.get_map_values.
  destruct (Dict.get k phases); reflexivity.
Qed.

Lemma counted_count_in_phase (p : str) (t : task) (phases : Dict.t bucket) :
  Forall counted phases -> Forall counted (count_in_phase p t phases).
Proof.
  intros H. unfold count_in_phase, Dict.mem.
  destruct (Dict.get p phases) as [b|] eqn:G.
  - destruct (is_completed t); rewrite ?DictFacts.update_update;
      apply DictFacts.update_Forall; auto;
      unfold counted; simpl; intros v (? & ? & ?); repeat split; auto; lia.
  - rewrite (DictFacts.set_absent _ _ _ G).
    destruct (is_completed t); rewrite ?DictFacts.update_update;
      rewrite (DictFacts.update_app_absent _ _ _ _ G); simpl;
      rewrite str_eqb_refl; apply Forall_app; split; auto;
      constructor; auto; unfold counted; simpl; repeat split; lia.
Qed.

Lemma counted_group_by_phase (phase_nums : list str) (tasks : list task)
    (phases : Dict.t bucket) :
  Forall counted phases ->
  Forall counted (group_by_phase phase_nums tasks phases).
Proof.
  revert phases. induction tasks as [|t rest IH]; intros phases H; simpl; auto.
  apply IH. rewrite assign_phase_first.
  destruct (first_phase phase_nums (get_or (name t) [])); auto.
  now apply counted_count_in_phase.
Qed.

Lemma in_phase_unique (phase_nums : list str) (k k' : str) (t : task) :
  in_phase phase_nums k t = true -> in_phase phase_nums k' t = true -> k = k'.
Proof.
  unfold in_phase.
  destruct (first_phase phase_nums (get_or (name t) [])); try discriminate.
  intros H1 H2. apply str_eqb_eq in H1, H2. congruence.
Qed.

Lemma first_phase_spec (phase_nums : list str) (task_name p : str) :
  first_phase phase_nums task_name = Some p <->
  exists before after,
    phase_nums = before ++ p :: after
    /\ str_in (phase_marker p) task_name = true
    /\ forall q, In q before -> str_in (phase_marker q) task_name = false.
Proof.
  unfold first_phase. induction phase_nums as [|q rest IH]; simpl.
  - split; [discriminate | intros ([|] & ? & ? & _); discriminate].
  - destruct (str_in (phase_marker q) task_name) eqn:E.
    + split.
      * intros [= ->]. exists [], rest. simpl; intuition.
      * intros (before & after & Heq & Hp & Hb).
        destruct before as [|x before]; simpl in Heq; inversion Heq; subst; auto.
        rewrite (Hb x (or_introl eq_refl)) in E; discriminate.
    + rewrite IH. split.
      * intros (before & after & -> & Hp & Hb).
        exists (q :: before), after. simpl; repeat split; auto.
        intros x [<-|Hx]; auto.
      * intros (before & after & Heq & Hp & Hb).
        destruct before as [|x before]; simpl in Heq; inversion Heq; subst.
        -- congruence.
        -- exists before, after; repeat split; auto.
           intros y Hy; apply Hb; simpl; auto.
Qed.

Lemma get_task_status_fetched (e : env) (w : world) (tasks : list task) :
  tasks_handed_back e = AsList ->
  get_tasks_for_project e w (ASANA_PROJECT_ID e) status_fields = Ret tasks ->
  get_task_status e w =
  (Ret (Some (summarize (IMPLEMENTATION_PHASES e) (date_after e w 0) tasks)), w).
Proof.
  intros K F.
  unfold get_task_status, try_except, bind, call_get_tasks, now_strftime.
  rewrite K, F. reflexivity.
Qed.

Lemma get_task_status_inv (e : env) (w w' : world) (st : status) :
  get_task_status e w = (Ret (Some st), w') ->
  exists tasks,
    st = summarize (IMPLEMENTATION_PHASES e) (date_after e w 0) tasks.
Proof.
  unfold get_task_status, try_except, bind, call_get_tasks, now_strftime.
  destruct (tasks_handed_back e);
    destruct (get_tasks_for_project e w (ASANA_PROJECT_ID e) status_fields)
      as [tasks|ex]; simpl; try discriminate.
  intros [= <- _]. now exists tasks.
Qed.

(** A returned status comes from a list handed back by the call. *)
Lemma get_task_status_returned (e : env) (w w' : world) (st : status) :
  get_task_status e w = (Ret (Some st), w') ->
  tasks_handed_back e = AsList
  /\ w' = w
  /\ exists tasks,
       get_tasks_for_project e w (ASANA_PROJECT_ID e) status_fields
       = Ret tasks
       /\ st = summarize (IMPLEMENTATION_PHASES e) (date_after e w 0) tasks.
Proof.
  unfold get_task_status, try_except, bind, call_get_tasks, now_strftime.
  destruct (tasks_handed_back e);
    destruct (get_tasks_for_project e w (ASANA_PROJECT_ID e) status_fields)
      as [tasks|ex]; simpl; try discriminate.
  intros [= <- <-]. repeat split. now exists tasks.
Qed.

(** On a generator [len] raises before the service is asked, and the
    handler turns the error into [None]. *)
Lemma get_task_status_generator (e : env) (w : world) :
  tasks_handed_back e = AsGenerator ->
  get_task_status e w
  = (Ret None,
     Printed (lit "Error getting task status: object of type 'generator' has no len()")
     :: w).
Proof.
  intros K.
  unfold get_task_status, try_except, bind, call_get_tasks, now_strftime.
  rewrite K. reflexivity.
Qed.

Lemma in_phase_first (phase_nums : list str) (k : str) (t : task) :
  in_phase phase_nums k t = true <->
  first_phase phase_nums (get_or (name t) []) = Some k.
Proof.
  unfold in_phase.
  destruct (first_phase phase_nums (get_or (name t) [])) as [p|].
  - rewrite str_eqb_eq. split; congruence.
  - split; discriminate.
Qed.

(** C1 (the code departs from it). [get_task_status] takes [len] of what
    the call handed back.  The client of the module hands back a
    generator, on which [len] raises; the error is caught by the handler
    of the function, so the call reports the error and returns [None]
    whatever the project holds, and no total, completed count or
    percentage is ever returned: not for ten tasks of which four are
    completed, and not for a project without tasks. *)
Theorem status_totals_never_returned (e : env) (w : world) :
  tasks_handed_back e = AsGenerator ->
  get_task_status e w
  = (Ret None,
     Printed (lit "Error getting task status: object of type 'generator' has no len()")
     :: w)
  /\ forall st w', get_task_status e w <> (Ret (Some st), w').
Proof.
  intros K. rewrite (get_task_status_generator e w K).
  split; [reflexivity | discriminate].
Qed.

Lemma status_totals_never_returned_witness :
  get_tasks_for_project client_status_env []
    (ASANA_PROJECT_ID client_status_env) status_fields = Ret ten_tasks
  /\ count_if is_completed ten_tasks = 4
  /\ get_task_status client_status_env []
     = (Ret None,
        [Printed (lit "Error getting task status: object of type 'generator' has no len()")])
  /\ forall st w', get_task_status client_status_env [] <> (Ret (Some st), w').
Proof.
  split; [reflexivity|]. split; [reflexivity|].
  exact (status_totals_never_returned client_status_env [] eq_refl).
Defined.

(** C6 (the code departs from it). A task of the project whose name
    carries the marker of a known phase is placed in no bucket: with the
    generator that the client of the module hands back, [get_task_status]
    fails on [len] before the loop over the tasks is reached, and returns
    [None] in place of a status. *)
Theorem phase_buckets_never_filled (e : env) (w : world) (tasks : list task)
    (t : task) (k : str) :
  tasks_handed_back e = AsGenerator ->
  get_tasks_for_project e w (ASANA_PROJECT_ID e) status_fields = Ret tasks ->
  In t tasks ->
  in_phase (Dict.keys (IMPLEMENTATION_PHASES e)) k t = true ->
  fst (get_task_status e w) = Ret None
  /\ forall st w',
       get_task_status e w = (Ret (Some st), w') ->
       Dict.mem k (st_phases st) = true -> False.
Proof.
  intros K _ _ _. rewrite (get_task_status_generator e w K).
  split; [reflexivity | discriminate].
Qed.

Lemma phase_buckets_never_filled_witness :
  fst (get_task_status client_status_env []) = Ret None
  /\ forall st w',
       get_task_status client_status_env [] = (Ret (Some st), w') ->
       Dict.mem (lit "2") (st_phases st) = true -> False.
Proof.
  apply (phase_buckets_never_filled client_status_env [] ten_tasks
           (sample_task "3" "PHASE 2: schema" true []) (lit "2"));
    [reflexivity | reflexivity | | reflexivity].
  right. right. left. reflexivity.
Defined.

(** C10. In every status that [get_task_status] returns, each bucket of
    the phases mapping has a total of at least one and a completed count
    between zero and that total, and carries a float percentage whose
    value lies between 0 and 100. *)
Theorem phase_buckets_well_formed (e : env) (w w' : world) (st : status)
    (k : str) (b : bucket) :
  get_task_status e w = (Ret (Some st), w') ->
  In (k, b) (st_phases st) ->
  1 <= b_total b
  /\ 0 <= b_completed b <= b_total b
  /\ exists x,
       b_percentage b = Some (PyFloat x)
       /\ x = round1 (mul_Z (int_truediv (b_completed b) (b_total b)) 100)
       /\ (0 <= to_Q x <= 100)%Q.
Proof.
  intros R Hin. destruct (get_task_status_inv _ _ _ _ R) as (tasks & ->).
  cbn [st_phases summarize] in Hin.
  unfold Dict.map_values in Hin. apply in_map_iff in Hin.
  destruct Hin as ([k0 b0] & E & Hin). simpl in E. inversion E; subst k b.
  pose proof (counted_group_by_phase
                (Dict.keys (IMPLEMENTATION_PHASES e)) tasks Dict.empty
                (Forall_nil _)) as C.
  rewrite Forall_forall in C. destruct (C _ Hin) as (C1 & C2 & _).
  simpl in C1, C2. cbn [with_percentage b_total b_completed b_percentage].
  repeat split; try lia.
  unfold percentage_of.
  replace (0 <? b_total b0) with true by (symmetry; apply Z.ltb_lt; lia).
  eexists; repeat split.
  - apply (Binary64Facts.bounded_to_Q _ 100).
    apply Binary64Facts.percentage_bounded; lia.
  - apply (Binary64Facts.bounded_to_Q _ 100).
    apply Binary64Facts.percentage_bounded; lia.
Qed.

Lemma phase_buckets_well_formed_witness :
  1 <= 4 /\ 0 <= 1 <= 4
  /\ exists x,
       Some (percentage_of 1 4) = Some (PyFloat x)
       /\ x = round1 (mul_Z (int_truediv 1 4) 100)
       /\ (0 <= to_Q x <= 100)%Q.
Proof.
  exact (phase_buckets_well_formed sample_status_env [] []
           (summarize (IMPLEMENTATION_PHASES sample_status_env)
              (lit "2024-05-01") ten_tasks)
           (lit "2")
           {| b_total := 4; b_completed := 1;
              b_percentage := Some (percentage_of 1 4) |}
           eq_refl (or_intror (or_introl eq_refl))).
Defined.

(** A phase with five tasks, three of them completed, shows 60.0. *)
Example percentage_three_of_five : percentage_of 3 5 = PyFloat (of_Z 60).
Proof. reflexivity. Qed.

(** ** The phase parser *)

Lemma span_split (f : ascii -> bool) (s a b : str) :
  span f s = (a, b) ->
  s = a ++ b /\ forallb f a = true
  /\ match b with [] => True | c :: _ => f c = false end.
Proof.
  revert a b. induction s as [|c s IH]; simpl; intros a b.
  - intros [= <- <-]. auto.
  - destruct (f c) eqn:F.
    + destruct (span f s) as [a' b'] eqn:S. intros [= <- <-].
      destruct (IH _ _ eq_refl) as (-> & Fa & Fb).
      simpl. rewrite F. auto.
    + intros [= <- <-]. simpl. auto.
Qed.

Lemma span_exact (f : ascii -> bool) (a b : str) :
  forallb f a = true ->
  match b with [] => True | c :: _ => f c = false end ->
  span f (a ++ b) = (a, b).
Proof.
  intros Fa Fb. induction a as [|c a IH].
  - destruct b as [|c b]; cbn [app span]; auto. now rewrite Fb.
  - cbn [forallb] in Fa. apply andb_true_iff in Fa as [Fc Fa].
    cbn [app span]. rewrite Fc, (IH Fa). reflexivity.
Qed.

Lemma startswith_app (p r : str) : startswith (p ++ r) p = true.
Proof.
  induction p as [|c p IH]; cbn [app startswith]; auto.
  now rewrite Ascii.eqb_refl.
Qed.

Lemma startswith_split (s p : str) :
  startswith s p = true -> s = p ++ skipn (length p) s.
Proof.
  revert s.
  induction p as [|c p IH]; intros [|d s];
    cbn [app startswith skipn length]; auto; try discriminate.
  rewrite andb_true_iff, Ascii.eqb_eq. intros [-> H]. f_equal. auto.
Qed.

Lemma expect_sound (p s r : str) : expect p s = Some r -> s = p ++ r.
Proof.
  unfold expect. destruct (startswith s p) eqn:E; [|discriminate].
  intros [= <-]. now apply startswith_split.
Qed.

Lemma expect_app (p r : str) : expect p (p ++ r) = Some r.
Proof.
  unfold expect. rewrite startswith_app. f_equal.
  induction p; simpl; auto.
Qed.

Lemma match_timeline_sound (s timeline rest : str) :
  match_timeline s = Some (timeline, rest) ->
  exists ws,
    s = ws ++ lparen :: timeline ++ rparen :: rest
    /\ forallb is_space ws = true
    /\ timeline <> [] /\ forallb not_rparen timeline = true.
Proof.
  unfold match_timeline.
  destruct (span is_space s) as [ws s1] eqn:S1.
  destruct s1 as [|c s2]; [discriminate|].
  destruct (Ascii.eqb c lparen) eqn:C; [|discriminate].
  apply Ascii.eqb_eq in C; subst c.
  destruct (span not_rparen s2) as [tl s3] eqn:S2.
  destruct tl as [|t tl]; [discriminate|].
  destruct s3 as [|c' rest']; [discriminate|].
  intros [= <- <-].
  destruct (span_split _ _ _ _ S1) as (-> & W & _).
  destruct (span_split _ _ _ _ S2) as (-> & T & R).
  unfold not_rparen in R. apply negb_false_iff, Ascii.eqb_eq in R; subst c'.
  exists ws. repeat split; auto. discriminate.
Qed.

Lemma match_timeline_complete (ws timeline rest : str) :
  forallb is_space ws = true ->
  timeline <> [] -> forallb not_rparen timeline = true ->
  match_timeline (ws ++ lparen :: timeline ++ rparen :: rest)
  = Some (timeline, rest).
Proof.
  intros W N T. unfold match_timeline.
  rewrite (span_exact is_space ws _ W) by reflexivity.
  rewrite Ascii.eqb_refl.
  rewrite (span_exact not_rparen timeline _ T) by reflexivity.
  destruct timeline; [contradiction|reflexivity].
Qed.

Lemma match_name_sound (s phase_name timeline rest : str) :
  match_name s = Some (phase_name, timeline, rest) ->
  exists ws,
    s = phase_name ++ ws ++ lparen :: timeline ++ rparen :: rest
    /\ forallb not_newline phase_name = true
    /\ forallb is_space ws = true
    /\ timeline <> [] /\ forallb not_rparen timeline = true.
Proof.
  revert phase_name. induction s as [|c s IH]; intros nm; cbn [match_name].
  - destruct (match_timeline []) as [[tl r]|] eqn:M; [|discriminate].
    intros [= <- <- <-].
    destruct (match_timeline_sound _ _ _ M) as (ws & E & ?).
    exists ws. simpl; auto.
  - destruct (match_timeline (c :: s)) as [[tl r]|] eqn:M.
    + intros [= <- <- <-].
      destruct (match_timeline_sound _ _ _ M) as (ws & E & ?).
      exists ws. simpl; auto.
    + destruct (Ascii.eqb c newline) eqn:C; [discriminate|].
      destruct (match_name s) as [[[nm' tl] r]|]; [|discriminate].
      intros [= <- <- <-].
      destruct (IH _ eq_refl) as (ws & -> & Hn & Hrest).
      exists ws. simpl. unfold not_newline at 1. rewrite C. simpl. auto.
Qed.

Lemma match_name_complete (phase_name ws timeline rest : str) :
  forallb not_newline phase_name = true ->
  forallb is_space ws = true ->
  timeline <> [] -> forallb not_rparen timeline = true ->
  exists phase_name' timeline' rest',
    match_name (phase_name ++ ws ++ lparen :: timeline ++ rparen :: rest)
    = Some (phase_name', timeline', rest').
Proof.
  intros Hn W N T. induction phase_name as [|c nm IH].
  - cbn [app].
    pose proof (match_timeline_complete ws timeline rest W N T) as M.
    destruct ws as [|w ws]; cbn [app] in *.
    + unfold match_name. rewrite M. eauto.
    + unfold match_name; fold match_name. rewrite M. eauto.
  - cbn [app]. unfold match_name; fold match_name.
    destruct (match_timeline _) as [[tl r]|]; [eauto|].
    simpl in Hn. apply andb_true_iff in Hn as [Hc Hn].
    unfold not_newline in Hc. apply negb_true_iff in Hc. rewrite Hc.
    destruct (IH Hn) as (nm' & tl' & r' & ->). eauto.
Qed.

Lemma match_phase_sound (s phase_num phase_name timeline rest : str) :
  match_phase s = Some (phase_num, phase_name, timeline, rest) ->
  heading phase_num phase_name timeline rest s.
Proof.
  unfold match_phase.
  destruct (expect (lit "PHASE ") s) as [s1|] eqn:E1; [|discriminate].
  destruct (span is_digit s1) as [num s2] eqn:S.
  destruct num as [|d num]; [discriminate|].
  destruct (expect (lit ": ") s2) as [s3|] eqn:E2; [|discriminate].
  destruct (match_name s3) as [[[nm tl] r]|] eqn:M; [|discriminate].
  intros [= <- <- <- <-].
  apply expect_sound in E1, E2.
  destruct (span_split _ _ _ _ S) as (E & D & _).
  destruct (match_name_sound _ _ _ _ M) as (ws & E3 & Hn & W & N & T).
  exists ws. subst. repeat split; auto. discriminate.
Qed.

Lemma match_phase_complete (s phase_num phase_name timeline rest : str) :
  heading phase_num phase_name timeline rest s ->
  exists phase_name' timeline' rest',
    match_phase s = Some (phase_num, phase_name', timeline', rest').
Proof.
  intros (ws & -> & Nn & D & Hn & W & N & T).
  unfold match_phase. rewrite expect_app.
  rewrite (span_exact is_digit phase_num _ D) by reflexivity.
  destruct phase_num as [|d num]; [contradiction|].
  rewrite expect_app.
  destruct (match_name_complete phase_name ws timeline rest Hn W N T)
    as (nm' & tl' & r' & ->).
  eauto.
Qed.

Lemma findall_from_sound (skip : nat) (s phase_num phase_name timeline : str) :
  In (phase_num, phase_name, timeline) (findall_from skip s) ->
  exists before s' rest,
    s = before ++ s'
    /\ match_phase s' = Some (phase_num, phase_name, timeline, rest).
Proof.
  revert skip. induction s as [|c s IH]; intros skip; cbn [findall_from].
  - intros [].
  - assert (Later : forall k,
      In (phase_num, phase_name, timeline) (findall_from k s) ->
      exists before s' rest,
        c :: s = before ++ s'
        /\ match_phase s' = Some (phase_num, phase_name, timeline, rest)).
    { intros k H. destruct (IH _ H) as (before & s' & rest & -> & M).
      exists (c :: before), s', rest. auto. }
    destruct skip as [|k]; [|apply Later].
    destruct (match_phase (c :: s)) as [[[[num nm] tl] rest]|] eqn:M;
      [|apply Later].
    intros [E|H]; [|exact (Later _ H)].
    inversion E; subst. exists [], (c :: s), rest. auto.
Qed.

Lemma findall_from_nil (skip : nat) (s : str) :
  (forall before s', s = before ++ s' -> match_phase s' = None) ->
  findall_from skip s = [].
Proof.
  revert skip. induction s as [|c s IH]; intros skip H; cbn [findall_from]; auto.
  assert (Hs : forall k, findall_from k s = []).
  { intros k. apply IH. intros before s' ->. apply (H (c :: before)).
    reflexivity. }
  destruct skip; auto.
  rewrite (H [] (c :: s) eq_refl). auto.
Qed.

Lemma findall_finds (s before s' : str) :
  s = before ++ s' -> match_phase s' <> None -> findall s <> [].
Proof.
  unfold findall. revert s. induction before as [|c before IH]; intros s ->.
  - cbn [app]. intros M. destruct s' as [|c s'].
    + exfalso. apply M. reflexivity.
    + cbn [findall_from].
      destruct (match_phase (c :: s')) as [[[[num nm] tl] rest]|];
        [discriminate | congruence].
  - intros M. cbn [app findall_from].
    destruct (match_phase (c :: before ++ s')) as [[[[num nm] tl] rest]|];
      [discriminate|].
    apply (IH _ eq_refl M).
Qed.

Lemma keys_set {V} (k : str) (v : V) (d : Dict.t V) :
  Dict.keys (Dict.set k v d) =
  if Dict.mem k d then Dict.keys d else Dict.keys d ++ [k].
Proof.
  unfold Dict.mem, Dict.keys.
  induction d as [|[k' v'] d IH]; cbn [Dict.set Dict.get map fst app]; auto.
  destruct (str_eqb k k') eqn:E; cbn [map fst]; auto.
  rewrite IH. destruct (Dict.get k d); reflexivity.
Qed.

Lemma get_None_keys {V} (k : str) (d : Dict.t V) :
  Dict.get k d = None <-> ~ In k (Dict.keys d).
Proof.
  unfold Dict.keys. induction d as [|[k' v'] d IH]; cbn [Dict.get map fst In].
  - tauto.
  - destruct (str_eqb k k') eqn:E.
    + apply str_eqb_eq in E; subst. split; [discriminate | tauto].
    + apply str_eqb_neq in E. rewrite IH. split; [intros H [?|?]|]; intuition.
Qed.

Lemma NoDup_keys_set {V} (k : str) (v : V) (d : Dict.t V) :
  NoDup (Dict.keys d) -> NoDup (Dict.keys (Dict.set k v d)).
Proof.
  intros N. rewrite keys_set. unfold Dict.mem.
  destruct (Dict.get k d) eqn:G; auto.
  apply get_None_keys in G.
  apply NoDup_app; repeat split; auto.
  - constructor; [intros []|constructor].
  - intros x Hx [<-|[]]. contradiction.
Qed.

Lemma NoDup_keys_store (matches : list (str * str * str))
    (phases : Dict.t phase) :
  NoDup (Dict.keys phases) -> NoDup (Dict.keys (store_phases matches phases)).
Proof.
  revert phases.
  induction matches as [|[[num nm] tl] rest IH]; intros phases N;
    cbn [store_phases]; auto.
  apply IH, NoDup_keys_set, N.
Qed.

Lemma get_store_phases (k : str) (matches : list (str * str * str))
    (phases : Dict.t phase) :
  Dict.get k (store_phases matches phases) =
  match last_match k matches with
  | Some (phase_name, timeline) => Some (phase_of_match phase_name timeline)
  | None => Dict.get k phases
  end.
Proof.
  revert phases.
  induction matches as [|[[num nm] tl] rest IH]; intros phases;
    cbn [store_phases last_match]; auto.
  rewrite IH. destruct (last_match k rest) as [[nm' tl']|]; auto.
  destruct (str_eqb k num) eqn:E.
  - apply str_eqb_eq in E; subst. apply DictFacts.get_set_same.
  - apply str_eqb_neq in E. now apply DictFacts.get_set_other.
Qed.

Lemma last_match_In (k phase_name timeline : str)
    (matches : list (str * str * str)) :
  last_match k matches = Some (phase_name, timeline) ->
  In (k, phase_name, timeline) matches.
Proof.
  induction matches as [|[[num nm] tl] rest IH]; cbn [last_match In];
    [discriminate|].
  destruct (last_match k rest) as [m|].
  - intros [= ->]. auto.
  - destruct (str_eqb k num) eqn:E; [|discriminate].
    apply str_eqb_eq in E; subst. intros [= -> ->]. auto.
Qed.

Lemma In_last_match (k phase_name timeline : str)
    (matches : list (str * str * str)) :
  In (k, phase_name, timeline) matches -> last_match k matches <> None.
Proof.
  induction matches as [|[[num nm] tl] rest IH]; cbn [last_match In];
    [tauto|].
  intros [E|H].
  - inversion E; subst. rewrite str_eqb_refl.
    destruct (last_match k rest); discriminate.
  - destruct (last_match k rest); [discriminate|]. tauto.
Qed.

(** *** The scan of the code against the scan of the specification *)

Lemma match_name_shortest (phase_name ws timeline rest : str) :
  forallb not_newline phase_name = true ->
  forallb is_space ws = true ->
  timeline <> [] -> forallb not_rparen timeline = true ->
  exists phase_name' timeline' rest',
    match_name (phase_name ++ ws ++ lparen :: timeline ++ rparen :: rest)
    = Some (phase_name', timeline', rest')
    /\ (length phase_name' <= length phase_name)%nat.
Proof.
  intros Hn W N T. induction phase_name as [|c nm IH].
  - cbn [app].
    pose proof (match_timeline_complete ws timeline rest W N T) as M.
    exists [], timeline, rest. split; [|apply Nat.le_refl].
    destruct ws as [|w ws]; cbn [app] in *.
    + unfold match_name. rewrite M. reflexivity.
    + unfold match_name; fold match_name. rewrite M. reflexivity.
  - cbn [app]. unfold match_name; fold match_name.
    destruct (match_timeline _) as [[tl r]|].
    + exists [], tl, r. split; [reflexivity | apply Nat.le_0_l].
    + cbn [forallb] in Hn. apply andb_true_iff in Hn as [Hc Hn].
      unfold not_newline in Hc. apply negb_true_iff in Hc. rewrite Hc.
      destruct (IH Hn) as (nm' & tl' & r' & -> & L).
      exists (c :: nm'), tl', r'. split; [reflexivity|].
      cbn [length]. now apply le_n_S.
Qed.

Lemma match_phase_shortest (s phase_num phase_name timeline rest : str) :
  heading phase_num phase_name timeline rest s ->
  exists phase_name' timeline' rest',
    match_phase s = Some (phase_num, phase_name', timeline', rest')
    /\ (length phase_name' <= length phase_name)%nat.
Proof.
  intros (ws & -> & Nn & D & Hn & W & N & T).
  unfold match_phase. rewrite expect_app.
  rewrite (span_exact is_digit phase_num _ D) by reflexivity.
  destruct phase_num as [|d num]; [contradiction|].
  rewrite expect_app.
  destruct (match_name_shortest phase_name ws timeline rest Hn W N T)
    as (nm' & tl' & r' & -> & L).
  eauto.
Qed.

Lemma app_same_length {A} (a b x y : list A) :
  a ++ x = b ++ y -> length a = length b -> a = b /\ x = y.
Proof.
  revert b. induction a as [|c a IH]; intros [|d b]; cbn [app length];
    try discriminate; auto.
  intros [= -> E] [= L]. destruct (IH _ E L) as [-> ->]. auto.
Qed.

Lemma span_unique (f : ascii -> bool) (a a' : str) (c c' : ascii)
    (r r' : str) :
  forallb f a = true -> forallb f a' = true ->
  f c = false -> f c' = false ->
  a ++ c :: r = a' ++ c' :: r' -> a = a' /\ c :: r = c' :: r'.
Proof.
  intros Fa Fa' Fc Fc' E.
  pose proof (span_exact f a (c :: r) Fa Fc) as S.
  rewrite E, (span_exact f a' (c' :: r') Fa' Fc') in S.
  now inversion S.
Qed.

(** Two headings at the head of the same string whose names are equally
    long are the same heading. *)
Lemma heading_unique (s k n t r k' n' t' r' : str) :
  heading k n t r s -> heading k' n' t' r' s ->
  length n = length n' ->
  k = k' /\ n = n' /\ t = t' /\ r = r'.
Proof.
  intros (ws & -> & _ & D & _ & W & _ & T)
         (ws' & E & _ & D' & _ & W' & _ & T') L.
  apply app_inv_head in E.
  apply (span_unique is_digit) in E; auto. destruct E as [<- E].
  change (lit ": " ++ n ++ ws ++ lparen :: t ++ rparen :: r
          = lit ": " ++ n' ++ ws' ++ lparen :: t' ++ rparen :: r') in E.
  apply app_inv_head in E.
  apply app_same_length in E; auto. destruct E as [<- E].
  apply (span_unique is_space) in E; auto. destruct E as [<- E].
  injection E as E.
  apply (span_unique not_rparen) in E; auto.
  destruct E as [<- E]. injection E as <-. auto.
Qed.

(** The match the code finds at a position is the match of the pattern
    there, and conversely. *)
Lemma match_phase_pattern (s phase_num phase_name timeline rest : str) :
  match_phase s = Some (phase_num, phase_name, timeline, rest) <->
  pattern_match phase_num phase_name timeline rest s.
Proof.
  split.
  - intros M. split; [now apply match_phase_sound|].
    intros k' n' t' r' H.
    destruct (match_phase_shortest _ _ _ _ _ H) as (n2 & t2 & r2 & M2 & L).
    rewrite M in M2. now inversion M2; subst.
  - intros [H Min].
    destruct (match_phase_shortest _ _ _ _ _ H) as (n2 & t2 & r2 & M2 & L).
    pose proof (match_phase_sound _ _ _ _ _ M2) as H2.
    pose proof (Min _ _ _ _ H2) as L2.
    destruct (heading_unique _ _ _ _ _ _ _ _ _ H H2) as (_ & <- & <- & <-);
      [now apply Nat.le_antisymm | exact M2].
Qed.

Lemma match_phase_heading_at (s : str) :
  match_phase s <> None <-> heading_at s.
Proof.
  split.
  - destruct (match_phase s) as [[[[k n] t] r]|] eqn:M; [|congruence].
    intros _. exists k, n, t, r. now apply match_phase_sound.
  - intros (k & n & t & r & H).
    destruct (match_phase_complete _ _ _ _ _ H) as (n' & t' & r' & ->).
    discriminate.
Qed.

Lemma findall_from_skip (a s : str) :
  findall_from (length a) (a ++ s) = findall_from 0 s.
Proof.
  induction a as [|c a IH]; [reflexivity|].
  cbn [length app]. destruct s as [|d s].
  - rewrite app_nil_r. cbn [findall_from]. clear IH.
    induction a as [|x a IHa]; [reflexivity|]. exact IHa.
  - exact IH.
Qed.

Lemma findall_none (c : ascii) (s : str) :
  match_phase (c :: s) = None -> findall (c :: s) = findall s.
Proof. unfold findall. cbn [findall_from]. now intros ->. Qed.

Lemma findall_some (s phase_num phase_name timeline rest : str) :
  match_phase s = Some (phase_num, phase_name, timeline, rest) ->
  findall s = (phase_num, phase_name, timeline) :: findall rest
  /\ (length rest < length s)%nat.
Proof.
  intros M.
  assert (X : exists c consumed, s = c :: consumed ++ rest).
  { destruct (match_phase_sound _ _ _ _ _ M) as (ws & E & _).
    exists "P"%char,
      (lit "HASE " ++ phase_num ++ lit ": " ++ phase_name ++ ws
       ++ lparen :: timeline ++ [rparen]).
    rewrite E. change (lit "PHASE ") with ("P"%char :: lit "HASE ").
    cbn [app]. f_equal.
    repeat (rewrite <- ?app_assoc; cbn [app]). reflexivity. }
  destruct X as (c & consumed & ->). split.
  - unfold findall. cbn [findall_from]. rewrite M.
    f_equal. rewrite length_app.
    replace (length consumed + length rest - length rest)%nat
      with (length consumed) by lia.
    apply findall_from_skip.
  - cbn [length]. rewrite length_app. lia.
Qed.

Lemma scan_shift (c : ascii) (s : str) (matches : list (str * str * str)) :
  ~ heading_at (c :: s) -> scan s matches -> scan (c :: s) matches.
Proof.
  intros N S. revert N.
  destruct S as [s H|before s k n t rest ms H P R]; intros N.
  - apply scan_end. intros [|d before] s' E.
    + cbn [app] in E. now subst s'.
    + injection E as <- E. now apply (H before).
  - apply (scan_match (c :: before) s k n t rest ms); auto.
    intros [|d b1] b2 E Nb.
    + cbn [app] in E. subst b2. exact N.
    + injection E as <- E. now apply (H b1).
Qed.

Lemma findall_scan_bounded (n : nat) (s : str) :
  (length s <= n)%nat -> scan s (findall s).
Proof.
  revert s. induction n as [|n IH]; intros s L.
  - destruct s; [|cbn [length] in L; lia].
    apply scan_end. intros before s' E.
    symmetry in E. apply app_eq_nil in E as [_ ->].
    intros (k & nm & t & r & ws & E & _). discriminate E.
  - destruct s as [|c s'].
    { apply scan_end. intros before s' E.
      symmetry in E. apply app_eq_nil in E as [_ ->].
      intros (k & nm & t & r & ws & E & _). discriminate E. }
    destruct (match_phase (c :: s')) as [[[[k nm] t] rest]|] eqn:M.
    + destruct (findall_some _ _ _ _ _ M) as [-> Lr].
      apply (scan_match [] (c :: s') k nm t rest (findall rest)).
      * intros b1 b2 E Nb. symmetry in E. apply app_eq_nil in E as [_ ->].
        contradiction.
      * now apply match_phase_pattern.
      * apply IH. cbn [length] in L, Lr. lia.
    + rewrite (findall_none _ _ M). apply scan_shift.
      * intros H. apply match_phase_heading_at in H. contradiction.
      * apply IH. cbn [length] in L. lia.
Qed.

Lemma findall_scan (s : str) : scan s (findall s).
Proof. apply (findall_scan_bounded (length s)). apply Nat.le_refl. Qed.

Lemma findall_before (before s : str) :
  (forall b1 b2, before = b1 ++ b2 -> b2 <> [] -> ~ heading_at (b2 ++ s)) ->
  findall (before ++ s) = findall s.
Proof.
  induction before as [|c b IH]; intros H; [reflexivity|].
  cbn [app]. rewrite findall_none.
  - apply IH. intros b1 b2 E. apply (H (c :: b1)). now rewrite E.
  - destruct (match_phase (c :: b ++ s)) eqn:M; [|reflexivity].
    exfalso. apply (H [] (c :: b) eq_refl); [discriminate|].
    apply match_phase_heading_at. cbn [app]. congruence.
Qed.

Lemma scan_unique (s : str) (matches : list (str * str * str)) :
  scan s matches -> matches = findall s.
Proof.
  induction 1 as [s H|before s k n t rest ms H P R IH].
  - symmetry. apply findall_from_nil. intros before s' E.
    destruct (match_phase s') eqn:M; [|reflexivity].
    exfalso. apply (H before s' E). apply match_phase_heading_at. congruence.
  - rewrite (findall_before _ _ H).
    apply match_phase_pattern in P.
    destruct (findall_some _ _ _ _ _ P) as [-> _]. now rewrite IH.
Qed.

(** C2 (corrected). The parsed mapping is that of the scan of the blob for
    [PHASE <number>: <name> (<timeline>)], from left to right and
    resuming where a match ended: there is exactly one list of matches of
    this scan, and the mapping has one record per number captured in it,
    under pairwise distinct keys; the record of a number comes from the
    last match that captured it, with display name [<name> (<timeline>)]
    and empty description, key activities and deliverables; every match
    is the match of the pattern at some position of the blob, and the
    mapping is empty exactly when no heading stands anywhere in the
    blob. *)
Theorem parse_phases_records (blob : str) :
  let phases := parse_phases blob in
  exists matches,
    scan blob matches
    /\ (forall matches', scan blob matches' -> matches' = matches)
    /\ NoDup (Dict.keys phases)
    /\ (forall k,
          Dict.get k phases =
          match last_match k matches with
          | Some (phase_name, timeline) =>
              Some {| ph_name := phase_name ++ lit " (" ++ timeline ++ lit ")";
                      ph_description := [];
                      ph_key_activities := [];
                      ph_deliverables := [] |}
          | None => None
          end)
    /\ (forall k,
          Dict.mem k phases = true <->
          exists phase_name timeline, In (k, phase_name, timeline) matches)
    /\ (forall k phase_name timeline,
          last_match k matches = Some (phase_name, timeline) ->
          In (k, phase_name, timeline) matches)
    /\ (forall k phase_name timeline,
          In (k, phase_name, timeline) matches ->
          exists before s rest,
            blob = before ++ s /\ pattern_match k phase_name timeline rest s)
    /\ (phases = Dict.empty <->
        forall before s, blob = before ++ s -> ~ heading_at s).
Proof.
  intros phases. exists (findall blob).
  set (matches := findall blob).
  assert (G : forall k,
    Dict.get k phases =
    match last_match k matches with
    | Some (phase_name, timeline) => Some (phase_of_match phase_name timeline)
    | None => None
    end).
  { intros k. unfold phases, parse_phases. rewrite get_store_phases.
    reflexivity. }
  repeat apply conj.
  - apply findall_scan.
  - intros ms. apply scan_unique.
  - apply NoDup_keys_store. constructor.
  - exact G.
  - intros k. unfold Dict.mem. rewrite G. split.
    + destruct (last_match k matches) as [[nm tl]|] eqn:L; [|discriminate].
      intros _. exists nm, tl. now apply last_match_In.
    + intros (nm & tl & H). apply In_last_match in H.
      destruct (last_match k matches) as [[nm' tl']|]; congruence.
  - intros k nm tl. apply last_match_In.
  - intros k nm tl H.
    destruct (findall_from_sound _ _ _ _ _ H) as (before & s & rest & E & M).
    exists before, s, rest. split; auto. now apply match_phase_pattern.
  - intros E before s Hs Hh.
    apply match_phase_heading_at in Hh.
    assert (F : findall blob <> []) by (apply (findall_finds blob before s Hs Hh)).
    fold matches in F. destruct matches as [|[[num nm0] tl0] rest0] eqn:Em;
      [congruence|].
    assert (Hin : In (num, nm0, tl0) (findall blob))
      by (fold matches; rewrite Em; simpl; auto).
    apply In_last_match in Hin. fold matches in Hin. rewrite Em in Hin.
    specialize (G num). rewrite E in G. cbn [Dict.get Dict.empty] in G.
    destruct (last_match num ((num, nm0, tl0) :: rest0)) as [[a b]|];
      [discriminate | congruence].
  - intros H. unfold phases, parse_phases.
    replace (findall blob) with (@nil (str * str * str)); [reflexivity|].
    symmetry. apply findall_from_nil. intros before s Hs.
    destruct (match_phase s) as [[[[num nm] tl] rest]|] eqn:M; auto.
    exfalso. apply (H before s Hs). apply match_phase_heading_at. congruence.
Qed.

(** The claim as worded fails on a heading that lies inside the name of
    another one: the blob below holds the heading [PHASE 2: x (t)], and
    the mapping has no record for [2]. *)
Lemma nested_heading_counterexample :
  exists blob before s,
    blob = before ++ s
    /\ heading (lit "2") (lit "x") (lit "t") [] s
    /\ Dict.get (lit "2") (parse_phases blob) = None
    /\ Dict.keys (parse_phases blob) = [lit "1"].
Proof.
  exists (lit "PHASE 1: PHASE 2: x (t)"), (lit "PHASE 1: "),
    (lit "PHASE 2: x (t)").
  split; [reflexivity|]. split; [|split; reflexivity].
  exists (lit " "). repeat split; try reflexivity; discriminate.
Qed.

Example parse_phases_sample :
  map (fun kv => (fst kv, ph_name (snd kv))) (parse_phases sample_knowledge)
  = [ (lit "1", lit "Discovery again (Week 7)");
      (lit "2", lit "Build (Weeks 3-6)") ].
Proof. reflexivity. Qed.

(** The scan resumes after a match, so a heading lying inside the name of
    another one is not a match of its own. *)
Example findall_nested :
  findall (lit "PHASE 1: PHASE 2: x (t)") = [(lit "1", lit "PHASE 2: x", lit "t")].
Proof. reflexivity. Qed.

(** ** The advisory query and the enrichment batch *)

Lemma ask_question_outcome (e : env) (model question : str) (w : world) :
  let w1 := Printed (lit "Asking AI expert: " ++ question) :: w in
  exists w',
    ask_question e model question w =
    (Ret match post_chat_completions e w1 (ask_data e model question) with
         | Ret response =>
             if status_code response =? 200 then
               match message_content response with
               | Ret content => Some (strip content)
               | Raise _ => None
               end
             else None
         | Raise _ => None
         end, w').
Proof.
  intros w1. unfold ask_question. unfold_M. fold w1.
  destruct (post_chat_completions e w1 (ask_data e model question))
    as [response|ex].
  - destruct (status_code response =? 200).
    + destruct (message_content response) as [content|ex].
      * eexists; reflexivity.
      * destruct (str_in (lit "Connection") (str_of_exn ex));
          [|destruct (str_in (lit "SSLError") (str_of_exn ex))];
          eexists; reflexivity.
    + destruct (status_code response =? 401);
        [|destruct (status_code response =? 429);
          [|destruct (status_code response =? 500)]];
        eexists; reflexivity.
  - destruct (str_in (lit "Connection") (str_of_exn ex));
      [|destruct (str_in (lit "SSLError") (str_of_exn ex))];
      eexists; reflexivity.
Qed.

Section Iteration.

Variable e : env.
Variables model path_content : str.
Variable n_tasks : Z.

(** What one iteration of the enrichment loop can do. *)
Lemma enrich_task_cases (i : Z) (t : task) (r : results) (w : world) :
  exists r' w' new_patches new_posts,
    enrich_task e model path_content n_tasks i t r w = (Ret r', w')
    /\ patch_calls w' = patch_calls w ++ new_patches
    /\ post_calls w' = post_calls w ++ new_posts
    /\ skipped r' + updated r' + failed r'
       = skipped r + updated r + failed r + 1
    /\ (forall c, In c new_patches ->
          fst c = gid t /\ already_enriched (get_or (notes t) []) = false)
    /\ (already_enriched (get_or (notes t) []) = true ->
          r' = incr_skipped r /\ new_patches = [] /\ new_posts = [])
    /\ (already_enriched (get_or (notes t) []) = false ->
        provider_fails
          (post_chat_completions e (at_enrich_call n_tasks i t w)
             (enrich_data model (get_or (name t) (lit "Unnamed task"))
                path_content)) ->
          failed r' = failed r + 1 /\ updated r' = updated r
          /\ skipped r' = skipped r /\ new_patches = []).
Proof.
  unfold enrich_task, at_enrich_call, provider_fails. unfold_M.
  destruct (already_enriched (get_or (notes t) [])) eqn:A.
  { exists (incr_skipped r). eexists. exists [], [].
    settle_iteration. repeat apply conj; auto; try discriminate.
    - simpl; lia.
    - intros c0 []. }
  match goal with
  | |- context [post_chat_completions e ?w1 ?d] =>
      destruct (post_chat_completions e w1 d) as [response|ex] eqn:P
  end.
  2:{ exists (incr_failed r). eexists. exists []. eexists.
      settle_iteration. repeat apply conj; auto; try discriminate.
      - simpl; lia.
      - intros c0 []. }
  destruct (status_code response =? 200) eqn:S.
  2:{ exists (incr_processed (incr_failed r)). eexists. exists []. eexists.
      settle_iteration. repeat apply conj; auto; try discriminate.
      - simpl; lia.
      - intros c0 []. }
  apply Z.eqb_eq in S.
  destruct (message_content response) as [content|ex] eqn:C.
  2:{ exists (incr_failed r). eexists. exists []. eexists.
      settle_iteration. repeat apply conj; auto; try discriminate.
      - simpl; lia.
      - intros c0 []. }
  match goal with
  | |- context [tasks_update_task e ?w1 ?id ?d] =>
      destruct (tasks_update_task e w1 id d) as [[]|ex] eqn:U
  end.
  - exists (incr_processed (incr_updated r)). do 3 eexists.
    settle_iteration. repeat apply conj; auto; try discriminate.
    + simpl; lia.
    + intros c0 [<-|[]]. auto.
    + intros _ N; contradiction.
  - exists (incr_failed r). do 3 eexists.
    settle_iteration. repeat apply conj; auto; try discriminate.
    + simpl; lia.
    + intros c0 [<-|[]]. auto.
    + intros _ N; contradiction.
Qed.

Lemma len_cons {A} (x : A) (l : list A) : len (x :: l) = len l + 1.
Proof. unfold len. simpl length. lia. Qed.

Lemma enrich_loop_outcome (tasks : list task) (i : Z) (r : results)
    (w : world) :
  exists r' w' new_patches new_posts,
    enrich_loop e model path_content n_tasks i tasks r w = (Ret r', w')
    /\ patch_calls w' = patch_calls w ++ new_patches
    /\ post_calls w' = post_calls w ++ new_posts
    /\ skipped r' + updated r' + failed r'
       = skipped r + updated r + failed r + len tasks
    /\ (forall c, In c new_patches ->
          exists t, In t tasks /\ fst c = gid t
                    /\ already_enriched (get_or (notes t) []) = false)
    /\ (Forall (fun t => already_enriched (get_or (notes t) []) = true) tasks ->
          skipped r' = skipped r + len tasks /\ updated r' = updated r
          /\ failed r' = failed r /\ processed r' = processed r
          /\ new_patches = [] /\ new_posts = []).
Proof.
  revert i r w. induction tasks as [|t rest IH]; intros i r w.
  - exists r, w, [], []. cbn [enrich_loop]. unfold ret.
    rewrite !app_nil_r.
    split; [reflexivity|]. split; [reflexivity|]. split; [reflexivity|].
    split; [unfold len; simpl; lia|]. split; [intros c []|].
    intros _. unfold len; simpl. repeat split; auto; lia.
  - destruct (enrich_task_cases i t r w)
      as (r1 & w1 & p1 & q1 & R1 & P1 & Q1 & S1 & G1 & K1 & _).
    destruct (IH (i + 1) r1 w1)
      as (r2 & w2 & p2 & q2 & R2 & P2 & Q2 & S2 & G2 & K2).
    exists r2, w2, (p1 ++ p2), (q1 ++ q2).
    cbn [enrich_loop]. unfold bind. rewrite R1, R2.
    rewrite P2, P1, Q2, Q1, !app_assoc, len_cons.
    split; [reflexivity|]. split; [reflexivity|]. split; [reflexivity|].
    split; [lia|]. split.
    + intros c Hc. apply in_app_or in Hc as [Hc|Hc].
      * destruct (G1 c Hc). exists t. simpl; auto.
      * destruct (G2 c Hc) as (t' & ? & ?). exists t'. simpl; auto.
    + intros F. inversion F as [|? ? Ft Frest]; subst.
      destruct (K1 Ft) as (-> & -> & ->).
      destruct (K2 Frest) as (E1 & E2 & E3 & E4 & -> & ->).
      cbn [incr_skipped skipped updated failed processed] in *.
      repeat split; auto; lia.
Qed.

End Iteration.

(** The shape of a run of [enrich_task_descriptions] once the task list
    is fetched: the loop runs over the selected tasks from zeroed
    counters, the summary is printed, and [None] is handed back. *)
Lemma enrich_run (e : env) (model : str) (limit : option Z) (w : world)
    (tasks : list task) :
  (forall w0,
     get_tasks_for_project e w0 (ASANA_PROJECT_ID e) enrich_fields
     = Ret tasks) ->
  let selected := select_tasks limit tasks in
  exists path_content w1 r w2,
    enrich_loop e model path_content (len selected) 0 selected no_results w1
    = (Ret r, w2)
    /\ patch_calls w1 = patch_calls w /\ post_calls w1 = post_calls w
    /\ enrich_task_descriptions e model limit w
       = (Ret None, summary_events r ++ w2).
Proof.
  intros F selected.
  unfold enrich_task_descriptions, print_summary, fetch_tasks. unfold_M.
  match goal with
  | |- context [read_path_txt e ?w0] =>
      destruct (read_path_txt e w0) as [content|ex]
  end; rewrite F; fold selected.
  - match goal with
    | |- context [enrich_loop e model ?pc ?n ?i ?l ?r0 ?w1] =>
        destruct (enrich_loop_outcome e model pc n l i r0 w1)
          as (r & w2 & ? & ? & R & _);
        exists pc, w1, r, w2
    end.
    split; [exact R|]. rewrite R. repeat split.
  - match goal with
    | |- context [enrich_loop e model ?pc ?n ?i ?l ?r0 ?w1] =>
        destruct (enrich_loop_outcome e model pc n l i r0 w1)
          as (r & w2 & ? & ? & R & _);
        exists pc, w1, r, w2
    end.
    split; [exact R|]. rewrite R. repeat split.
Qed.

Lemma enrich_returns_none (e : env) (model : str) (limit : option Z)
    (w : world) :
  exists w', enrich_task_descriptions e model limit w = (Ret None, w').
Proof.
  unfold enrich_task_descriptions, print_summary, fetch_tasks. unfold_M.
  match goal with
  | |- context [read_path_txt e ?w0] =>
      destruct (read_path_txt e w0) as [content|ex]
  end;
  match goal with
  | |- context [get_tasks_for_project e ?w0 ?p ?f] =>
      destruct (get_tasks_for_project e w0 p f) as [tasks|ex']
  end;
  try (eexists; reflexivity);
  match goal with
  | |- context [enrich_loop e model ?pc ?n ?i ?l ?r0 ?w1] =>
      destruct (enrich_loop_outcome e model pc n l i r0 w1)
        as (r & w2 & ? & ? & R & _);
      rewrite R
  end; eexists; reflexivity.
Qed.

Lemma already_enriched_iff (existing_notes : str) :
  already_enriched existing_notes = true <->
  200 < len existing_notes
  /\ str_in (lit "TASK DESCRIPTION") existing_notes = true.
Proof.
  unfold already_enriched. rewrite andb_true_iff, Z.ltb_lt. tauto.
Qed.

(** The run of the batch with the counters it ends on. *)
Lemma enrich_run_counts (e : env) (model : str) (limit : option Z)
    (w : world) (tasks : list task) :
  (forall w0,
     get_tasks_for_project e w0 (ASANA_PROJECT_ID e) enrich_fields
     = Ret tasks) ->
  let selected := select_tasks limit tasks in
  exists path_content w1 r w2,
    enrich_loop e model path_content (len selected) 0 selected no_results w1
    = (Ret r, w2)
    /\ enrich_task_descriptions e model limit w
       = (Ret None, summary_events r ++ w2)
    /\ skipped r + updated r + failed r = len selected.
Proof.
  intros F selected.
  destruct (enrich_run e model limit w tasks F)
    as (pc & w1 & r & w2 & R & _ & _ & E).
  fold selected in R.
  destruct (enrich_loop_outcome e model pc (len selected) selected 0
              no_results w1) as (r' & w' & ? & ? & R' & _ & _ & S & _).
  rewrite R in R'. injection R' as <- <-.
  exists pc, w1, r, w2. repeat split; auto.
Qed.

(** C3 (amended). [enrich_task_descriptions] hands [None] to its caller
    on every path; when the task list is fetched it counts the selected
    tasks as processed, updated, skipped and failed, every selected task
    falling in exactly one of skipped, updated and failed, and prints the
    four counts as the closing summary. *)
Theorem enrich_prints_counts (e : env) (model : str) (limit : option Z)
    (w : world) :
  (exists w', enrich_task_descriptions e model limit w = (Ret None, w'))
  /\ forall tasks,
       (forall w0,
          get_tasks_for_project e w0 (ASANA_PROJECT_ID e) enrich_fields
          = Ret tasks) ->
       exists path_content w1 r w2,
         enrich_loop e model path_content (len (select_tasks limit tasks)) 0
           (select_tasks limit tasks) no_results w1 = (Ret r, w2)
         /\ enrich_task_descriptions e model limit w
            = (Ret None, summary_events r ++ w2)
         /\ skipped r + updated r + failed r
            = len (select_tasks limit tasks).
Proof.
  split.
  - apply enrich_returns_none.
  - intros tasks F. apply (enrich_run_counts e model limit w tasks F).
Qed.

Lemma enrich_prints_counts_witness :
  exists path_content w1 r w2,
    enrich_loop sample_enrich_env gpt path_content
      (len (select_tasks None open_tasks)) 0
      (select_tasks None open_tasks) no_results w1 = (Ret r, w2)
    /\ enrich_task_descriptions sample_enrich_env gpt None []
       = (Ret None, summary_events r ++ w2)
    /\ skipped r + updated r + failed r = len (select_tasks None open_tasks).
Proof.
  apply (proj2 (enrich_prints_counts sample_enrich_env gpt None [])).
  intros w0. reflexivity.
Defined.

(** C3 as stated fails: the value handed back is [None], not the
    counts. *)
Lemma enrich_returns_counts_counterexample :
  fst (enrich_task_descriptions sample_enrich_env gpt None []) = Ret None
  /\ ~ exists r,
         fst (enrich_task_descriptions sample_enrich_env gpt None [])
         = Ret (Some r).
Proof.
  assert (E : fst (enrich_task_descriptions sample_enrich_env gpt None [])
              = Ret None) by (vm_compute; reflexivity).
  split; [exact E|]. intros [r H]. rewrite E in H. discriminate.
Qed.

Lemma slice_to_pos {A} (l : list A) (n : Z) :
  0 <= n -> slice_to l n = firstn (Z.to_nat n) l.
Proof.
  intros H. unfold slice_to.
  replace (0 <=? n) with true by (symmetry; apply Z.leb_le; lia).
  reflexivity.
Qed.

(** C4 (amended). For every limit of at least one, task enrichment
    processes the first [limit] incomplete tasks in fetched order, hence
    at most [limit] of them; when the limit is unset or zero it processes
    all incomplete tasks.  In a run every selected task, and no other,
    is counted once as skipped, updated or failed. *)
Theorem select_tasks_limit (limit : option Z) (tasks : list task) :
  let incomplete := filter (fun t => negb (is_completed t)) tasks in
  (forall n, limit = Some n -> 1 <= n ->
     select_tasks limit tasks = firstn (Z.to_nat n) incomplete
     /\ len (select_tasks limit tasks) <= n)
  /\ (limit = None \/ limit = Some 0 -> select_tasks limit tasks = incomplete)
  /\ (forall e model w,
        (forall w0,
           get_tasks_for_project e w0 (ASANA_PROJECT_ID e) enrich_fields
           = Ret tasks) ->
        exists path_content w1 r w2,
          enrich_loop e model path_content (len (select_tasks limit tasks)) 0
            (select_tasks limit tasks) no_results w1 = (Ret r, w2)
          /\ enrich_task_descriptions e model limit w
             = (Ret None, summary_events r ++ w2)
          /\ skipped r + updated r + failed r
             = len (select_tasks limit tasks)).
Proof.
  intros incomplete. repeat apply conj.
  - intros n -> Hn. unfold select_tasks. fold incomplete.
    cbn [limit_set get_or].
    replace (n =? 0) with false by (symmetry; apply Z.eqb_neq; lia).
    cbn [negb]. rewrite slice_to_pos by lia. split; [reflexivity|].
    unfold len. pose proof (firstn_le_length (Z.to_nat n) incomplete). lia.
  - intros [->| ->]; reflexivity.
  - intros e model w F. apply (enrich_run_counts e model limit w tasks F).
Qed.

Lemma select_tasks_limit_witness :
  select_tasks (Some 1) open_tasks
  = firstn (Z.to_nat 1) (filter (fun t => negb (is_completed t)) open_tasks)
  /\ len (select_tasks (Some 1) open_tasks) <= 1.
Proof.
  apply (proj1 (select_tasks_limit (Some 1) open_tasks) 1 eq_refl).
  lia.
Defined.

(** C4 as stated fails at limit 0: both incomplete tasks are processed,
    and one of them is updated. *)
Lemma limit_zero_counterexample :
  len (select_tasks (Some 0) open_tasks) = 2
  /\ ~ len (select_tasks (Some 0) open_tasks) <= 0
  /\ length (patch_calls
       (snd (enrich_task_descriptions sample_enrich_env gpt (Some 0) [])))
     = 1%nat.
Proof.
  assert (E : len (select_tasks (Some 0) open_tasks) = 2) by reflexivity.
  split; [exact E|]. split; [rewrite E; lia|].
  vm_compute. reflexivity.
Qed.

(** C5. A task whose notes are longer than 200 characters and contain
    the marker takes the skip path: the iteration issues no update and no
    provider call and counts the task as skipped.  Over a whole batch
    every update issued belongs to a task that does not meet the test,
    and a batch made of already enriched tasks changes nothing. *)
Theorem enriched_task_is_skipped (e : env) (model path_content : str)
    (n_tasks : Z) :
  (forall i t r w,
     200 < len (get_or (notes t) []) ->
     str_in (lit "TASK DESCRIPTION") (get_or (notes t) []) = true ->
     exists w',
       enrich_task e model path_content n_tasks i t r w
       = (Ret (incr_skipped r), w')
       /\ patch_calls w' = patch_calls w
       /\ post_calls w' = post_calls w)
  /\ (forall tasks i r w,
        exists r' w' new_patches new_posts,
          enrich_loop e model path_content n_tasks i tasks r w = (Ret r', w')
          /\ patch_calls w' = patch_calls w ++ new_patches
          /\ post_calls w' = post_calls w ++ new_posts
          /\ (forall c, In c new_patches ->
                exists t, In t tasks /\ fst c = gid t
                  /\ ~ (200 < len (get_or (notes t) [])
                        /\ str_in (lit "TASK DESCRIPTION")
                             (get_or (notes t) []) = true))
          /\ (Forall (fun t =>
                        200 < len (get_or (notes t) [])
                        /\ str_in (lit "TASK DESCRIPTION")
                             (get_or (notes t) []) = true) tasks ->
                new_patches = [] /\ new_posts = []
                /\ skipped r' = skipped r + len tasks
                /\ updated r' = updated r /\ failed r' = failed r)).
Proof.
  split.
  - intros i t r w L Mk.
    destruct (enrich_task_cases e model path_content n_tasks i t r w)
      as (r1 & w1 & p1 & q1 & R1 & P1 & Q1 & _ & _ & K1 & _).
    destruct (K1 (proj2 (already_enriched_iff _) (conj L Mk)))
      as (-> & -> & ->).
    rewrite app_nil_r in P1, Q1. exists w1. auto.
  - intros tasks i r w.
    destruct (enrich_loop_outcome e model path_content n_tasks tasks i r w)
      as (r' & w' & p & q & R & P & Q & _ & G & K).
    exists r', w', p, q.
    split; [exact R|]. split; [exact P|]. split; [exact Q|]. split.
    + intros c Hc. destruct (G c Hc) as (t & Ht & Hg & Ha).
      exists t. repeat split; auto.
      rewrite <- already_enriched_iff. congruence.
    + intros F.
      assert (F' : Forall
                (fun t => already_enriched (get_or (notes t) []) = true) tasks).
      { eapply Forall_impl; [|exact F]. intros t. apply already_enriched_iff. }
      destruct (K F') as (? & ? & ? & ? & ? & ?). auto.
Qed.

Lemma enriched_task_is_skipped_witness :
  exists w',
    enrich_task sample_enrich_env gpt sample_knowledge 2 1
      (sample_task "12" "Review plan" false enriched_notes) no_results []
    = (Ret (incr_skipped no_results), w')
    /\ patch_calls w' = patch_calls []
    /\ post_calls w' = post_calls [].
Proof.
  apply (proj1 (enriched_task_is_skipped sample_enrich_env gpt
                  sample_knowledge 2)).
  - reflexivity.
  - reflexivity.
Defined.

(** C7. [ask_question] never raises, and returns [None] whenever the
    provider call raises or answers with a status other than 200.  In the
    enrichment loop such a failure on a task adds one to the failed count,
    leaves the updated and skipped counts as they were and issues no
    update, and neither the iteration nor the batch raises. *)
Theorem provider_failure_is_no_result (e : env) (model : str) :
  (forall question w,
     exists answer w', ask_question e model question w = (Ret answer, w'))
  /\ (forall question w,
        provider_fails
          (post_chat_completions e
             (Printed (lit "Asking AI expert: " ++ question) :: w)
             (ask_data e model question)) ->
        exists w', ask_question e model question w = (Ret None, w'))
  /\ (forall path_content n_tasks i t r w,
        already_enriched (get_or (notes t) []) = false ->
        provider_fails
          (post_chat_completions e (at_enrich_call n_tasks i t w)
             (enrich_data model (get_or (name t) (lit "Unnamed task"))
                path_content)) ->
        exists r' w',
          enrich_task e model path_content n_tasks i t r w = (Ret r', w')
          /\ failed r' = failed r + 1
          /\ updated r' = updated r
          /\ skipped r' = skipped r
          /\ patch_calls w' = patch_calls w)
  /\ (forall limit w,
        exists w', enrich_task_descriptions e model limit w = (Ret None, w')).
Proof.
  repeat apply conj.
  - intros question w.
    destruct (ask_question_outcome e model question w) as (w' & E).
    eauto.
  - intros question w F.
    destruct (ask_question_outcome e model question w) as (w' & E).
    exists w'. rewrite E. unfold provider_fails in F.
    destruct (post_chat_completions e _ _) as [response|ex]; auto.
    apply Z.eqb_neq in F. rewrite F. reflexivity.
  - intros path_content n_tasks i t r w A F.
    destruct (enrich_task_cases e model path_content n_tasks i t r w)
      as (r1 & w1 & p1 & q1 & R1 & P1 & _ & _ & _ & _ & K1).
    destruct (K1 A F) as (F1 & U1 & S1 & ->).
    rewrite app_nil_r in P1. exists r1, w1. auto.
  - intros limit w. apply enrich_returns_none.
Qed.

Lemma provider_failure_is_no_result_witness :
  exists w',
    ask_question rate_limited_env gpt (lit "What next?") [] = (Ret None, w').
Proof.
  apply (proj1 (proj2 (provider_failure_is_no_result rate_limited_env gpt))).
  vm_compute. discriminate.
Defined.

(** ** Bulk reassignment *)

Lemma find_assignee_none (users : list user) (assignee_name : str) :
  (forall u, In u users ->
     str_in (lower assignee_name) (lower (u_name u)) = false) ->
  find_assignee users assignee_name = None.
Proof.
  induction users as [|u rest IH]; intros H; cbn [find_assignee]; auto.
  rewrite (H u (or_introl eq_refl)). apply IH.
  intros u' Hu'. apply H. right; exact Hu'.
Qed.

(** C8. When the user list is fetched and no user name contains the
    assignee name, case ignored, [bulk_assign_tasks] returns the result
    with zero successes, zero failures and no task entries right after
    reporting the missing user, and issues no update. *)
Theorem bulk_assign_unknown_user (e : env) (tasks : list task)
    (assignee_name : str) (due : option str) (w : world)
    (users : list user) :
  users_find_all e w = Ret users ->
  (forall u, In u users ->
     str_in (lower assignee_name) (lower (u_name u)) = false) ->
  bulk_assign_tasks e tasks assignee_name due w
  = (Ret {| success := 0; n_failed := 0; assigned := [] |},
     Printed (lit "Could not find user: " ++ assignee_name) :: w)
  /\ patch_calls (snd (bulk_assign_tasks e tasks assignee_name due w))
     = patch_calls w.
Proof.
  intros F N.
  assert (E : bulk_assign_tasks e tasks assignee_name due w
              = (Ret {| success := 0; n_failed := 0; assigned := [] |},
                 Printed (lit "Could not find user: " ++ assignee_name) :: w)).
  { unfold bulk_assign_tasks. unfold_M. rewrite F.
    rewrite (find_assignee_none users assignee_name N). reflexivity. }
  split; [exact E|]. rewrite E. reflexivity.
Qed.

Lemma bulk_assign_unknown_user_witness :
  bulk_assign_tasks sample_users_env open_tasks (lit "carol") None []
  = (Ret {| success := 0; n_failed := 0; assigned := [] |},
     [Printed (lit "Could not find user: " ++ lit "carol")])
  /\ patch_calls
       (snd (bulk_assign_tasks sample_users_env open_tasks (lit "carol")
               None []))
     = patch_calls [].
Proof.
  apply (bulk_assign_unknown_user sample_users_env open_tasks (lit "carol")
           None [] sample_users eq_refl).
  intros u [<-|[<-|[]]]; reflexivity.
Defined.

Lemma bulk_assign_fetch_error (e : env) (tasks : list task)
    (assignee_name : str) (due : option str) (w : world) (ex : exn) :
  users_find_all e w = Raise ex ->
  bulk_assign_tasks e tasks assignee_name due w = (Raise ex, w).
Proof.
  intros F. unfold bulk_assign_tasks. unfold_M. rewrite F. reflexivity.
Qed.

Lemma get_upcoming_tasks_catches (e : env) (days : Z) (w : world) :
  exists upcoming w', get_upcoming_tasks e days w = (Ret upcoming, w').
Proof.
  unfold get_upcoming_tasks, fetch_tasks. unfold_M.
  destruct (get_tasks_for_project e w (ASANA_PROJECT_ID e) _);
    eexists; eexists; reflexivity.
Qed.

Lemma get_task_status_catches (e : env) (w : world) :
  exists st w', get_task_status e w = (Ret st, w').
Proof.
  unfold get_task_status, call_get_tasks, iterate, py_len. unfold_M.
  destruct (tasks_handed_back e);
    destruct (get_tasks_for_project e w (ASANA_PROJECT_ID e) status_fields);
    eexists; eexists; reflexivity.
Qed.

(** C9 (the code departs from it). [get_upcoming_tasks] and
    [get_task_status] turn a failed fetch into a returned value, but the
    user-list fetch of [bulk_assign_tasks] stands outside any handler:
    when it raises, the error reaches the caller and nothing is logged. *)
Theorem bulk_assign_user_fetch_raises :
  (forall e days w,
     exists upcoming w', get_upcoming_tasks e days w = (Ret upcoming, w'))
  /\ (forall e w, exists st w', get_task_status e w = (Ret st, w'))
  /\ bulk_assign_tasks failing_users_env open_tasks (lit "alice") None []
     = (Raise (Exception (lit "Connection aborted")), []).
Proof.
  split; [exact get_upcoming_tasks_catches|].
  split; [exact get_task_status_catches|].
  apply bulk_assign_fetch_error. reflexivity.
Qed.

(** ** Further properties of the status aggregation *)

Lemma count_if_le {A} (f g : A -> bool) (l : list A) :
  (forall x, f x = true -> g x = true) -> count_if f l <= count_if g l.
Proof.
  intros H. induction l as [|x l IH].
  - unfold count_if, len; simpl; lia.
  - rewrite !count_if_cons. specialize (H x).
    destruct (f x), (g x); try lia.
    all: try (discriminate H; reflexivity).
Qed.

Lemma count_if_negb {A} (f : A -> bool) (l : list A) :
  count_if (fun x => negb (f x)) l = len l - count_if f l.
Proof.
  induction l as [|x l IH].
  - unfold count_if, len; simpl; lia.
  - rewrite !count_if_cons, len_cons, IH. destruct (f x); cbn [negb]; lia.
Qed.

Lemma sum_totals_app (a b : Dict.t bucket) :
  sum_totals (a ++ b) = sum_totals a + sum_totals b.
Proof.
  induction a as [|[k v] a IH]; cbn [app sum_totals]; lia.
Qed.

Lemma sum_completed_app (a b : Dict.t bucket) :
  sum_completed (a ++ b) = sum_completed a + sum_completed b.
Proof.
  induction a as [|[k v] a IH]; cbn [app sum_completed]; lia.
Qed.

Lemma sums_update (k : str) (f : bucket -> bucket) (d : Dict.t bucket)
    (b : bucket) :
  Dict.get k d = Some b ->
  sum_totals (Dict.update k f d)
  = sum_totals d + (b_total (f b) - b_total b)
  /\ sum_completed (Dict.update k f d)
     = sum_completed d + (b_completed (f b) - b_completed b).
Proof.
  induction d as [|[k' v] d IH];
    cbn [Dict.get Dict.update sum_totals sum_completed]; [discriminate|].
  destruct (str_eqb k k').
  - intros [= ->]. cbn [sum_totals sum_completed]. lia.
  - intros G. destruct (IH G). cbn [sum_totals sum_completed]. lia.
Qed.

Lemma sums_count_in_phase (p : str) (t : task) (phases : Dict.t bucket) :
  sum_totals (count_in_phase p t phases) = sum_totals phases + 1
  /\ sum_completed (count_in_phase p t phases)
     = sum_completed phases + completed_unit t.
Proof.
  unfold count_in_phase, completed_unit, Dict.mem.
  set (zero := {| b_total := 0; b_completed := 0; b_percentage := None |}).
  destruct (Dict.get p phases) as [b|] eqn:G.
  - destruct (is_completed t); rewrite ?DictFacts.update_update;
      match goal with
      | |- context [Dict.update p ?f phases] =>
          destruct (sums_update p f phases b G) as [-> ->]
      end; simpl; lia.
  - assert (G' : Dict.get p (Dict.set p zero phases) = Some zero)
      by apply DictFacts.get_set_same.
    assert (S1 : sum_totals (Dict.set p zero phases) = sum_totals phases).
    { rewrite (DictFacts.set_absent _ _ _ G), sum_totals_app. simpl. lia. }
    assert (S2 : sum_completed (Dict.set p zero phases)
                 = sum_completed phases).
    { rewrite (DictFacts.set_absent _ _ _ G), sum_completed_app. simpl. lia. }
    destruct (is_completed t); rewrite ?DictFacts.update_update;
      match goal with
      | |- context [Dict.update p ?f (Dict.set p zero phases)] =>
          destruct (sums_update p f _ zero G') as [-> ->]
      end; rewrite S1, S2; simpl; lia.
Qed.

Lemma sums_group_by_phase (phase_nums : list str) (tasks : list task)
    (phases : Dict.t bucket) :
  sum_totals (group_by_phase phase_nums tasks phases)
  = sum_totals phases + count_if (has_phase phase_nums) tasks
  /\ sum_completed (group_by_phase phase_nums tasks phases)
     = sum_completed phases
       + count_if (fun t => has_phase phase_nums t && is_completed t) tasks.
Proof.
  revert phases. induction tasks as [|t rest IH]; intros phases;
    cbn [group_by_phase].
  - unfold count_if, len; simpl. lia.
  - destruct (IH (assign_phase phase_nums t (get_or (name t) []) phases))
      as [-> ->].
    rewrite !count_if_cons, assign_phase_first. unfold has_phase.
    destruct (first_phase phase_nums (get_or (name t) [])) as [p|].
    + destruct (sums_count_in_phase p t phases) as [-> ->].
      unfold completed_unit. destruct (is_completed t); cbn [andb]; lia.
    + cbn [andb]. lia.
Qed.

Lemma sums_map_values (phases : Dict.t bucket) :
  sum_totals (Dict.map_values with_percentage phases) = sum_totals phases
  /\ sum_completed (Dict.map_values with_percentage phases)
     = sum_completed phases.
Proof.
  induction phases as [|[k b] rest [IH1 IH2]]; [split; reflexivity|].
  cbn [Dict.map_values map sum_totals sum_completed fst snd with_percentage
       b_total b_completed] in *.
  unfold Dict.map_values in IH1, IH2. rewrite IH1, IH2. split; reflexivity.
Qed.

(** X1. The counts of a returned status fit together: completed and
    incomplete add up to the total, unassigned and overdue tasks are among
    the incomplete ones, and the buckets of all phases together hold no
    more tasks than the project has and no more completed tasks than the
    project has completed. *)
Theorem status_counts_consistent (e : env) (w w' : world) (st : status) :
  get_task_status e w = (Ret (Some st), w') ->
  0 <= st_completed st <= st_total st
  /\ st_completed st + st_incomplete st = st_total st
  /\ 0 <= st_unassigned st <= st_incomplete st
  /\ 0 <= st_overdue st <= st_incomplete st
  /\ 0 <= sum_totals (st_phases st) <= st_total st
  /\ 0 <= sum_completed (st_phases st) <= st_completed st
  /\ sum_completed (st_phases st) <= sum_totals (st_phases st).
Proof.
  intros R. destruct (get_task_status_inv _ _ _ _ R) as (tasks & ->).
  cbn [summarize st_total st_completed st_incomplete st_unassigned
       st_overdue st_phases].
  set (keys := Dict.keys (IMPLEMENTATION_PHASES e)).
  destruct (sums_map_values (group_by_phase keys tasks Dict.empty))
    as [-> ->].
  destruct (sums_group_by_phase keys tasks Dict.empty) as [-> ->].
  cbn [sum_totals sum_completed Dict.empty].
  pose proof (count_if_bounds is_completed tasks).
  pose proof (count_if_negb is_completed tasks) as N.
  pose proof (count_if_bounds is_unassigned tasks).
  pose proof (count_if_bounds (is_overdue (date_after e w 0)) tasks).
  pose proof (count_if_bounds (has_phase keys) tasks).
  pose proof (count_if_bounds
                (fun t => has_phase keys t && is_completed t) tasks).
  assert (count_if is_unassigned tasks
          <= count_if (fun t => negb (is_completed t)) tasks).
  { apply count_if_le. intros t. unfold is_unassigned.
    rewrite andb_true_iff. tauto. }
  assert (count_if (is_overdue (date_after e w 0)) tasks
          <= count_if (fun t => negb (is_completed t)) tasks).
  { apply count_if_le. intros t. unfold is_overdue.
    rewrite andb_true_iff. tauto. }
  assert (count_if (fun t => has_phase keys t && is_completed t) tasks
          <= count_if is_completed tasks).
  { apply count_if_le. intros t. rewrite andb_true_iff. tauto. }
  assert (count_if (fun t => has_phase keys t && is_completed t) tasks
          <= count_if (has_phase keys) tasks).
  { apply count_if_le. intros t. rewrite andb_true_iff. tauto. }
  lia.
Qed.

Lemma status_counts_consistent_witness :
  0 <= 4 <= 10 /\ 4 + 6 = 10 /\ 0 <= 6 <= 6 /\ 0 <= 0 <= 6
  /\ 0 <= 8 <= 10 /\ 0 <= 4 <= 4 /\ 4 <= 8.
Proof.
  exact (status_counts_consistent sample_status_env [] []
           (summarize (IMPLEMENTATION_PHASES sample_status_env)
              (lit "2024-05-01") ten_tasks) eq_refl).
Defined.

Lemma of_ratio_same (n : Z) : 1 <= n -> of_ratio n n = mk (2 ^ 52) (- 52).
Proof.
  intros Hn. unfold of_ratio.
  replace (n =? 0) with false by (symmetry; apply Z.eqb_neq; lia).
  assert (B : binade n n = - 52).
  { unfold binade. replace (Z.log2 n - Z.log2 n - 52) with (- 52) by lia.
    unfold scale. cbn [Z.leb Z.compare Z.opp].
    replace (2 ^ 52 * n <=? n * 2 ^ 52) with true
      by (symmetry; apply Z.leb_le; lia).
    reflexivity. }
  rewrite B. unfold scale. cbn [Z.leb Z.compare Z.opp].
  replace (n * 2 ^ 52) with (2 ^ 52 * n) by ring.
  f_equal. unfold rne.
  rewrite Z.div_mul, Z.mod_mul by lia.
  destruct (Z.compare_spec (2 * 0) n); lia.
Qed.

(** X2. The overall percentage of a returned status is the integer 0 for
    a project without tasks and otherwise a float between 0 and 100; it is
    exactly 100.0 when every task is completed and exactly 0.0 when none
    is. *)
Theorem overall_percentage_range (e : env) (w w' : world) (st : status) :
  get_task_status e w = (Ret (Some st), w') ->
  (st_total st = 0 -> st_percentage st = PyInt 0)
  /\ (1 <= st_total st ->
      exists x, st_percentage st = PyFloat x /\ (0 <= to_Q x <= 100)%Q)
  /\ (1 <= st_total st -> st_completed st = st_total st ->
      st_percentage st = PyFloat (of_Z 100))
  /\ (1 <= st_total st -> st_completed st = 0 ->
      st_percentage st = PyFloat (of_Z 0)).
Proof.
  intros R. destruct (get_task_status_inv _ _ _ _ R) as (tasks & ->).
  cbn [summarize st_total st_completed st_percentage].
  pose proof (count_if_bounds is_completed tasks) as B.
  unfold percentage_of. repeat apply conj.
  - intros ->. reflexivity.
  - intros H. replace (0 <? len tasks) with true
      by (symmetry; apply Z.ltb_lt; lia).
    eexists. split; [reflexivity|].
    apply (Binary64Facts.bounded_to_Q _ 100).
    apply Binary64Facts.percentage_bounded; lia.
  - intros H ->. replace (0 <? len tasks) with true
      by (symmetry; apply Z.ltb_lt; lia).
    unfold int_truediv. rewrite (of_ratio_same _ H). reflexivity.
  - intros H ->. replace (0 <? len tasks) with true
      by (symmetry; apply Z.ltb_lt; lia).
    reflexivity.
Qed.

Lemma overall_percentage_range_witness :
  exists x,
    st_percentage (summarize (IMPLEMENTATION_PHASES sample_status_env)
                     (lit "2024-05-01") ten_tasks) = PyFloat x
    /\ (0 <= to_Q x <= 100)%Q.
Proof.
  apply (proj1 (proj2 (overall_percentage_range sample_status_env [] []
                         (summarize (IMPLEMENTATION_PHASES sample_status_env)
                            (lit "2024-05-01") ten_tasks) eq_refl))).
  vm_compute. discriminate.
Defined.

(** X28. In every status that [get_task_status] returns, the buckets
    count the tasks of the list the call handed back by their first
    matching phase: a task is counted by the first phase, in the
    iteration order of the phase mapping, whose marker [PHASE <n>:]
    occurs in its name, that bucket's total growing by one and its
    completed count by one when the task is completed; no task is counted
    by two phases, a phase has a bucket exactly when some task is counted
    by it, and a task matching no known phase leaves every bucket as it
    was. *)
Theorem phase_bucket_first_match (e : env) (w w' : world) (st : status) :
  get_task_status e w = (Ret (Some st), w') ->
  let phase_nums := Dict.keys (IMPLEMENTATION_PHASES e) in
  exists tasks,
    get_tasks_for_project e w (ASANA_PROJECT_ID e) status_fields = Ret tasks
    /\ st_total st = len tasks
    /\ (forall k,
          tally k (st_phases st) =
          (count_if (in_phase phase_nums k) tasks,
           count_if (fun t => in_phase phase_nums k t && is_completed t) tasks))
    /\ (forall k,
          Dict.mem k (st_phases st) = true <->
          exists t, In t tasks /\ in_phase phase_nums k t = true)
    /\ (forall t k k',
          in_phase phase_nums k t = true -> in_phase phase_nums k' t = true ->
          k = k')
    /\ (forall t k,
          in_phase phase_nums k t = true <->
          exists before after,
            phase_nums = before ++ k :: after
            /\ str_in (phase_marker k) (get_or (name t) []) = true
            /\ forall q, In q before ->
                 str_in (phase_marker q) (get_or (name t) []) = false)
    /\ (forall t phases k,
          tally k (assign_phase phase_nums t (get_or (name t) []) phases) =
          if in_phase phase_nums k t
          then (fst (tally k phases) + 1,
                snd (tally k phases) + (if is_completed t then 1 else 0))
          else tally k phases)
    /\ (forall t phases,
          (forall k, in_phase phase_nums k t = false) ->
          assign_phase phase_nums t (get_or (name t) []) phases = phases).
Proof.
  intros R phase_nums.
  destruct (get_task_status_returned _ _ _ _ R)
    as (_ & _ & tasks & F & ->).
  exists tasks. split; [exact F|]. split; [reflexivity|].
  cbn [st_phases summarize]. fold phase_nums.
  assert (T : forall k,
    tally k (Dict.map_values with_percentage
               (group_by_phase phase_nums tasks Dict.empty)) =
    (count_if (in_phase phase_nums k) tasks,
     count_if (fun t => in_phase phase_nums k t && is_completed t) tasks)).
  { intros k. rewrite tally_map_values, tally_group_by_phase. reflexivity. }
  repeat apply conj.
  - exact T.
  - intros k.
    etransitivity; [|apply (count_if_pos (in_phase phase_nums k) tasks)].
    specialize (T k).
    unfold Dict.mem. unfold tally in T.
    rewrite DictFacts.get_map_values in *.
    destruct (Dict.get k (group_by_phase phase_nums tasks Dict.empty))
      as [b|] eqn:G; cbn [option_map] in *; injection T as T1 T2.
    + pose proof (counted_group_by_phase phase_nums tasks Dict.empty
                    (Forall_nil _)) as C.
      rewrite Forall_forall in C.
      destruct (C _ (DictFacts.get_In _ _ _ G)) as (C1 & _).
      cbn [snd with_percentage b_total] in C1, T1.
      split; [intros _; lia | reflexivity].
    + split; [discriminate | lia].
  - intros t k k'. apply in_phase_unique.
  - intros t k. rewrite in_phase_first. apply first_phase_spec.
  - intros t phases k. apply tally_assign_phase.
  - intros t phases N. rewrite assign_phase_first.
    destruct (first_phase phase_nums (get_or (name t) [])) as [p|] eqn:E;
      [|reflexivity].
    apply in_phase_first in E. rewrite N in E. discriminate.
Qed.

Lemma phase_bucket_first_match_witness :
  exists st,
    get_task_status sample_status_env [] = (Ret (Some st), [])
    /\ tally (lit "1") (st_phases st) = (4, 3)
    /\ tally (lit "2") (st_phases st) = (4, 1)
    /\ tally (lit "3") (st_phases st) = (0, 0).
Proof.
  eexists. split; [reflexivity|].
  destruct (phase_bucket_first_match sample_status_env [] [] _ eq_refl)
    as (tasks & F & _ & T & _).
  injection F as <-. rewrite !T. repeat split.
Defined.

(** ** Further properties of the enrichment batch *)

Section IterationDetail.

Variable e : env.
Variables model path_content : str.
Variable n_tasks : Z.

(** One iteration, with everything it adds to the trace. *)
Lemma enrich_task_detail (i : Z) (t : task) (r : results) (w : world) :
  exists r' w' new_patches new_posts new_sleeps,
    enrich_task e model path_content n_tasks i t r w = (Ret r', w')
    /\ patch_calls w' = patch_calls w ++ new_patches
    /\ post_calls w' = post_calls w ++ new_posts
    /\ sleep_calls w' = sleep_calls w ++ new_sleeps
    /\ Forall (enrichment_of e t) new_patches
    /\ new_posts
       = (if already_enriched (get_or (notes t) []) then []
          else [enrich_data model (get_or (name t) (lit "Unnamed task"))
                  path_content])
    /\ Forall (fun s => s = 1) new_sleeps
    /\ len new_posts + (skipped r' - skipped r) = 1
    /\ len new_sleeps = processed r' - processed r
    /\ 0 <= updated r' - updated r <= len new_patches
    /\ len new_patches <= len new_posts
    /\ 0 <= processed r' - processed r <= len new_posts
    /\ 0 <= skipped r' - skipped r
    /\ 0 <= failed r' - failed r
    /\ processed r' - processed r + (failed r' - failed r)
       >= len new_posts.
Proof.
  unfold enrich_task. unfold_M.
  destruct (already_enriched (get_or (notes t) [])) eqn:A.
  { exists (incr_skipped r). eexists. exists [], [], [].
    settle_detail. repeat apply conj. all: close_detail. }
  match goal with
  | |- context [post_chat_completions e ?w1 ?d] =>
      destruct (post_chat_completions e w1 d) as [response|ex] eqn:P
  end.
  2:{ exists (incr_failed r). eexists. exists []. eexists. exists [].
      settle_detail. repeat apply conj. all: close_detail. }
  destruct (status_code response =? 200) eqn:S.
  2:{ exists (incr_processed (incr_failed r)). eexists. exists [].
      do 2 eexists.
      settle_detail. repeat apply conj. all: close_detail. }
  destruct (message_content response) as [content|ex] eqn:C.
  2:{ exists (incr_failed r). eexists. exists []. eexists. exists [].
      settle_detail. repeat apply conj. all: close_detail. }
  assert (E : forall today,
            enrichment_of e t
              (gid t,
               {| p_notes :=
                    Some (if nonempty (get_or (notes t) [])
                          then get_or (notes t) [] ++ nl ++ nl ++
                               format_description (ASSISTANT_NAME e) today
                                 (strip content)
                                 (get_or (name t) (lit "Unnamed task"))
                          else format_description (ASSISTANT_NAME e) today
                                 (strip content)
                                 (get_or (name t) (lit "Unnamed task")));
                  p_assignee := None; p_due_on := None |})).
  { intros today. repeat split; auto. exists content, today. reflexivity. }
  match goal with
  | |- context [tasks_update_task e ?w1 ?id ?d] =>
      destruct (tasks_update_task e w1 id d) as [[]|ex] eqn:U
  end.
  - exists (incr_processed (incr_updated r)). do 4 eexists.
    settle_detail. repeat apply conj. all: close_detail.
  - exists (incr_failed r). do 3 eexists. exists [].
    settle_detail. repeat apply conj. all: close_detail.
Qed.

End IterationDetail.

Lemma len_app {A} (a b : list A) : len (a ++ b) = len a + len b.
Proof. unfold len. rewrite length_app. lia. Qed.

Section LoopDetail.

Variable e : env.
Variables model path_content : str.
Variable n_tasks : Z.

Lemma enrich_loop_detail (tasks : list task) (i : Z) (r : results)
    (w : world) :
  exists r' w' new_patches new_sleeps,
    enrich_loop e model path_content n_tasks i tasks r w = (Ret r', w')
    /\ patch_calls w' = patch_calls w ++ new_patches
    /\ post_calls w'
       = post_calls w ++ map (request_for model path_content) (to_enrich tasks)
    /\ sleep_calls w' = sleep_calls w ++ new_sleeps
    /\ Forall (fun c => exists t, In t tasks /\ enrichment_of e t c)
         new_patches
    /\ Forall (fun s => s = 1) new_sleeps
    /\ len (to_enrich tasks) + (skipped r' - skipped r) = len tasks
    /\ len new_sleeps = processed r' - processed r
    /\ 0 <= updated r' - updated r <= len new_patches
    /\ len new_patches <= len (to_enrich tasks)
    /\ 0 <= processed r' - processed r <= len (to_enrich tasks)
    /\ 0 <= skipped r' - skipped r
    /\ 0 <= failed r' - failed r
    /\ processed r' - processed r + (failed r' - failed r)
       >= len (to_enrich tasks).
Proof.
  revert i r w. induction tasks as [|t rest IH]; intros i r w.
  - exists r, w, [], []. cbn [enrich_loop to_enrich filter map]. unfold ret.
    rewrite !app_nil_r. repeat apply conj; auto; unfold len; simpl; lia.
  - destruct (enrich_task_detail e model path_content n_tasks i t r w)
      as (r1 & w1 & p1 & q1 & s1 & R1 & P1 & Q1 & S1 & F1 & E1 & O1
          & A1 & A2 & A3 & A4 & A5 & A6 & A7 & A8).
    destruct (IH (i + 1) r1 w1)
      as (r2 & w2 & p2 & s2 & R2 & P2 & Q2 & S2 & F2 & O2
          & B1 & B2 & B3 & B4 & B5 & B6 & B7 & B8).
    exists r2, w2, (p1 ++ p2), (s1 ++ s2).
    cbn [enrich_loop]. unfold bind. rewrite R1, R2.
    assert (T : to_enrich (t :: rest)
                = (if already_enriched (get_or (notes t) []) then []
                   else [t]) ++ to_enrich rest).
    { unfold to_enrich. cbn [filter].
      destruct (already_enriched (get_or (notes t) [])); reflexivity. }
    assert (L : len (to_enrich (t :: rest))
                = len q1 + len (to_enrich rest)).
    { rewrite T, len_app, E1.
      destruct (already_enriched (get_or (notes t) [])); reflexivity. }
    split; [reflexivity|].
    split; [rewrite P2, P1, app_assoc; reflexivity|].
    split.
    { rewrite Q2, Q1, E1, T, map_app, app_assoc. unfold request_for.
      destruct (already_enriched (get_or (notes t) [])); reflexivity. }
    split; [rewrite S2, S1, app_assoc; reflexivity|].
    split.
    { apply Forall_app. split.
      - eapply Forall_impl; [|exact F1]. intros c Hc. exists t.
        split; [left; reflexivity | exact Hc].
      - eapply Forall_impl; [|exact F2]. intros c (t' & Ht' & Hc).
        exists t'. split; [right; exact Ht' | exact Hc]. }
    split; [apply Forall_app; split; assumption|].
    rewrite L, !len_app, len_cons. repeat apply conj; lia.
Qed.

End LoopDetail.

(** A whole run of the batch over a fetched task list. *)
Lemma enrich_run_detail (e : env) (model : str) (limit : option Z)
    (w : world) (tasks : list task) :
  (forall w0,
     get_tasks_for_project e w0 (ASANA_PROJECT_ID e) enrich_fields
     = Ret tasks) ->
  let selected := select_tasks limit tasks in
  let path_content := path_content_at e w in
  exists r w' new_patches new_sleeps,
    enrich_task_descriptions e model limit w
    = (Ret None, summary_events r ++ w')
    /\ patch_calls w' = patch_calls w ++ new_patches
    /\ post_calls w'
       = post_calls w
         ++ map (request_for model path_content) (to_enrich selected)
    /\ sleep_calls w' = sleep_calls w ++ new_sleeps
    /\ Forall (fun c => exists t, In t selected /\ enrichment_of e t c)
         new_patches
    /\ Forall (fun s => s = 1) new_sleeps
    /\ len (to_enrich selected) + skipped r = len selected
    /\ len new_sleeps = processed r
    /\ 0 <= updated r <= len new_patches
    /\ len new_patches <= len (to_enrich selected)
    /\ 0 <= processed r <= len (to_enrich selected)
    /\ 0 <= skipped r
    /\ 0 <= failed r
    /\ processed r + failed r >= len (to_enrich selected).
Proof.
  intros F selected path_content. unfold path_content, path_content_at.
  unfold enrich_task_descriptions, print_summary, fetch_tasks. unfold_M.
  match goal with
  | |- context [read_path_txt e ?w0] =>
      destruct (read_path_txt e w0) as [content|ex]
  end; rewrite F; fold selected;
  match goal with
  | |- context [enrich_loop e model ?pc ?n ?i ?l ?r0 ?w1] =>
      destruct (enrich_loop_detail e model pc n l i r0 w1)
        as (r & w2 & np & ns & R & P & Q & S & rest);
      rewrite R; exists r, w2, np, ns
  end;
  cbn [patch_calls post_calls sleep_calls processed updated skipped failed]
    in *;
  rewrite ?Z.sub_0_r in rest;
  (split; [reflexivity|]); (split; [exact P|]); (split; [exact Q|]);
  (split; [exact S|]); exact rest.
Qed.

(** X3. In a run of the batch over a fetched list, one provider request
    is sent for each selected task that is not already enriched, in task
    order and with that task's name in the prompt; the process pauses one
    second once per processed task; at most one update is issued per
    request, and the updated count never exceeds the updates issued. *)
Theorem enrich_batch_calls (e : env) (model : str) (limit : option Z)
    (w : world) (tasks : list task) :
  (forall w0,
     get_tasks_for_project e w0 (ASANA_PROJECT_ID e) enrich_fields
     = Ret tasks) ->
  exists r w' new_patches new_sleeps,
    enrich_task_descriptions e model limit w
    = (Ret None, summary_events r ++ w')
    /\ patch_calls w' = patch_calls w ++ new_patches
    /\ post_calls w'
       = post_calls w
         ++ map (request_for model (path_content_at e w))
              (to_enrich (select_tasks limit tasks))
    /\ sleep_calls w' = sleep_calls w ++ new_sleeps
    /\ Forall (fun s => s = 1) new_sleeps
    /\ len new_sleeps = processed r
    /\ len (to_enrich (select_tasks limit tasks)) + skipped r
       = len (select_tasks limit tasks)
    /\ updated r <= len new_patches <= len (to_enrich (select_tasks limit tasks))
    /\ processed r <= len (to_enrich (select_tasks limit tasks))
    /\ len (to_enrich (select_tasks limit tasks)) <= processed r + failed r.
Proof.
  intros F.
  destruct (enrich_run_detail e model limit w tasks F)
    as (r & w' & np & ns & R & P & Q & S & _ & O & A1 & A2 & A3 & A4 & A5
        & A6 & A7 & A8).
  exists r, w', np, ns. repeat apply conj; auto; lia.
Qed.

Lemma enrich_batch_calls_witness :
  exists r w' new_patches new_sleeps,
    enrich_task_descriptions sample_enrich_env gpt None []
    = (Ret None, summary_events r ++ w')
    /\ patch_calls w' = patch_calls [] ++ new_patches
    /\ post_calls w'
       = post_calls []
         ++ map (request_for gpt (path_content_at sample_enrich_env []))
              (to_enrich (select_tasks None open_tasks))
    /\ sleep_calls w' = sleep_calls [] ++ new_sleeps
    /\ Forall (fun s => s = 1) new_sleeps
    /\ len new_sleeps = processed r
    /\ len (to_enrich (select_tasks None open_tasks)) + skipped r
       = len (select_tasks None open_tasks)
    /\ updated r <= len new_patches
       <= len (to_enrich (select_tasks None open_tasks))
    /\ processed r <= len (to_enrich (select_tasks None open_tasks))
    /\ len (to_enrich (select_tasks None open_tasks))
       <= processed r + failed r.
Proof.
  apply (enrich_batch_calls sample_enrich_env gpt None [] open_tasks).
  intros w0. reflexivity.
Defined.

Lemma startswith_nil (s : str) : startswith s [] = true.
Proof. reflexivity. Qed.

Lemma startswith_app_l (s p b : str) :
  startswith s p = true -> startswith (s ++ b) p = true.
Proof.
  revert s. induction p as [|c p IH]; intros s; [reflexivity|].
  destruct s as [|d s]; cbn [app startswith]; [discriminate|].
  rewrite !andb_true_iff. intros [H1 H2]. auto.
Qed.

Lemma str_in_nil (s : str) : str_in [] s = true.
Proof. destruct s; reflexivity. Qed.

Lemma str_in_app_r (x a s : str) :
  str_in x s = true -> str_in x (a ++ s) = true.
Proof.
  intros H. induction a as [|c a IH]; cbn [app str_in]; auto.
  rewrite IH. apply orb_true_r.
Qed.

Lemma str_in_app_l (x s b : str) :
  str_in x s = true -> str_in x (s ++ b) = true.
Proof.
  induction s as [|c s IH]; cbn [str_in].
  - rewrite orb_false_r. destruct x; [intros _; apply str_in_nil|].
    discriminate.
  - rewrite orb_true_iff. intros [H|H].
    + apply startswith_str_in. now apply (startswith_app_l (c :: s)).
    + cbn [app str_in]. rewrite (IH H). apply orb_true_r.
Qed.

Lemma str_in_middle (x a b : str) : str_in x (a ++ x ++ b) = true.
Proof.
  apply str_in_app_r, startswith_str_in, startswith_app.
Qed.

Lemma marker_in_format (assistant_name today description task_name : str) :
  str_in (lit "TASK DESCRIPTION")
    (format_description assistant_name today description task_name) = true.
Proof.
  unfold format_description. cbn [join_lines].
  change (lit "# TASK DESCRIPTION")
    with (lit "# " ++ lit "TASK DESCRIPTION").
  cbn [app]. rewrite <- !app_assoc.
  apply (str_in_app_r _ nl), (str_in_middle _ (lit "# ")).
Qed.

Lemma marker_in_notes_with (existing formatted : str) :
  str_in (lit "TASK DESCRIPTION") formatted = true ->
  str_in (lit "TASK DESCRIPTION") (notes_with existing formatted) = true.
Proof.
  intros H. unfold notes_with. destruct (nonempty existing); auto.
  now apply str_in_app_r, str_in_app_r, str_in_app_r.
Qed.

Lemma startswith_notes_with (existing formatted : str) :
  startswith (notes_with existing formatted) existing = true.
Proof.
  unfold notes_with. destruct existing as [|c s]; [reflexivity|].
  cbn [nonempty]. apply startswith_app.
Qed.

Lemma In_firstn {A} (n : nat) (l : list A) (x : A) :
  In x (firstn n l) -> In x l.
Proof.
  revert l. induction n as [|n IH]; intros [|y l]; cbn [firstn In];
    try tauto.
  intros [->|H]; auto.
Qed.

Lemma select_tasks_In (limit : option Z) (tasks : list task) (t : task) :
  In t (select_tasks limit tasks) -> In t tasks /\ is_completed t = false.
Proof.
  intros H.
  assert (I : In t (filter (fun t => negb (is_completed t)) tasks)).
  { unfold select_tasks, slice_to in H.
    destruct (limit_set limit); auto.
    destruct (0 <=? get_or limit 0); now apply In_firstn in H. }
  apply filter_In in I as [I1 I2]. split; auto.
  now apply negb_true_iff.
Qed.

(** X4. Every update the batch issues goes to a selected task that is
    incomplete and not yet enriched, carries notes only, and those notes
    start with the notes the task had and contain the marker: enrichment
    appends to a task's notes and never replaces them. *)
Theorem enrichment_keeps_notes (e : env) (model : str) (limit : option Z)
    (w : world) (tasks : list task) :
  (forall w0,
     get_tasks_for_project e w0 (ASANA_PROJECT_ID e) enrich_fields
     = Ret tasks) ->
  exists w' new_patches,
    enrich_task_descriptions e model limit w = (Ret None, w')
    /\ patch_calls w' = patch_calls w ++ new_patches
    /\ forall c, In c new_patches ->
         exists t new_notes,
           In t tasks /\ is_completed t = false
           /\ already_enriched (get_or (notes t) []) = false
           /\ fst c = gid t
           /\ snd c = {| p_notes := Some new_notes; p_assignee := None;
                         p_due_on := None |}
           /\ startswith new_notes (get_or (notes t) []) = true
           /\ str_in (lit "TASK DESCRIPTION") new_notes = true.
Proof.
  intros F.
  destruct (enrich_run_detail e model limit w tasks F)
    as (r & w' & np & ns & R & P & _ & _ & G & _).
  exists (summary_events r ++ w'), np.
  split; [exact R|]. split; [exact P|].
  intros c Hc. rewrite Forall_forall in G.
  destruct (G c Hc) as (t & Ht & Hg & Ha & d & today & Hs).
  destruct (select_tasks_In _ _ _ Ht) as [Hin Hc'].
  exists t. eexists. repeat split; eauto.
  - apply startswith_notes_with.
  - apply marker_in_notes_with, marker_in_format.
Qed.

Lemma enrichment_keeps_notes_witness :
  exists w' new_patches,
    enrich_task_descriptions sample_enrich_env gpt None [] = (Ret None, w')
    /\ patch_calls w' = patch_calls [] ++ new_patches
    /\ forall c, In c new_patches ->
         exists t new_notes,
           In t open_tasks /\ is_completed t = false
           /\ already_enriched (get_or (notes t) []) = false
           /\ fst c = gid t
           /\ snd c = {| p_notes := Some new_notes; p_assignee := None;
                         p_due_on := None |}
           /\ startswith new_notes (get_or (notes t) []) = true
           /\ str_in (lit "TASK DESCRIPTION") new_notes = true.
Proof.
  apply (enrichment_keeps_notes sample_enrich_env gpt None [] open_tasks).
  intros w0. reflexivity.
Defined.

Lemma len_format_description (assistant_name today description task_name : str) :
  len (format_description assistant_name today description task_name)
  = 85 + len assistant_name + len today + len description + len task_name.
Proof.
  unfold format_description. cbn [join_lines]. unfold nl.
  rewrite !len_app. unfold len. cbn [length lit list_ascii_of_string].
  lia.
Qed.

Lemma len_notes_with (existing formatted : str) :
  len (notes_with existing formatted)
  = len existing + (if nonempty existing then 2 else 0) + len formatted.
Proof.
  unfold notes_with. destruct existing as [|c s]; cbn [nonempty].
  - unfold len; simpl; lia.
  - unfold nl. rewrite !len_app. unfold len. cbn [length]. lia.
Qed.

(** X5. A task whose notes are those written by an earlier enrichment is
    skipped on the next run exactly when these notes are longer than 200
    characters, that is when the old notes, the assistant name, the date,
    the description and the task name together exceed 115 characters (113
    when there were old notes); below that the task is sent to the
    provider again. *)
Theorem rerun_after_update (e : env) (model path_content : str)
    (n_tasks i : Z) (t : task) (r : results) (w : world)
    (existing assistant_name today description task_name : str) :
  notes t = Some (notes_with existing
                    (format_description assistant_name today description
                       task_name)) ->
  let size := len existing + (if nonempty existing then 2 else 0) + 85
              + len assistant_name + len today + len description
              + len task_name in
  (200 < size ->
   exists w',
     enrich_task e model path_content n_tasks i t r w
     = (Ret (incr_skipped r), w')
     /\ post_calls w' = post_calls w /\ patch_calls w' = patch_calls w)
  /\ (size <= 200 ->
      exists r' w',
        enrich_task e model path_content n_tasks i t r w = (Ret r', w')
        /\ post_calls w' = post_calls w ++ [request_for model path_content t]
        /\ skipped r' = skipped r).
Proof.
  intros N size.
  assert (A : already_enriched (get_or (notes t) []) = (200 <? size)).
  { rewrite N. cbn [get_or]. unfold already_enriched.
    rewrite marker_in_notes_with by apply marker_in_format.
    rewrite andb_true_r, len_notes_with, len_format_description.
    unfold size. f_equal. lia. }
  destruct (enrich_task_detail e model path_content n_tasks i t r w)
    as (r1 & w1 & p1 & q1 & s1 & R1 & P1 & Q1 & _ & _ & E1 & _ & A1 & _
        & A3 & A4 & _).
  split.
  - intros L. replace (200 <? size) with true in A
      by (symmetry; apply Z.ltb_lt; lia).
    destruct (enrich_task_cases e model path_content n_tasks i t r w)
      as (r2 & w2 & p2 & q2 & R2 & P2 & Q2 & _ & _ & K2 & _).
    destruct (K2 A) as (-> & -> & ->).
    rewrite app_nil_r in P2, Q2. exists w2. auto.
  - intros L. replace (200 <? size) with false in A
      by (symmetry; apply Z.ltb_ge; lia).
    rewrite A in E1. subst q1. exists r1, w1.
    split; [exact R1|]. split; [exact Q1|].
    unfold len in A1; cbn [length] in A1. lia.
Qed.

Lemma rerun_after_update_witness :
  exists r' w',
    enrich_task sample_enrich_env gpt sample_knowledge 1 0
      (sample_task "11" "Draft plan" false
         (notes_with []
            (format_description (lit "AI Assistant") (lit "2024-05-01")
               (lit "Do it well.") (lit "Draft plan"))))
      no_results []
    = (Ret r', w')
    /\ post_calls w'
       = post_calls []
         ++ [request_for gpt sample_knowledge
               (sample_task "11" "Draft plan" false
                  (notes_with []
                     (format_description (lit "AI Assistant")
                        (lit "2024-05-01") (lit "Do it well.")
                        (lit "Draft plan"))))]
    /\ skipped r' = skipped no_results.
Proof.
  apply (proj2 (rerun_after_update sample_enrich_env gpt sample_knowledge 1 0
                  (sample_task "11" "Draft plan" false
                     (notes_with []
                        (format_description (lit "AI Assistant")
                           (lit "2024-05-01") (lit "Do it well.")
                           (lit "Draft plan"))))
                  no_results [] [] (lit "AI Assistant") (lit "2024-05-01")
                  (lit "Do it well.") (lit "Draft plan") eq_refl)).
  vm_compute. discriminate.
Defined.

(** X6. When the task list cannot be fetched the batch ends at once: it
    reports the error, hands back [None], and sends no provider request,
    issues no update and takes no pause. *)
Theorem enrich_fetch_failure (e : env) (model : str) (limit : option Z)
    (w : world) (ex : exn) :
  (forall w0,
     get_tasks_for_project e w0 (ASANA_PROJECT_ID e) enrich_fields
     = Raise ex) ->
  exists w',
    enrich_task_descriptions e model limit w
    = (Ret None,
       Printed (lit "Error in task enrichment: " ++ str_of_exn ex) :: w')
    /\ post_calls w' = post_calls w
    /\ patch_calls w' = patch_calls w
    /\ sleep_calls w' = sleep_calls w.
Proof.
  intros F.
  unfold enrich_task_descriptions, print_summary, fetch_tasks. unfold_M.
  match goal with
  | |- context [read_path_txt e ?w0] =>
      destruct (read_path_txt e w0) as [content|ex']
  end; rewrite F; eexists; (split; [reflexivity|]); repeat split.
Qed.

Lemma enrich_fetch_failure_witness :
  exists w',
    enrich_task_descriptions
      (sample_env sample_knowledge (Raise (Exception (lit "Forbidden")))
         (Ret []) (Ret (ok_response "ok"))) gpt None []
    = (Ret None,
       Printed (lit "Error in task enrichment: "
                ++ str_of_exn (Exception (lit "Forbidden"))) :: w')
    /\ post_calls w' = post_calls []
    /\ patch_calls w' = patch_calls []
    /\ sleep_calls w' = sleep_calls [].
Proof.
  apply enrich_fetch_failure. intros w0. reflexivity.
Defined.

(** ** Further properties of the advisory query *)

Lemma lstrip_head (s : str) (c : ascii) (rest : str) :
  lstrip s = c :: rest -> is_space c = false.
Proof.
  induction s as [|d s IH]; cbn [lstrip]; [discriminate|].
  destruct (is_space d) eqn:D; auto.
  intros [= -> _]. exact D.
Qed.

Lemma lstrip_suffix (s : str) : exists spaces, s = spaces ++ lstrip s.
Proof.
  induction s as [|d s [a IH]]; cbn [lstrip]; [exists []; reflexivity|].
  destruct (is_space d).
  - exists (d :: a). cbn [app]. now rewrite <- IH.
  - exists []. reflexivity.
Qed.

Lemma last_rev {A} (l : list A) (d : A) : last (rev l) d = hd d l.
Proof.
  destruct l as [|x l]; [reflexivity|].
  cbn [rev hd]. apply last_last.
Qed.

Lemma hd_rev {A} (l : list A) (d : A) : hd d (rev l) = last l d.
Proof.
  rewrite <- (rev_involutive l) at 2. now rewrite last_rev.
Qed.

Lemma last_app_nonempty {A} (a b : list A) (d : A) :
  b <> [] -> last (a ++ b) d = last b d.
Proof.
  intros N. induction a as [|x a IH]; [reflexivity|].
  cbn [app]. rewrite <- IH.
  destruct (a ++ b) eqn:E; [|reflexivity].
  apply app_eq_nil in E as [_ ->]. contradiction.
Qed.

Lemma strip_trimmed (s : str) : trimmed (strip s).
Proof.
  unfold strip, trimmed.
  set (t := lstrip s). set (u := lstrip (rev t)).
  destruct (rev u) as [|c r] eqn:E; [exact I|].
  assert (Nu : u <> []).
  { intros Z. rewrite Z in E. discriminate. }
  assert (Hc : c = last u c).
  { rewrite <- (hd_rev u c), E. reflexivity. }
  split.
  - destruct (lstrip_suffix (rev t)) as [a Ha]. fold u in Ha.
    assert (L : last (rev t) c = last u c)
      by (rewrite Ha at 1; now apply last_app_nonempty).
    rewrite last_rev in L.
    destruct t as [|x t'] eqn:Et.
    + exfalso. apply Nu. reflexivity.
    + cbn [hd] in L. rewrite Hc, <- L.
      apply (lstrip_head s x t'). exact Et.
  - rewrite <- E, last_rev.
    destruct u as [|y u'] eqn:Eu; [contradiction Nu; reflexivity|].
    cbn [hd]. apply (lstrip_head (rev t) y u'). exact Eu.
Qed.

Lemma ask_question_effects (e : env) (model question : str)
    (w : world) :
  exists answer w',
    ask_question e model question w = (Ret answer, w')
    /\ post_calls w' = post_calls w ++ [ask_data e model question]
    /\ patch_calls w' = patch_calls w
    /\ sleep_calls w' = sleep_calls w
    /\ forall s, answer = Some s ->
         trimmed s
         /\ exists response content,
              post_chat_completions e
                (Printed (lit "Asking AI expert: " ++ question) :: w)
                (ask_data e model question) = Ret response
              /\ status_code response = 200
              /\ message_content response = Ret content
              /\ s = strip content.
Proof.
  unfold ask_question. unfold_M.
  destruct (post_chat_completions e
              (Printed (lit "Asking AI expert: " ++ question) :: w)
              (ask_data e model question)) as [response|ex] eqn:P.
  - destruct (status_code response =? 200) eqn:S.
    + apply Z.eqb_eq in S.
      destruct (message_content response) as [content|ex] eqn:C.
      * do 2 eexists. split; [reflexivity|]. repeat split.
        -- injection H as <-. apply strip_trimmed.
        -- injection H as <-. exists response, content. auto.
      * destruct (str_in (lit "Connection") (str_of_exn ex));
          [|destruct (str_in (lit "SSLError") (str_of_exn ex))];
          do 2 eexists; (split; [reflexivity|]); repeat split;
          discriminate.
    + destruct (status_code response =? 401);
        [|destruct (status_code response =? 429);
          [|destruct (status_code response =? 500)]];
        do 2 eexists; (split; [reflexivity|]); repeat split; discriminate.
  - destruct (str_in (lit "Connection") (str_of_exn ex));
      [|destruct (str_in (lit "SSLError") (str_of_exn ex))];
      do 2 eexists; (split; [reflexivity|]); repeat split; discriminate.
Qed.

(** X7. [ask_question] sends exactly one request whatever the outcome
    (there is no retry), issues no update and takes no pause; an answer
    it returns is the provider's message with the white space at both
    ends removed, so it neither begins nor ends with white space. *)
Theorem ask_question_single_request (e : env) (model question : str)
    (w : world) :
  exists answer w',
    ask_question e model question w = (Ret answer, w')
    /\ post_calls w' = post_calls w ++ [ask_data e model question]
    /\ patch_calls w' = patch_calls w
    /\ sleep_calls w' = sleep_calls w
    /\ forall s, answer = Some s ->
         trimmed s
         /\ exists response content,
              post_chat_completions e
                (Printed (lit "Asking AI expert: " ++ question) :: w)
                (ask_data e model question) = Ret response
              /\ status_code response = 200
              /\ message_content response = Ret content
              /\ s = strip content.
Proof. apply ask_question_effects. Qed.

Lemma str_in_refl (s : str) : str_in s s = true.
Proof.
  apply startswith_str_in. rewrite <- (app_nil_r s) at 1.
  apply startswith_app.
Qed.

Lemma len_firstn {A} (n : nat) (l : list A) :
  len (firstn n l) = Z.min (Z.of_nat n) (len l).
Proof. unfold len. rewrite length_firstn. lia. Qed.

(** X8. A prompt carries the question (or the task name) in full but
    only a bounded slice of the knowledge: the advisory prompt depends on
    the knowledge through its first 3000 characters only, the enrichment
    prompt through the first 1500 of the path text, and the length of
    each prompt is a fixed overhead plus that slice plus the question or
    task name. *)
Theorem prompts_truncate_knowledge (knowledge question : str) :
  ask_prompt knowledge question = ask_prompt (firstn 3000 knowledge) question
  /\ str_in question (ask_prompt knowledge question) = true
  /\ len (ask_prompt knowledge question)
     = 487 + Z.min 3000 (len knowledge) + len question
  /\ enrich_prompt question knowledge
     = enrich_prompt question (firstn 1500 knowledge)
  /\ str_in question (enrich_prompt question knowledge) = true
  /\ len (enrich_prompt question knowledge)
     = 943 + Z.min 1500 (len knowledge) + len question.
Proof.
  repeat apply conj.
  - unfold ask_prompt. now rewrite firstn_firstn.
  - unfold ask_prompt. cbn [join_lines].
    do 12 apply str_in_app_r. apply str_in_app_l, str_in_app_r, str_in_refl.
  - unfold ask_prompt. cbn [join_lines]. unfold nl.
    rewrite !len_app, len_firstn. unfold len.
    cbn [length lit list_ascii_of_string]. lia.
  - unfold enrich_prompt. now rewrite firstn_firstn.
  - unfold enrich_prompt. cbn [join_lines].
    do 4 apply str_in_app_r. apply str_in_app_l, str_in_app_r, str_in_refl.
  - unfold enrich_prompt. cbn [join_lines]. unfold nl.
    rewrite !len_app, len_firstn. unfold len.
    cbn [length lit list_ascii_of_string]. lia.
Qed.

(** ** Selection, upcoming tasks and bulk reassignment *)

(** X9. Whatever the limit, the tasks selected for enrichment are an
    initial segment of the incomplete tasks in fetched order; a negative
    limit [n] keeps all of them but the last [-n]. *)
Theorem select_tasks_prefix (limit : option Z) (tasks : list task) :
  let incomplete := filter (fun t => negb (is_completed t)) tasks in
  (exists rest, incomplete = select_tasks limit tasks ++ rest)
  /\ (forall t, In t (select_tasks limit tasks) ->
        In t tasks /\ is_completed t = false)
  /\ (forall n, limit = Some n -> n < 0 ->
        len (select_tasks limit tasks) = Z.max 0 (len incomplete + n)).
Proof.
  intros incomplete. repeat apply conj.
  - unfold select_tasks, slice_to. fold incomplete.
    destruct (limit_set limit); [|exists []; now rewrite app_nil_r].
    destruct (0 <=? get_or limit 0); eexists; symmetry; apply firstn_skipn.
  - intros t. apply select_tasks_In.
  - intros n -> Hn. unfold select_tasks, slice_to. fold incomplete.
    cbn [limit_set get_or].
    replace (n =? 0) with false by (symmetry; apply Z.eqb_neq; lia).
    replace (0 <=? n) with false by (symmetry; apply Z.leb_gt; lia).
    cbn [negb]. rewrite len_firstn. unfold len. lia.
Qed.

Lemma select_tasks_prefix_witness :
  len (select_tasks (Some (-1)) open_tasks)
  = Z.max 0 (len (filter (fun t => negb (is_completed t)) open_tasks) + -1).
Proof.
  apply (proj2 (proj2 (select_tasks_prefix (Some (-1)) open_tasks)) (-1)
           eq_refl).
  lia.
Defined.


Lemma lower_char_idempotent (c : ascii) :
  lower_char (lower_char c) = lower_char c.
Proof. destruct c as [[] [] [] [] [] [] [] []]; reflexivity. Qed.

Lemma lower_idempotent (s : str) : lower (lower s) = lower s.
Proof.
  unfold lower. rewrite map_map. apply map_ext, lower_char_idempotent.
Qed.

(** X11. The assignee is the first user, in the order of the user list,
    whose lower-cased name contains the lower-cased query; the case of
    the query does not matter, and an empty query matches the first user
    of the list. *)
Theorem assignee_resolution (users : list user) (assignee_name : str) :
  (forall g,
     find_assignee users assignee_name = Some g <->
     exists before u after,
       users = before ++ u :: after
       /\ g = u_gid u
       /\ str_in (lower assignee_name) (lower (u_name u)) = true
       /\ forall v, In v before ->
            str_in (lower assignee_name) (lower (u_name v)) = false)
  /\ find_assignee users (lower assignee_name)
     = find_assignee users assignee_name
  /\ (forall u rest, users = u :: rest ->
        find_assignee users [] = Some (u_gid u)).
Proof.
  repeat apply conj.
  - induction users as [|u rest IH]; intros g; cbn [find_assignee].
    + split; [discriminate | intros ([|] & ? & ? & ? & _); discriminate].
    + destruct (str_in (lower assignee_name) (lower (u_name u))) eqn:E.
      * split.
        -- intros [= <-]. exists [], u, rest. cbn [app].
           repeat split; auto. intros v [].
        -- intros (before & v & after & Heq & -> & Hm & Hb).
           destruct before as [|x before]; cbn [app] in Heq;
             inversion Heq; subst; auto.
           rewrite (Hb x (or_introl eq_refl)) in E. discriminate.
      * rewrite IH. split.
        -- intros (before & v & after & -> & -> & Hm & Hb).
           exists (u :: before), v, after. cbn [app]. repeat split; auto.
           intros x [<-|Hx]; auto.
        -- intros (before & v & after & Heq & -> & Hm & Hb).
           destruct before as [|x before]; cbn [app] in Heq;
             inversion Heq; subst.
           ++ congruence.
           ++ exists before, v, after. repeat split; auto.
              intros y Hy. apply Hb. right. exact Hy.
  - induction users as [|u rest IH]; cbn [find_assignee]; auto.
    rewrite lower_idempotent, IH. reflexivity.
  - intros u rest ->. cbn [find_assignee lower map].
    now rewrite str_in_nil.
Qed.

Lemma assign_loop_all (e : env) (update_data : patch) (tasks : list task)
    (r : assign_results) (task_id : option str) (w : world) :
  Forall (fun t => gid t <> None) tasks ->
  exists r' task_id' w',
    assign_loop e update_data tasks (r, task_id) w = (Ret (r', task_id'), w')
    /\ patch_calls w'
       = patch_calls w ++ map (fun t => (gid t, update_data)) tasks
    /\ post_calls w' = post_calls w
    /\ success r' + n_failed r' = success r + n_failed r + len tasks
    /\ success r <= success r' /\ n_failed r <= n_failed r'
    /\ map a_id (assigned r')
       = map a_id (assigned r) ++ map (fun t => get_or (gid t) []) tasks
    /\ map a_name (assigned r')
       = map a_name (assigned r)
         ++ map (fun t => get_or (name t) (lit "Unknown task")) tasks.
Proof.
  intros F. revert r task_id w.
  induction F as [|t rest Ht F IH]; intros r task_id w.
  - exists r, task_id, w. cbn [assign_loop map]. unfold ret.
    rewrite !app_nil_r. unfold len; simpl. repeat split; lia.
  - cbn [assign_loop]. unfold bind, assign_task.
    destruct (gid t) as [g|] eqn:G; [|contradiction].
    unfold assign_failed, read_task_id. unfold_M.
    destruct (tasks_update_task e w (Some g) update_data) as [[]|ex];
      match goal with
      | |- context [assign_loop e update_data rest (?r1, ?t1) ?w1] =>
          destruct (IH r1 t1 w1)
            as (r' & tid' & w' & R & P & Q & S & S1 & S2 & I & N);
          rewrite R; exists r', tid', w'
      end;
      cbn [patch_calls post_calls success n_failed assigned] in *;
      rewrite !map_app in I, N; cbn [map a_id a_name] in *;
      rewrite len_cons, P, Q, I, N, G, <- !app_assoc; cbn [get_or app];
      repeat split; lia.
Qed.

(** X12. When the assignee is found and every task carries a gid,
    [bulk_assign_tasks] does not raise and issues exactly one update per
    task, in task order, each with the found user as assignee and with the
    due date when a non-empty one is given; every task ends up as one
    entry of the result, counted as a success or as a failure, and a
    failed update does not stop the loop. *)
Theorem bulk_assign_every_task (e : env) (tasks : list task)
    (assignee_name : str) (due : option str) (w : world)
    (users : list user) (g : str) :
  users_find_all e w = Ret users ->
  find_assignee users assignee_name = Some g ->
  g <> [] ->
  Forall (fun t => gid t <> None) tasks ->
  exists r w',
    bulk_assign_tasks e tasks assignee_name due w = (Ret r, w')
    /\ patch_calls w'
       = patch_calls w ++ map (fun t => (gid t, assignment_patch g due)) tasks
    /\ post_calls w' = post_calls w
    /\ success r + n_failed r = len tasks
    /\ 0 <= success r /\ 0 <= n_failed r
    /\ map a_id (assigned r) = map (fun t => get_or (gid t) []) tasks
    /\ map a_name (assigned r)
       = map (fun t => get_or (name t) (lit "Unknown task")) tasks.
Proof.
  intros U A N F. unfold bulk_assign_tasks. unfold_M. rewrite U, A.
  cbn [get_or]. destruct g as [|c g]; [contradiction|]. cbn [nonempty negb].
  match goal with
  | |- context [assign_loop e ?ud tasks (?r0, ?t0) w] =>
      destruct (assign_loop_all e ud tasks r0 t0 w F)
        as (r' & tid' & w' & R & P & Q & S & S1 & S2 & I & M);
      rewrite R; exists r', w'
  end.
  cbn [success n_failed assigned map app fst] in *.
  repeat split; auto; lia.
Qed.

Lemma bulk_assign_every_task_witness :
  exists r w',
    bulk_assign_tasks sample_users_env three_with_ids (lit "ALICE")
      (Some (lit "2024-06-01")) [] = (Ret r, w')
    /\ patch_calls w'
       = patch_calls []
         ++ map (fun t => (gid t,
                           assignment_patch (lit "501")
                             (Some (lit "2024-06-01")))) three_with_ids
    /\ post_calls w' = post_calls []
    /\ success r + n_failed r = len three_with_ids
    /\ 0 <= success r /\ 0 <= n_failed r
    /\ map a_id (assigned r) = map (fun t => get_or (gid t) []) three_with_ids
    /\ map a_name (assigned r)
       = map (fun t => get_or (name t) (lit "Unknown task")) three_with_ids.
Proof.
  apply (bulk_assign_every_task sample_users_env three_with_ids (lit "ALICE")
           (Some (lit "2024-06-01")) [] sample_users (lit "501")).
  - reflexivity.
  - reflexivity.
  - discriminate.
  - repeat constructor; discriminate.
Defined.

(** X13. A task without a gid is where [bulk_assign_tasks] departs from
    counting failures: when it comes first, the handler reads the local
    [task_id] before any assignment and the call raises, having issued no
    update; when an earlier task had a gid, it is recorded as a failure
    with id [Unknown] and the loop goes on. *)
Theorem bulk_assign_missing_gid (e : env) (t : task) (rest : list task)
    (assignee_name : str) (due : option str) (w : world)
    (users : list user) (g : str) :
  users_find_all e w = Ret users ->
  find_assignee users assignee_name = Some g ->
  g <> [] ->
  gid t = None ->
  (exists ex,
     bulk_assign_tasks e (t :: rest) assignee_name due w = (Raise ex, w))
  /\ forall r previous w1,
       assign_task e (assignment_patch g due) t (r, Some previous) w1
       = (Ret ({| success := success r;
                  n_failed := n_failed r + 1;
                  assigned := assigned r ++
                    [{| a_id := lit "Unknown";
                        a_name := get_or (name t) (lit "Unknown task");
                        a_error := Some (lit "'gid'") |}] |},
               Some previous),
          Printed (lit "❌ Failed to update task: "
                   ++ get_or (name t) previous) :: w1).
Proof.
  intros U A N G. split.
  - unfold bulk_assign_tasks. unfold_M. rewrite U, A.
    cbn [get_or]. destruct g as [|c g]; [contradiction|].
    cbn [nonempty negb assign_loop]. unfold bind, assign_task. rewrite G.
    unfold assign_failed, read_task_id. unfold_M. eexists. reflexivity.
  - intros r previous w1. unfold assign_task, assign_failed, read_task_id.
    unfold_M. rewrite G. cbn [get_or]. reflexivity.
Qed.

Lemma bulk_assign_missing_gid_witness :
  exists ex,
    bulk_assign_tasks sample_users_env (no_gid_task :: three_with_ids)
      (lit "bob") None [] = (Raise ex, []).
Proof.
  apply (proj1 (bulk_assign_missing_gid sample_users_env no_gid_task
                  three_with_ids (lit "bob") None [] sample_users (lit "502")
                  eq_refl eq_refl ltac:(discriminate) eq_refl)).
Defined.

(** ** Start-up and the phase mapping *)

Lemma mem_existsb {V} (k : str) (d : Dict.t V) :
  Dict.mem k d = existsb (str_eqb k) (Dict.keys d).
Proof.
  unfold Dict.mem, Dict.keys.
  induction d as [|[k' v] d IH]; cbn [Dict.get map fst existsb]; auto.
  destruct (str_eqb k k'); auto.
Qed.

Lemma keys_store_phases (matches : list (str * str * str))
    (phases : Dict.t phase) :
  Dict.keys (store_phases matches phases)
  = Dict.keys phases
    ++ first_occurrences (Dict.keys phases)
         (map (fun m => fst (fst m)) matches).
Proof.
  revert phases.
  induction matches as [|[[num nm] tl] rest IH]; intros phases;
    cbn [store_phases map first_occurrences fst].
  - now rewrite app_nil_r.
  - rewrite IH, keys_set, <- mem_existsb.
    destruct (Dict.mem num phases); [reflexivity|].
    now rewrite <- app_assoc.
Qed.

Lemma first_occurrences_incl (seen l : list str) (k : str) :
  In k (first_occurrences seen l) -> In k l.
Proof.
  revert seen. induction l as [|x l IH]; intros seen;
    cbn [first_occurrences In]; auto.
  destruct (existsb (str_eqb x) seen).
  - intros H. right. eapply IH, H.
  - intros [->|H]; [left; reflexivity | right; eapply IH, H].
Qed.

Lemma first_occurrences_length (seen l : list str) :
  (length (first_occurrences seen l) <= length l)%nat.
Proof.
  revert seen. induction l as [|x l IH]; intros seen;
    cbn [first_occurrences length]; auto.
  destruct (existsb (str_eqb x) seen); cbn [length].
  - specialize (IH seen). lia.
  - specialize (IH (seen ++ [x])). lia.
Qed.

(** X14. The keys of the parsed mapping are the captured phase numbers
    in the order in which each first appears in the blob, each a
    non-empty string of decimal digits (so [1] and [01] are two phases),
    and the start-up block returns this mapping after printing how many
    distinct numbers it holds, or that none was found. *)
Theorem parsed_keys_in_blob_order (blob : str) (w : world) :
  Dict.keys (parse_phases blob)
  = first_occurrences [] (captured_numbers blob)
  /\ (forall k, In k (Dict.keys (parse_phases blob)) ->
        k <> [] /\ forallb is_digit k = true)
  /\ len (parse_phases blob) <= len (findall blob)
  /\ load_implementation_phases blob w
     = (Ret (parse_phases blob),
        Printed (if any_item (findall blob)
                 then lit "Found " ++ str_of_Z (len (parse_phases blob))
                      ++ lit " implementation phases in Path.txt"
                 else lit "No phase information found in Path.txt") :: w).
Proof.
  assert (K : Dict.keys (parse_phases blob)
              = first_occurrences [] (captured_numbers blob)).
  { unfold parse_phases, captured_numbers. now rewrite keys_store_phases. }
  repeat apply conj.
  - exact K.
  - intros k Hk. rewrite K in Hk. apply first_occurrences_incl in Hk.
    unfold captured_numbers in Hk. apply in_map_iff in Hk.
    destruct Hk as ([[num nm] tl] & E & Hin). cbn [fst] in E. subst num.
    destruct (findall_from_sound _ _ _ _ _ Hin)
      as (before & s & rest & _ & M).
    apply match_phase_sound in M.
    destruct M as (ws & _ & Nn & D & _). auto.
  - unfold len.
    replace (length (parse_phases blob))
      with (length (Dict.keys (parse_phases blob)))
      by (unfold Dict.keys; apply length_map).
    rewrite K. unfold captured_numbers.
    pose proof (first_occurrences_length []
                  (map (fun m => fst (fst m)) (findall blob))) as L.
    rewrite length_map in L. lia.
  - unfold load_implementation_phases, parse_phases. unfold_M.
    destruct (findall blob); reflexivity.
Qed.

Example parse_phases_leading_zero :
  parse_phases (lit "PHASE 1: a (x) PHASE 01: b (y) PHASE 1: c (z)")
  = [ (lit "1", phase_of_match (lit "c") (lit "z"));
      (lit "01", phase_of_match (lit "b") (lit "y")) ].
Proof. reflexivity. Qed.

Lemma group_no_phases (tasks : list task) (phases : Dict.t bucket) :
  group_by_phase [] tasks phases = phases.
Proof.
  revert phases. induction tasks as [|t rest IH]; intros phases;
    cbn [group_by_phase assign_phase]; auto.
Qed.

(** X15. When the knowledge holds no heading, the phase mapping is empty,
    the start-up block says that no phase information was found, and
    every status returned reports no phase at all, whatever the task
    names; this is the case when [Path.txt] cannot be read, the knowledge
    then being the placeholder sentence. *)
Theorem no_heading_no_phase_report (e : env) :
  ((forall before s k phase_name timeline rest,
      DOMAIN_KNOWLEDGE e = before ++ s ->
      ~ heading k phase_name timeline rest s) ->
   IMPLEMENTATION_PHASES e = []
   /\ (forall w,
         load_implementation_phases (DOMAIN_KNOWLEDGE e) w
         = (Ret [], Printed (lit "No phase information found in Path.txt")
                    :: w))
   /\ forall w w' st,
        get_task_status e w = (Ret (Some st), w') -> st_phases st = [])
  /\ (forall w ex,
        read_path_txt e w = Raise ex ->
        exists w',
          load_domain_knowledge e w = (Ret placeholder_knowledge, w'))
  /\ (DOMAIN_KNOWLEDGE e = placeholder_knowledge ->
      IMPLEMENTATION_PHASES e = []
      /\ forall w w' st,
           get_task_status e w = (Ret (Some st), w') -> st_phases st = []).
Proof.
  assert (E : IMPLEMENTATION_PHASES e = [] ->
              forall w w' st,
                get_task_status e w = (Ret (Some st), w') ->
                st_phases st = []).
  { intros Z w w' st R.
    destruct (get_task_status_inv _ _ _ _ R) as (tasks & ->).
    cbn [st_phases summarize]. rewrite Z. cbn [Dict.keys map].
    rewrite group_no_phases. reflexivity. }
  repeat apply conj.
  - intros H.
    assert (F : findall (DOMAIN_KNOWLEDGE e) = []).
    { apply findall_from_nil. intros before s Hs.
      destruct (match_phase s) as [[[[num nm] tl] rest]|] eqn:M; auto.
      exfalso. apply (H before s num nm tl rest Hs).
      now apply match_phase_sound. }
    assert (Z : IMPLEMENTATION_PHASES e = []).
    { unfold IMPLEMENTATION_PHASES, parse_phases. rewrite F. reflexivity. }
    split; [exact Z|]. split; [|exact (E Z)].
    intros w. unfold load_implementation_phases. rewrite F. reflexivity.
  - intros w ex R. unfold load_domain_knowledge. unfold_M. rewrite R.
    eexists. reflexivity.
  - intros D.
    assert (Z : IMPLEMENTATION_PHASES e = []).
    { unfold IMPLEMENTATION_PHASES. rewrite D. reflexivity. }
    split; [exact Z | exact (E Z)].
Qed.

Lemma no_heading_no_phase_report_witness :
  (exists st,
     get_task_status
       (sample_env placeholder_knowledge (Ret ten_tasks) (Ret [])
          (Ret (ok_response "ok"))) [] = (Ret (Some st), [])
     /\ st_total st = 10)
  /\ IMPLEMENTATION_PHASES
       (sample_env placeholder_knowledge (Ret ten_tasks) (Ret [])
          (Ret (ok_response "ok"))) = []
  /\ forall w w' st,
       get_task_status
         (sample_env placeholder_knowledge (Ret ten_tasks) (Ret [])
            (Ret (ok_response "ok"))) w = (Ret (Some st), w') ->
       st_phases st = [].
Proof.
  split; [eexists; split; reflexivity|].
  apply (proj2 (proj2 (no_heading_no_phase_report
                         (sample_env placeholder_knowledge (Ret ten_tasks)
                            (Ret []) (Ret (ok_response "ok")))))).
  reflexivity.
Defined.

(** ** The batch entry point and the interactive session *)

Lemma print_task_names_calls (tasks : list task) (w : world) :
  exists w',
    print_task_names tasks w = (Ret tt, w')
    /\ patch_calls w' = patch_calls w /\ post_calls w' = post_calls w
    /\ printed w'
       = printed w
         ++ map (fun t => lit "- " ++ get_or (name t) (lit "Unnamed task"))
              tasks.
Proof.
  revert w. induction tasks as [|t rest IH]; intros w;
    cbn [print_task_names map].
  - exists w. unfold ret. now rewrite app_nil_r.
  - unfold_M.
    destruct (IH (Printed (lit "- " ++ get_or (name t) (lit "Unnamed task"))
                  :: w)) as (w' & R & P & Q & L).
    exists w'. rewrite R. cbn [patch_calls post_calls printed] in *.
    rewrite L, <- app_assoc. auto.
Qed.

(** X16. [process_tasks] never raises: it runs the enrichment batch with
    the limit it was given, then lists the incomplete tasks due within
    seven days, one line per task, or says that there is none; the listing
    adds no provider request and no update to those of the batch. *)
Theorem process_tasks_runs_both (e : env) (model : str) (limit : option Z)
    (w : world) :
  let started :=
    Printed (lit "Processing tasks from Asana project " ++ ASANA_PROJECT_ID e)
    :: w in
  exists w1 upcoming w2 w',
    enrich_task_descriptions e model limit started = (Ret None, w1)
    /\ get_upcoming_tasks e 7 w1 = (Ret upcoming, w2)
    /\ process_tasks e model limit w = (Ret tt, w')
    /\ patch_calls w' = patch_calls w1
    /\ post_calls w' = post_calls w1
    /\ printed w'
       = printed w2
         ++ (if any_item upcoming
             then (lit "Found " ++ str_of_Z (len upcoming)
                   ++ lit " upcoming tasks")
                  :: map (fun t => lit "- "
                                   ++ get_or (name t) (lit "Unnamed task"))
                       upcoming
             else [lit "No upcoming tasks found"]).
Proof.
  intros started.
  destruct (enrich_returns_none e model limit started) as (w1 & R1).
  destruct (get_upcoming_tasks_catches e 7 w1) as (upcoming & w2 & R2).
  assert (C : patch_calls w2 = patch_calls w1 /\ post_calls w2 = post_calls w1).
  { revert R2. unfold get_upcoming_tasks, fetch_tasks. unfold_M.
    destruct (get_tasks_for_project e w1 (ASANA_PROJECT_ID e) _);
      intros [= _ <-]; split; reflexivity. }
  destruct C as [C1 C2].
  exists w1, upcoming, w2.
  cut (exists w',
         process_tasks e model limit w = (Ret tt, w')
         /\ patch_calls w' = patch_calls w1
         /\ post_calls w' = post_calls w1
         /\ printed w'
            = printed w2
              ++ (if any_item upcoming
                  then (lit "Found " ++ str_of_Z (len upcoming)
                        ++ lit " upcoming tasks")
                       :: map (fun t => lit "- "
                                        ++ get_or (name t) (lit "Unnamed task"))
                            upcoming
                  else [lit "No upcoming tasks found"])).
  { intros (w' & H). exists w'. auto. }
  unfold process_tasks, try_except, bind. fold started.
  unfold print at 1, emit. fold started. rewrite R1, R2.
  destruct upcoming as [|t rest]; cbn [any_item].
  - eexists. split; [reflexivity|].
    cbn [patch_calls post_calls printed]. auto.
  - unfold print at 1, emit.
    destruct (print_task_names_calls (t :: rest)
                (Printed (lit "Found " ++ str_of_Z (len (t :: rest))
                          ++ lit " upcoming tasks") :: w2))
      as (w' & R & P & Q & L).
    exists w'. rewrite R. split; [reflexivity|].
    cbn [patch_calls post_calls printed] in *.
    rewrite P, Q, L, <- app_assoc. auto.
Qed.

Section Session.

Variable e : env.
Variable model : str.

Lemma question_step (question : str) (w : world) :
  exists w1,
    patch_calls w1 = patch_calls w
    /\ post_calls w1 = post_calls w ++ [ask_data e model question]
    /\ forall (k : M (list str)),
         (response <- ask_question e model question ;;
          (if nonempty (get_or response []) then
             print (nl ++ lit "--- RESPONSE FROM AI EXPERT ---") ;;;
             print (get_or response []) ;;;
             print (lit "-------------------------------------")
           else
             print (lit "Failed to get a response")) ;;;
          k) w = k w1.
Proof.
  destruct (ask_question_effects e model question w)
    as (answer & w0 & R & Q & P & _).
  destruct (nonempty (get_or answer [])) eqn:N.
  - eexists. split; [|split]; [| |intros k; unfold bind at 1; rewrite R;
      rewrite N; unfold bind, print, emit; reflexivity];
      cbn [patch_calls post_calls]; assumption.
  - eexists. split; [|split]; [| |intros k; unfold bind at 1; rewrite R;
      rewrite N; unfold bind, print, emit; reflexivity];
      cbn [patch_calls post_calls]; assumption.
Qed.

Lemma question_loop_until_exit (questions : list str) (exit_word : str)
    (rest : list str) (w : world) :
  is_exit_word exit_word = true ->
  Forall (fun q => is_exit_word q = false) questions ->
  exists w',
    question_loop e model (questions ++ exit_word :: rest) w = (Ret rest, w')
    /\ post_calls w' = post_calls w ++ map (ask_data e model) questions
    /\ patch_calls w' = patch_calls w.
Proof.
  intros X F. revert w. induction F as [|q qs Hq F IH]; intros w;
    cbn [app question_loop map].
  - unfold bind at 1, print, emit. rewrite X. eexists.
    split; [reflexivity|]. cbn [post_calls patch_calls].
    now rewrite app_nil_r.
  - unfold bind at 1, print at 1, emit. rewrite Hq.
    match goal with
    | |- context [bind (ask_question e model q) _ ?w0] =>
        destruct (question_step q w0) as (w1 & P & Q & K)
    end.
    rewrite K. destruct (IH w1) as (w' & R & Q' & P').
    exists w'. split; [exact R|]. rewrite Q', P', Q, P.
    cbn [post_calls patch_calls]. now rewrite <- app_assoc.
Qed.

Lemma question_loop_end_of_input (questions : list str) (w : world) :
  Forall (fun q => is_exit_word q = false) questions ->
  exists ex w',
    question_loop e model questions w = (Raise ex, w')
    /\ post_calls w' = post_calls w ++ map (ask_data e model) questions.
Proof.
  intros F. revert w. induction F as [|q qs Hq F IH]; intros w;
    cbn [question_loop map].
  - unfold bind, print, emit, raise. do 2 eexists.
    split; [reflexivity|]. cbn [post_calls]. now rewrite app_nil_r.
  - unfold bind at 1, print at 1, emit. rewrite Hq.
    match goal with
    | |- context [bind (ask_question e model q) _ ?w0] =>
        destruct (question_step q w0) as (w1 & P & Q & K)
    end.
    rewrite K. destruct (IH w1) as (ex & w' & R & Q').
    exists ex, w'. split; [exact R|]. rewrite Q', Q.
    cbn [post_calls]. now rewrite <- app_assoc.
Qed.

End Session.

(** X17. In the interactive session the first line chooses the model,
    [gpt-4] only when it is [2] up to surrounding white space; every
    later line up to the first exit word is sent to the provider as one
    question, in order, the lines after the exit word are left unread,
    and no update is issued.  The exit words are recognised whatever
    their case; when the input ends before one, the session raises after
    having asked every line. *)
Theorem session_asks_until_exit (e : env) (choice : str)
    (questions : list str) (w : world) :
  Forall (fun q => is_exit_word q = false) questions ->
  (forall exit_word rest,
     is_exit_word exit_word = true ->
     exists w',
       interactive_session e (choice :: questions ++ exit_word :: rest) w
       = (Ret rest, w')
       /\ post_calls w'
          = post_calls w ++ map (ask_data e (chosen_model choice)) questions
       /\ patch_calls w' = patch_calls w)
  /\ (exists ex w',
        interactive_session e (choice :: questions) w = (Raise ex, w')
        /\ post_calls w'
           = post_calls w ++ map (ask_data e (chosen_model choice)) questions)
  /\ (exists ex w', interactive_session e [] w = (Raise ex, w'))
  /\ (forall q, is_exit_word (lower q) = is_exit_word q).
Proof.
  intros F. repeat apply conj.
  - intros exit_word rest X.
    unfold interactive_session, input, new_assistant. unfold_M.
    fold (chosen_model choice). cbn [fst snd].
    match goal with
    | |- context [question_loop e ?m ?l ?w0] =>
        destruct (question_loop_until_exit e m questions exit_word rest w0
                    X F) as (w' & R & Q & P)
    end.
    rewrite R. eexists. split; [reflexivity|].
    cbn [post_calls patch_calls] in *. auto.
  - unfold interactive_session, input, new_assistant. unfold_M.
    fold (chosen_model choice). cbn [fst snd].
    match goal with
    | |- context [question_loop e ?m ?l ?w0] =>
        destruct (question_loop_end_of_input e m questions w0 F)
          as (ex & w' & R & Q)
    end.
    rewrite R. do 2 eexists. split; [reflexivity|].
    cbn [post_calls] in *. auto.
  - unfold interactive_session, input. unfold_M. do 2 eexists. reflexivity.
  - intros q. unfold is_exit_word. now rewrite lower_idempotent.
Qed.

Lemma session_asks_until_exit_witness :
  exists w',
    interactive_session sample_enrich_env
      (lit " 2 " :: [lit "What next?"; lit " exit"] ++ lit "QUIT" :: [lit "x"])
      []
    = (Ret [lit "x"], w')
    /\ post_calls w'
       = post_calls []
         ++ map (ask_data sample_enrich_env (chosen_model (lit " 2 ")))
              [lit "What next?"; lit " exit"]
    /\ patch_calls w' = patch_calls [].
Proof.
  apply (proj1 (session_asks_until_exit sample_enrich_env (lit " 2 ")
                  [lit "What next?"; lit " exit"] []
                  ltac:(repeat constructor))).
  reflexivity.
Defined.

(** ** The chat surface *)

Lemma insert_item_Forall {V} (P : str * V -> Prop) (kv : str * V)
    (l : list (str * V)) :
  P kv -> Forall P l -> Forall P (insert_item kv l).
Proof.
  intros Hk. induction 1 as [|x l Hx Hl IH]; cbn [insert_item].
  - repeat constructor; auto.
  - destruct (str_ltb (fst kv) (fst x)); repeat constructor; auto.
Qed.

Lemma sorted_items_Forall {V} (P : str * V -> Prop) (d : Dict.t V) :
  Forall P d -> Forall P (sorted_items d).
Proof.
  unfold sorted_items. induction 1 as [|x l Hx Hl IH]; cbn [fold_right].
  - constructor.
  - now apply insert_item_Forall.
Qed.

Lemma phase_lines_defined (known : Dict.t phase) (items : list (str * bucket)) :
  Forall (fun kv => b_percentage (snd kv) <> None) items ->
  exists lines, phase_lines known items = Ret lines.
Proof.
  induction 1 as [|[k b] l Hx Hl [lines IH]]; cbn [phase_lines].
  - eexists; reflexivity.
  - unfold subscript_percentage. cbn [snd] in Hx.
    destruct (b_percentage b); [|contradiction].
    rewrite IH. eexists; reflexivity.
Qed.

Lemma summarize_percentages (known : Dict.t phase) (today : str)
    (tasks : list task) :
  Forall (fun kv => b_percentage (snd kv) <> None)
    (st_phases (summarize known today tasks)).
Proof.
  cbn [summarize st_phases]. unfold Dict.map_values.
  apply Forall_forall. intros kv H. apply in_map_iff in H.
  destruct H as (x & <- & _). cbn [snd with_percentage b_percentage].
  discriminate.
Qed.

Lemma status_text_defined (e : env) (w w' : world) (st : status) :
  get_task_status e w = (Ret (Some st), w') ->
  exists text, status_text (IMPLEMENTATION_PHASES e) st = Ret text.
Proof.
  intros R. destruct (get_task_status_inv _ _ _ _ R) as (tasks & ->).
  unfold status_text.
  destruct (any_item _); [|eexists; reflexivity].
  destruct (phase_lines_defined (IMPLEMENTATION_PHASES e)
              (sorted_items (st_phases
                 (summarize (IMPLEMENTATION_PHASES e) (date_after e w 0)
                    tasks))))
    as (lines & L).
  - apply sorted_items_Forall, summarize_percentages.
  - rewrite L. eexists; reflexivity.
Qed.

Lemma get_upcoming_tasks_effects (e : env) (days : Z) (w : world) :
  exists upcoming w',
    get_upcoming_tasks e days w = (Ret upcoming, w')
    /\ patch_calls w' = patch_calls w
    /\ post_calls w' = post_calls w
    /\ sleep_calls w' = sleep_calls w.
Proof.
  unfold get_upcoming_tasks, fetch_tasks. unfold_M.
  destruct (get_tasks_for_project e w (ASANA_PROJECT_ID e) _);
    do 2 eexists; (split; [reflexivity|]); repeat split.
Qed.

Lemma get_task_status_effects (e : env) (w : world) :
  exists st w',
    get_task_status e w = (Ret st, w')
    /\ patch_calls w' = patch_calls w
    /\ post_calls w' = post_calls w
    /\ sleep_calls w' = sleep_calls w.
Proof.
  unfold get_task_status, call_get_tasks, iterate, py_len. unfold_M.
  destruct (tasks_handed_back e);
    destruct (get_tasks_for_project e w (ASANA_PROJECT_ID e) status_fields);
    do 2 eexists; (split; [reflexivity|]); repeat split.
Qed.

(** X18. Whatever its text, a command is acknowledged first and then
    answered: the handler does not raise and says exactly one message,
    or exactly two for an [ask] with a question (the notice and then the
    answer or the apology); an error while the upcoming tasks are listed
    is answered with the error line.  The handler itself never updates a
    task nor pauses, only [ask] calls the provider, and only [ask] can
    change the conversation history. *)
Theorem command_always_answered (e : env) (cmd : command) (s : session) :
  exists s' new_events,
    handle_assistant_command e cmd s = (Ret tt, s')
    /\ chat s' = new_events ++ Acked :: chat s
    /\ length (said new_events)
       = (if str_eqb (subcommand_of (cmd_text cmd)) (lit "ask")
             && nonempty (content_of (cmd_text cmd))
          then 2 else 1)%nat
    /\ BOT_ID s' = BOT_ID s
    /\ patch_calls (process s') = patch_calls (process s)
    /\ sleep_calls (process s') = sleep_calls (process s)
    /\ (subcommand_of (cmd_text cmd) <> lit "ask" ->
        length (said new_events) = 1%nat
        /\ post_calls (process s') = post_calls (process s)
        /\ conversation_history s' = conversation_history s).
Proof.
  unfold handle_assistant_command.
  fold (subcommand_of (cmd_text cmd)). fold (content_of (cmd_text cmd)).
  set (sub := subcommand_of (cmd_text cmd)).
  set (content := content_of (cmd_text cmd)).
  cut (exists s' new_events,
         (let assistant := default_model in
          if str_eqb sub (lit "help") || negb (nonempty sub) then show_help
          else if str_eqb sub (lit "ask") then
            if negb (nonempty content) then
              say (lit "Please provide a question after 'ask'. For example: `/assistant ask What is the next step?`")
            else
              say (lit "Asking the AI Assistant: *" ++ content ++ lit "*" ++ nl
                   ++ lit "Please wait...") ;;~
              response <~ lift (ask_question e assistant content) ;;
              if nonempty (get_or response []) then
                let conversation_key := lit "slack-" ++ cmd_user_id cmd in
                remember conversation_key content (get_or response []) ;;~
                say (get_or response [])
              else
                say (lit "Sorry, I couldn't get an answer to that question. Please try rephrasing.")
          else if str_eqb sub (lit "tasks") then
            ctry
              (upcoming_tasks <~ lift (get_upcoming_tasks e 7) ;;
               if negb (any_item upcoming_tasks) then
                 say (lit "No upcoming tasks found.")
               else
                 lines <~ (fun s => (upcoming_lines upcoming_tasks, s)) ;;
                 say (lit "*Upcoming Tasks:*" ++ nl ++ lines))
              (fun ex => say (lit "Error retrieving tasks: " ++ str_of_exn ex))
          else if str_eqb sub (lit "status") then
            st <~ lift (get_task_status e) ;;
            match st with
            | None => say (lit "Could not retrieve implementation status.")
            | Some st =>
                response <~ (fun s => (status_text (IMPLEMENTATION_PHASES e) st, s)) ;;
                say response
            end
          else if str_eqb sub (lit "enrich") then
            ctry
              (limit <~ (if isdigit content
                         then fun s => (match int_of_str content with
                                        | Ret n => Ret (Some n)
                                        | Raise ex => Raise ex
                                        end, s)
                         else cret None) ;;
               say (lit "Starting task enrichment process"
                    ++ (if limit_set limit
                        then lit " for " ++ str_of_Z (get_or limit 0)
                             ++ lit " tasks"
                        else [])
                    ++ lit ". This may take a few minutes...") ;;~
               tell (ThreadStarted limit (cmd_channel_id cmd)))
              (fun ex => say (lit "Error starting enrichment: " ++ str_of_exn ex))
          else if str_eqb sub (lit "phase") then
            if negb (nonempty content) || negb (isdigit content) then
              say (lit "Please specify a phase number. For example: `/assistant phase 1`")
            else
              match Dict.get content (IMPLEMENTATION_PHASES e) with
              | None =>
                  say (lit "Phase " ++ content
                       ++ lit " not found in the implementation plan.")
              | Some ph => say (phase_text ph)
              end
          else
            say (lit "Unknown command: " ++ sub ++ nl
                 ++ lit "Type `/assistant help` to see available commands."))
           (acknowledged s) = (Ret tt, s')
         /\ chat s' = new_events ++ chat (acknowledged s)
         /\ length (said new_events)
            = (if str_eqb sub (lit "ask") && nonempty content
               then 2 else 1)%nat
         /\ BOT_ID s' = BOT_ID s
         /\ patch_calls (process s') = patch_calls (process s)
         /\ sleep_calls (process s') = sleep_calls (process s)
         /\ (sub <> lit "ask" ->
             length (said new_events) = 1%nat
             /\ post_calls (process s') = post_calls (process s)
             /\ conversation_history s' = conversation_history s)).
  { intros (s' & new & R & H). exists s', new. split; [|exact H].
    rewrite <- R. reflexivity. }
  cbv zeta.
  destruct (str_eqb sub (lit "ask")) eqn:Ask.
  { apply str_eqb_eq in Ask. rewrite Ask.
    change (str_eqb (lit "ask") (lit "help")
            || negb (nonempty (lit "ask"))) with false.
    cbv iota. cbn [andb].
    destruct (nonempty content); cbn [negb].
    2:{ unfold_C. one_reply; congruence. }
    unfold_C. cbn [process chat conversation_history BOT_ID].
    match goal with
    | |- context [ask_question e ?m ?q ?w0] =>
        destruct (ask_question_effects e m q w0)
          as (answer & w1 & R & Q & P & S & _)
    end.
    rewrite R. cbn [process chat conversation_history BOT_ID].
    destruct (nonempty (get_or answer [])).
    - one_reply; congruence.
    - one_reply; congruence. }
  cbn [andb].
  destruct (str_eqb sub (lit "help") || negb (nonempty sub)).
  { unfold_C. one_reply. }
  destruct (str_eqb sub (lit "tasks")).
  { unfold_C. cbn [process chat conversation_history BOT_ID].
    match goal with
    | |- context [get_upcoming_tasks e 7 ?w0] =>
        destruct (get_upcoming_tasks_effects e 7 w0)
          as (upcoming & w1 & R & P & Q & S)
    end.
    rewrite R. cbn [process chat conversation_history BOT_ID].
    destruct (negb (any_item upcoming)); [one_reply|].
    destruct (upcoming_lines upcoming); one_reply. }
  destruct (str_eqb sub (lit "status")).
  { unfold_C. cbn [process chat conversation_history BOT_ID].
    match goal with
    | |- context [get_task_status e ?w0] =>
        destruct (get_task_status_effects e w0)
          as (st & w1 & R & P & Q & S)
    end.
    rewrite R. cbn [process chat conversation_history BOT_ID].
    destruct st as [st|]; [|one_reply].
    destruct (status_text_defined e _ _ _ R) as (text & T). rewrite T.
    one_reply. }
  destruct (str_eqb sub (lit "enrich")).
  { unfold_C. destruct (isdigit content); [|one_reply].
    destruct (int_of_str content); one_reply. }
  destruct (str_eqb sub (lit "phase")).
  { unfold_C. destruct (negb (nonempty content) || negb (isdigit content));
      [one_reply|].
    destruct (Dict.get content (IMPLEMENTATION_PHASES e)); one_reply. }
  unfold_C. one_reply.
Qed.

Lemma remember_history (key question answer : str) (s : session) :
  exists s',
    remember key question answer s = (Ret tt, s')
    /\ process s' = process s /\ chat s' = chat s /\ BOT_ID s' = BOT_ID s
    /\ Dict.get key (conversation_history s')
       = Some (history_of key s ++ exchange question answer)
    /\ forall k, k <> key ->
         Dict.get k (conversation_history s')
         = Dict.get k (conversation_history s).
Proof.
  unfold remember. eexists. split; [reflexivity|].
  cbn [process chat BOT_ID conversation_history].
  repeat split.
  - rewrite !DictFacts.get_update_same. unfold history_of, Dict.mem, exchange.
    destruct (Dict.get key (conversation_history s)) as [l|] eqn:G.
    + rewrite G. cbn [option_map get_or]. now rewrite <- app_assoc.
    + rewrite DictFacts.get_set_same. reflexivity.
  - intros k N. rewrite !DictFacts.get_update_other by exact N.
    unfold Dict.mem.
    destruct (Dict.get key (conversation_history s)); auto.
    now apply DictFacts.get_set_other.
Qed.

(** X19. An [ask] command without a question gets the usage line and
    calls nobody.  With a question the provider is called once, with the
    text after the first space as it stands; a non-empty answer is said
    and appended, after the question, to the history kept for that user,
    the histories of other users staying as they were; no answer, or an
    empty one, gets the apology and leaves every history untouched. *)
Theorem ask_command_history (e : env) (cmd : command) (s : session) :
  subcommand_of (cmd_text cmd) = lit "ask" ->
  let question := content_of (cmd_text cmd) in
  let key := lit "slack-" ++ cmd_user_id cmd in
  let notice := lit "Asking the AI Assistant: *" ++ question ++ lit "*" ++ nl
                ++ lit "Please wait..." in
  (question = [] ->
   exists s',
     handle_assistant_command e cmd s = (Ret tt, s')
     /\ said (chat s')
        = said (chat s)
          ++ [lit "Please provide a question after 'ask'. For example: `/assistant ask What is the next step?`"]
     /\ post_calls (process s') = post_calls (process s)
     /\ conversation_history s' = conversation_history s)
  /\ (question <> [] ->
      exists answer s',
        handle_assistant_command e cmd s = (Ret tt, s')
        /\ fst (ask_question e default_model question
                  (process (acknowledged s))) = Ret answer
        /\ post_calls (process s')
           = post_calls (process s) ++ [ask_data e default_model question]
        /\ if nonempty (get_or answer [])
           then said (chat s')
                = said (chat s) ++ [notice; get_or answer []]
                /\ Dict.get key (conversation_history s')
                   = Some (history_of key s
                           ++ exchange question (get_or answer []))
                /\ forall k, k <> key ->
                     Dict.get k (conversation_history s')
                     = Dict.get k (conversation_history s)
           else said (chat s')
                = said (chat s)
                  ++ [notice;
                      lit "Sorry, I couldn't get an answer to that question. Please try rephrasing."]
                /\ conversation_history s' = conversation_history s).
Proof.
  intros Sub question key notice.
  unfold handle_assistant_command.
  fold (subcommand_of (cmd_text cmd)). fold (content_of (cmd_text cmd)).
  rewrite Sub. fold question.
  change (str_eqb (lit "ask") (lit "help") || negb (nonempty (lit "ask")))
    with false.
  change (str_eqb (lit "ask") (lit "ask")) with true. cbv iota.
  split.
  - intros Z. rewrite Z. cbn [nonempty negb]. unfold_C.
    eexists. split; [reflexivity|].
    cbn [chat said process conversation_history post_calls]. auto.
  - intros N.
    assert (NE : nonempty question = true)
      by (destruct question; [contradiction | reflexivity]).
    rewrite NE. cbn [negb]. fold key.
    unfold cbind at 1, ack, tell. unfold cbind at 1, lift at 1.
    unfold new_assistant, bind, print, emit, ret.
    cbn [process chat conversation_history BOT_ID].
    fold (acknowledged s).
    unfold cbind at 1, say at 1, tell.
    unfold cbind at 1, lift at 1.
    cbn [process chat conversation_history BOT_ID].
    destruct (ask_question_effects e default_model question
                (process (acknowledged s)))
      as (answer & w1 & R & Q & _).
    rewrite R. exists answer.
    destruct (nonempty (get_or answer [])) eqn:A.
    + unfold cbind at 1.
      match goal with
      | |- context [remember key question (get_or answer []) ?s0] =>
          destruct (remember_history key question (get_or answer []) s0)
            as (s1 & R1 & P1 & C1 & B1 & H1 & H2)
      end.
      rewrite R1. unfold say, tell.
      eexists. split; [reflexivity|].
      cbn [process chat conversation_history fst] in *.
      rewrite P1, C1. cbn [said]. rewrite <- !app_assoc.
      repeat split; auto.
    + unfold say, tell. eexists. split; [reflexivity|].
      cbn [process chat conversation_history fst said post_calls] in *.
      rewrite <- !app_assoc. repeat split; auto.
Qed.

Lemma ask_command_history_witness :
  exists answer s',
    handle_assistant_command sample_enrich_env
      (sample_command "Ask  what now?") sample_session = (Ret tt, s')
    /\ fst (ask_question sample_enrich_env default_model
              (content_of (lit "Ask  what now?"))
              (process (acknowledged sample_session))) = Ret answer
    /\ post_calls (process s')
       = post_calls (process sample_session)
         ++ [ask_data sample_enrich_env default_model
               (content_of (lit "Ask  what now?"))]
    /\ if nonempty (get_or answer [])
       then said (chat s')
            = said (chat sample_session)
              ++ [lit "Asking the AI Assistant: *"
                  ++ content_of (lit "Ask  what now?") ++ lit "*" ++ nl
                  ++ lit "Please wait...";
                  get_or answer []]
            /\ Dict.get (lit "slack-" ++ lit "U7") (conversation_history s')
               = Some (history_of (lit "slack-" ++ lit "U7") sample_session
                       ++ exchange (content_of (lit "Ask  what now?"))
                            (get_or answer []))
            /\ forall k, k <> lit "slack-" ++ lit "U7" ->
                 Dict.get k (conversation_history s')
                 = Dict.get k (conversation_history sample_session)
       else said (chat s')
            = said (chat sample_session)
              ++ [lit "Asking the AI Assistant: *"
                  ++ content_of (lit "Ask  what now?") ++ lit "*" ++ nl
                  ++ lit "Please wait...";
                  lit "Sorry, I couldn't get an answer to that question. Please try rephrasing."]
            /\ conversation_history s' = conversation_history sample_session.
Proof.
  apply (proj2 (ask_command_history sample_enrich_env
                  (sample_command "Ask  what now?") sample_session
                  eq_refl)).
  vm_compute. discriminate.
Defined.

(** X20. The reply of a [phase] command: the usage line unless the
    content is a non-empty string of digits; otherwise the content is
    looked up as it is typed, and the reply is the name and the timeline
    of the last heading of the knowledge blob with exactly that number,
    between asterisks and with nothing after them (no description, key
    activity or deliverable is ever shown), or the line saying that the
    phase is not found. *)
Theorem phase_command_reply (e : env) (cmd : command) (s : session) :
  subcommand_of (cmd_text cmd) = lit "phase" ->
  let content := content_of (cmd_text cmd) in
  exists s',
    handle_assistant_command e cmd s = (Ret tt, s')
    /\ said (chat s')
       = said (chat s)
         ++ [if negb (nonempty content) || negb (isdigit content)
             then lit "Please specify a phase number. For example: `/assistant phase 1`"
             else match last_match content (findall (DOMAIN_KNOWLEDGE e)) with
                  | Some (phase_name, timeline) =>
                      lit "*" ++ phase_name ++ lit " (" ++ timeline
                      ++ lit ")*" ++ nl
                  | None =>
                      lit "Phase " ++ content
                      ++ lit " not found in the implementation plan."
                  end].
Proof.
  intros Sub content.
  unfold handle_assistant_command.
  fold (subcommand_of (cmd_text cmd)). fold (content_of (cmd_text cmd)).
  rewrite Sub. fold content.
  change (str_eqb (lit "phase") (lit "help")
          || negb (nonempty (lit "phase"))) with false.
  change (str_eqb (lit "phase") (lit "ask")) with false.
  change (str_eqb (lit "phase") (lit "tasks")) with false.
  change (str_eqb (lit "phase") (lit "status")) with false.
  change (str_eqb (lit "phase") (lit "enrich")) with false.
  change (str_eqb (lit "phase") (lit "phase")) with true. cbv iota.
  unfold IMPLEMENTATION_PHASES, parse_phases. rewrite get_store_phases.
  cbn [Dict.get Dict.empty].
  destruct (negb (nonempty content) || negb (isdigit content)).
  - unfold_C. eexists. split; reflexivity.
  - destruct (last_match content (findall (DOMAIN_KNOWLEDGE e)))
      as [[phase_name timeline]|].
    + unfold_C. eexists. split; [reflexivity|].
      cbn [chat said]. f_equal. unfold phase_text, phase_of_match.
      cbn [ph_name ph_description ph_key_activities ph_deliverables
           nonempty any_item].
      rewrite <- !app_assoc. reflexivity.
    + unfold_C. eexists. split; reflexivity.
Qed.

Lemma phase_command_reply_witness :
  exists s',
    handle_assistant_command sample_status_env (sample_command "Phase 1")
      sample_session = (Ret tt, s')
    /\ said (chat s') = [lit "*Discovery again (Week 7)*" ++ nl].
Proof.
  exact (phase_command_reply sample_status_env (sample_command "Phase 1")
           sample_session eq_refl).
Defined.

Lemma digits_value_nonneg (s : str) (acc : Z) :
  forallb is_digit s = true -> 0 <= acc ->
  0 <= fold_left (fun acc c => 10 * acc + (code c - 48)) s acc.
Proof.
  revert acc. induction s as [|c rest IH]; intros acc F A; [exact A|].
  cbn [forallb fold_left] in *. apply andb_prop in F. destruct F as [C F].
  apply IH; [exact F|]. unfold is_digit in C. cbv zeta in C.
  apply andb_prop in C. destruct C as [L _]. apply Z.leb_le in L. lia.
Qed.

Lemma int_of_str_nonneg (s : str) (n : Z) : int_of_str s = Ret n -> 0 <= n.
Proof.
  unfold int_of_str. destruct (forallb is_digit s) eqn:F; [|discriminate].
  destruct (4300 <? len s); [discriminate|].
  intros [= <-]. apply digits_value_nonneg; [exact F | lia].
Qed.

(** X21. The limit of an [enrich] command.  A content that is not a
    non-empty string of digits (no content, a word, a negative number)
    starts the worker with no limit; a string of at most 4300 decimal
    digits starts it with that number, which the announcement names
    unless it is 0; a content that passes the digit test but is refused
    as a number, because it holds a superscript digit or more than 4300
    digits, starts no worker and the error is said.  In every case the
    handler returns and says one message. *)
Theorem enrich_command_limit (e : env) (cmd : command) (s : session) :
  subcommand_of (cmd_text cmd) = lit "enrich" ->
  let content := content_of (cmd_text cmd) in
  let plain := lit "Starting task enrichment process. This may take a few minutes..." in
  exists s',
    handle_assistant_command e cmd s = (Ret tt, s')
    /\ post_calls (process s') = post_calls (process s)
    /\ patch_calls (process s') = patch_calls (process s)
    /\ if isdigit content then
         match int_of_str content with
         | Ret n =>
             0 <= n
             /\ len content <= 4300
             /\ forallb is_digit content = true
             /\ threads_started (chat s')
                = threads_started (chat s) ++ [Some n]
             /\ said (chat s')
                = said (chat s)
                  ++ [if n =? 0 then plain
                      else lit "Starting task enrichment process for "
                           ++ str_of_Z n
                           ++ lit " tasks. This may take a few minutes..."]
         | Raise ex =>
             (existsb (fun c => negb (is_digit c)) content = true
              \/ 4300 < len content)
             /\ threads_started (chat s') = threads_started (chat s)
             /\ said (chat s')
                = said (chat s)
                  ++ [lit "Error starting enrichment: " ++ str_of_exn ex]
         end
       else
         threads_started (chat s') = threads_started (chat s) ++ [None]
         /\ said (chat s') = said (chat s) ++ [plain].
Proof.
  intros Sub content plain.
  unfold handle_assistant_command.
  fold (subcommand_of (cmd_text cmd)). fold (content_of (cmd_text cmd)).
  rewrite Sub. fold content.
  change (str_eqb (lit "enrich") (lit "help")
          || negb (nonempty (lit "enrich"))) with false.
  change (str_eqb (lit "enrich") (lit "ask")) with false.
  change (str_eqb (lit "enrich") (lit "tasks")) with false.
  change (str_eqb (lit "enrich") (lit "status")) with false.
  change (str_eqb (lit "enrich") (lit "enrich")) with true. cbv iota.
  destruct (isdigit content) eqn:D.
  - destruct (int_of_str content) as [n|ex] eqn:I.
    + assert (N : 0 <= n) by (eapply int_of_str_nonneg; exact I).
      assert (L : len content <= 4300 /\ forallb is_digit content = true).
      { unfold int_of_str in I.
        destruct (forallb is_digit content); [|discriminate].
        destruct (Z.ltb_spec 4300 (len content)); [discriminate|].
        split; [lia | reflexivity]. }
      destruct L as [L1 L2].
      unfold_C. eexists. split; [reflexivity|].
      cbn [process chat said threads_started post_calls patch_calls
           limit_set get_or].
      destruct (n =? 0); cbn [negb]; rewrite <- ?app_assoc;
        repeat split; auto.
    + unfold_C. eexists. split; [reflexivity|].
      cbn [process chat said threads_started post_calls patch_calls].
      repeat split; auto.
      unfold int_of_str in I.
      destruct (forallb is_digit content) eqn:F.
      * destruct (Z.ltb_spec 4300 (len content)); [|discriminate].
        right. assumption.
      * left. clear - F. induction content as [|c rest IH]; [discriminate|].
        cbn [forallb existsb] in *.
        destruct (is_digit c); cbn [negb andb orb] in *; auto.
  - unfold_C. eexists. split; [reflexivity|].
    cbn [process chat said threads_started post_calls patch_calls
         limit_set]. repeat split; auto.
Qed.

Lemma enrich_command_limit_witness :
  exists s',
    handle_assistant_command sample_status_env (sample_command "enrich 0")
      sample_session = (Ret tt, s')
    /\ post_calls (process s') = []
    /\ patch_calls (process s') = []
    /\ 0 <= 0
    /\ len (lit "0") <= 4300
    /\ forallb is_digit (lit "0") = true
    /\ threads_started (chat s') = [Some 0]
    /\ said (chat s')
       = [lit "Starting task enrichment process. This may take a few minutes..."].
Proof.
  exact (enrich_command_limit sample_status_env (sample_command "enrich 0")
           sample_session eq_refl).
Defined.

(** X22. The worker started by an [enrich] command posts the completion
    message to the channel of the command once the batch has run,
    whatever the batch did: the batch never raises, also when the task
    list could not be fetched or every task failed, so no failure of the
    batch ever reaches the error message of the worker. *)
Theorem run_enrichment_reports_completion (e : env) (assistant : str)
    (limit : option Z) (channel : str) (s : session) :
  exists w' s',
    enrich_task_descriptions e assistant limit (process s) = (Ret None, w')
    /\ run_enrichment e assistant limit channel s = (Ret tt, s')
    /\ process s' = w'
    /\ chat s'
       = PostedMessage channel
           (lit "✅ Task enrichment completed! Check Asana for updated task descriptions.")
         :: chat s
    /\ conversation_history s' = conversation_history s
    /\ BOT_ID s' = BOT_ID s.
Proof.
  destruct (enrich_returns_none e assistant limit (process s)) as (w' & R).
  exists w'. unfold run_enrichment. unfold_C. rewrite R.
  eexists. repeat split.
Qed.

Lemma mention_reply (e : env) (user question : str) (event : mention)
    (s : session) :
  nonempty question = true ->
  exists s' reply thread answer,
    (assistant <~ lift (new_assistant default_model) ;;
     response <~ lift (ask_question e assistant question) ;;
     if nonempty (get_or response []) then
       let conversation_key := lit "slack-" ++ user in
       remember conversation_key question (get_or response []) ;;~
       let thread_ts :=
         match ev_thread_ts event with
         | Some ts => Some ts
         | None => ev_ts event
         end in
       say_in_thread (get_or response []) thread_ts
     else
       say (lit "Sorry <@" ++ user
            ++ lit ">, I couldn't get an answer to that question. Please try rephrasing or using the `/assistant ask` command.")) s
    = (Ret tt, s')
    /\ chat s' = Said reply thread :: chat s
    /\ patch_calls (process s') = patch_calls (process s)
    /\ BOT_ID s' = BOT_ID s
    /\ fst (ask_question e default_model question
              (process (with_assistant s))) = Ret answer
    /\ post_calls (process s')
       = post_calls (process s) ++ [ask_data e default_model question]
    /\ if nonempty (get_or answer [])
       then reply = get_or answer []
            /\ thread = reply_thread event
            /\ Dict.get (lit "slack-" ++ user) (conversation_history s')
               = Some (history_of (lit "slack-" ++ user) s
                       ++ exchange question (get_or answer []))
            /\ forall k, k <> lit "slack-" ++ user ->
                 Dict.get k (conversation_history s')
                 = Dict.get k (conversation_history s)
       else reply
            = lit "Sorry <@" ++ user
              ++ lit ">, I couldn't get an answer to that question. Please try rephrasing or using the `/assistant ask` command."
            /\ thread = None
            /\ conversation_history s' = conversation_history s.
Proof.
  intros NE.
  unfold cbind at 1, lift at 1.
  unfold new_assistant, bind, print, emit, ret.
  cbn [process chat conversation_history BOT_ID].
  unfold cbind at 1, lift at 1.
  cbn [process chat conversation_history BOT_ID].
  destruct (ask_question_effects e default_model question
              (process (with_assistant s)))
    as (answer & w1 & R & Q & P & _).
  cbn [with_assistant process] in R. rewrite R.
  destruct (nonempty (get_or answer [])) eqn:A.
  - unfold cbind at 1.
    match goal with
    | |- context [remember ?k question (get_or answer []) ?s0] =>
        destruct (remember_history k question (get_or answer []) s0)
          as (s1 & R1 & P1 & C1 & B1 & H1 & H2)
    end.
    rewrite R1. unfold say_in_thread, tell.
    do 3 eexists. exists answer. split; [reflexivity|].
    cbn [process chat conversation_history BOT_ID fst with_assistant] in *.
    rewrite P1, C1, B1, A. repeat split; auto.
    rewrite R. reflexivity.
  - unfold say, tell.
    do 3 eexists. exists answer. split; [reflexivity|].
    cbn [process chat conversation_history BOT_ID fst with_assistant] in *.
    rewrite A. repeat split; auto.
    rewrite R. reflexivity.
Qed.

(** X23. A mention, once the bot knows its own id.  The question is the
    text with every occurrence of the bot's mention taken out and the
    white space at both ends dropped.  With no question left the greeting
    is said and nobody is called.  Otherwise the provider is called once
    with that question: a non-empty answer is said in the thread of the
    message (its [thread_ts], else its [ts]) and stored with the question
    under the user's key; otherwise the apology is said outside any
    thread and the history stays as it was.  The handler never raises,
    says exactly one message and updates no task. *)
Theorem mention_answered (e : env) (event : mention) (s : session)
    (bot_id : str) :
  BOT_ID s = Some bot_id ->
  nonempty bot_id = true ->
  let user := get_or (ev_user event) [] in
  let question :=
    strip (remove_all (lit "<@" ++ bot_id ++ lit ">")
             (get_or (ev_text event) [])) in
  let key := lit "slack-" ++ user in
  exists s' reply thread,
    handle_mention e event s = (Ret tt, s')
    /\ chat s' = Said reply thread :: chat s
    /\ patch_calls (process s') = patch_calls (process s)
    /\ BOT_ID s' = BOT_ID s
    /\ if nonempty question then
         exists answer,
           fst (ask_question e default_model question
                  (process (with_assistant s))) = Ret answer
           /\ post_calls (process s')
              = post_calls (process s) ++ [ask_data e default_model question]
           /\ if nonempty (get_or answer [])
              then reply = get_or answer []
                   /\ thread = reply_thread event
                   /\ Dict.get key (conversation_history s')
                      = Some (history_of key s
                              ++ exchange question (get_or answer []))
                   /\ forall k, k <> key ->
                        Dict.get k (conversation_history s')
                        = Dict.get k (conversation_history s)
              else reply
                   = lit "Sorry <@" ++ user
                     ++ lit ">, I couldn't get an answer to that question. Please try rephrasing or using the `/assistant ask` command."
                   /\ thread = None
                   /\ conversation_history s' = conversation_history s
       else
         reply
         = lit "Hi <@" ++ user
           ++ lit ">! How can I help you? Ask me anything about the implementation process."
         /\ thread = None
         /\ s' = {| process := process s; chat := chat s';
                    conversation_history := conversation_history s;
                    BOT_ID := BOT_ID s |}.
Proof.
  intros B N user question key.
  unfold handle_mention. rewrite B, N. fold user. fold question.
  destruct (nonempty question) eqn:NE; cbn [negb]; rewrite <- B.
  - destruct (mention_reply e user question event s NE)
      as (s' & reply & thread & answer & R & C1 & P1 & B1 & A & Q & H).
    exists s', reply, thread. split; [exact R|].
    repeat (split; [assumption|]). exists answer. auto.
  - unfold say, tell. do 3 eexists. split; [reflexivity|].
    cbn [process chat conversation_history BOT_ID]. repeat split.
Qed.

Lemma mention_answered_witness :
  exists s' reply thread,
    handle_mention sample_status_env (sample_mention "<@U42> what is next? ")
      sample_session = (Ret tt, s')
    /\ chat s' = [Said reply thread]
    /\ patch_calls (process s') = []
    /\ BOT_ID s' = Some (lit "U42")
    /\ exists answer,
         fst (ask_question sample_status_env default_model
                (lit "what is next?")
                (process (with_assistant sample_session))) = Ret answer
         /\ post_calls (process s')
            = [ask_data sample_status_env default_model
                 (lit "what is next?")]
         /\ if nonempty (get_or answer [])
            then reply = get_or answer []
                 /\ thread = Some (lit "1700000000.000100")
                 /\ Dict.get (lit "slack-U7") (conversation_history s')
                    = Some (exchange (lit "what is next?")
                              (get_or answer []))
                 /\ forall k, k <> lit "slack-U7" ->
                      Dict.get k (conversation_history s') = None
            else reply
                 = lit "Sorry <@U7>, I couldn't get an answer to that question. Please try rephrasing or using the `/assistant ask` command."
                 /\ thread = None
                 /\ conversation_history s' = [].
Proof.
  exact (mention_answered sample_status_env
           (sample_mention "<@U42> what is next? ") sample_session
           (lit "U42") eq_refl eq_refl).
Defined.

(** X24. When the bot could not learn its id at start-up, [get_bot_id]
    reports the error and returns nothing instead of raising, the id
    stays unset, and a later mention is put to the provider as it was
    typed: the mention itself is not taken out and no white space is
    dropped. *)
Theorem mention_without_bot_id (e : env) (ex : exn) (event : mention)
    (s : session) :
  BOT_ID s = None ->
  let text := get_or (ev_text event) [] in
  nonempty text = true ->
  exists s1 s2,
    get_bot_id (Raise ex) s = (Ret None, s1)
    /\ process s1
       = Printed (lit "Error getting bot ID: " ++ str_of_exn ex) :: process s
    /\ chat s1 = chat s
    /\ BOT_ID s1 = None
    /\ handle_mention e event s1 = (Ret tt, s2)
    /\ post_calls (process s2)
       = post_calls (process s) ++ [ask_data e default_model text].
Proof.
  intros B text NE.
  set (s1 := {| process := Printed (lit "Error getting bot ID: "
                                    ++ str_of_exn ex) :: process s;
                chat := chat s;
                conversation_history := conversation_history s;
                BOT_ID := BOT_ID s |}).
  destruct (mention_reply e (get_or (ev_user event) []) text event s1 NE)
    as (s2 & reply & thread & answer & R & _ & _ & _ & _ & Q & _).
  exists s1, s2. repeat split; auto.
  unfold handle_mention. cbn [BOT_ID s1]. rewrite B. fold text.
  rewrite NE. exact R.
Qed.

Lemma mention_without_bot_id_witness :
  exists s1 s2,
    get_bot_id (Raise (Exception (lit "invalid_auth"))) fresh_session
    = (Ret None, s1)
    /\ process s1 = [Printed (lit "Error getting bot ID: invalid_auth")]
    /\ chat s1 = []
    /\ BOT_ID s1 = None
    /\ handle_mention sample_status_env (sample_mention "<@U42> next? ") s1
       = (Ret tt, s2)
    /\ post_calls (process s2)
       = [ask_data sample_status_env default_model (lit "<@U42> next? ")].
Proof.
  exact (mention_without_bot_id sample_status_env
           (Exception (lit "invalid_auth")) (sample_mention "<@U42> next? ")
           fresh_session eq_refl eq_refl).
Defined.

(** X25. What the user is told when the task list cannot be fetched.
    The [tasks] command answers that no upcoming tasks were found, as it
    does for an empty list, and not with its error line; the [status]
    command answers that the status could not be retrieved.  Neither
    raises, and each says this one message. *)
Theorem fetch_failure_replies (e : env) (cmd : command) (s : session) :
  (forall w project params,
     exists ex, get_tasks_for_project e w project params = Raise ex) ->
  (subcommand_of (cmd_text cmd) = lit "tasks" ->
   exists s',
     handle_assistant_command e cmd s = (Ret tt, s')
     /\ said (chat s') = said (chat s) ++ [lit "No upcoming tasks found."])
  /\ (subcommand_of (cmd_text cmd) = lit "status" ->
      exists s',
        handle_assistant_command e cmd s = (Ret tt, s')
        /\ said (chat s')
           = said (chat s) ++ [lit "Could not retrieve implementation status."]).
Proof.
  intros F. split; intros Sub; unfold handle_assistant_command;
    fold (subcommand_of (cmd_text cmd)); rewrite Sub.
  - change (str_eqb (lit "tasks") (lit "help")
            || negb (nonempty (lit "tasks"))) with false.
    change (str_eqb (lit "tasks") (lit "ask")) with false.
    change (str_eqb (lit "tasks") (lit "tasks")) with true. cbv iota.
    unfold get_upcoming_tasks, fetch_tasks. unfold_C. unfold_M.
    match goal with
    | |- context [get_tasks_for_project e ?w ?p ?f] =>
        destruct (F w p f) as (ex & ->)
    end.
    eexists. split; reflexivity.
  - change (str_eqb (lit "status") (lit "help")
            || negb (nonempty (lit "status"))) with false.
    change (str_eqb (lit "status") (lit "ask")) with false.
    change (str_eqb (lit "status") (lit "tasks")) with false.
    change (str_eqb (lit "status") (lit "status")) with true. cbv iota.
    unfold get_task_status, call_get_tasks, iterate, py_len.
    unfold_C. unfold_M.
    destruct (tasks_handed_back e).
    + eexists. split; reflexivity.
    + match goal with
      | |- context [get_tasks_for_project e ?w ?p ?f] =>
          destruct (F w p f) as (ex & ->)
      end.
      eexists. split; reflexivity.
Qed.

Lemma fetch_failure_replies_witness :
  exists s',
    handle_assistant_command no_tasks_env (sample_command "tasks")
      sample_session = (Ret tt, s')
    /\ said (chat s') = [lit "No upcoming tasks found."].
Proof.
  apply (proj1 (fetch_failure_replies no_tasks_env (sample_command "tasks")
                  sample_session
                  (fun _ _ _ => ex_intro _ (Exception (lit "Forbidden"))
                                  eq_refl))).
  reflexivity.
Defined.

Lemma lstrip_spaces (ws s : str) :
  forallb is_space ws = true -> lstrip (ws ++ s) = lstrip s.
Proof.
  induction ws as [|c ws IH]; [reflexivity|].
  cbn [forallb app lstrip]. intros H. apply andb_prop in H as [-> H]. auto.
Qed.

Lemma lstrip_no_space (s : str) (d : ascii) :
  s <> [] -> is_space (hd d s) = false -> lstrip s = s.
Proof.
  destruct s as [|c s]; [contradiction|]. cbn [hd lstrip]. now intros _ ->.
Qed.

Lemma forallb_rev {A} (f : A -> bool) (l : list A) :
  forallb f l = true -> forallb f (rev l) = true.
Proof.
  rewrite !forallb_forall. intros H x I. apply H. now apply in_rev.
Qed.

Lemma strip_padded (before body after : str) (d : ascii) :
  forallb is_space before = true ->
  forallb is_space after = true ->
  body <> [] ->
  is_space (hd d body) = false ->
  is_space (last body d) = false ->
  strip (before ++ body ++ after) = body.
Proof.
  intros B A N H L. unfold strip.
  rewrite (lstrip_spaces before _ B).
  assert (N' : body ++ after <> []).
  { intros Z. apply app_eq_nil in Z as [Z _]. contradiction. }
  rewrite (lstrip_no_space (body ++ after) d N').
  2:{ destruct body; [contradiction | exact H]. }
  rewrite rev_app_distr, (lstrip_spaces (rev after) _ (forallb_rev _ _ A)).
  rewrite (lstrip_no_space (rev body) d).
  - apply rev_involutive.
  - intros Z. apply N. rewrite <- (rev_involutive body), Z. reflexivity.
  - rewrite hd_rev. exact L.
Qed.

Lemma split_once_word (sub : str) :
  forallb (fun c => negb (is_space c)) sub = true ->
  split_once sub = (sub, None)
  /\ forall content, split_once (sub ++ lit " " ++ content)
                     = (sub, Some content).
Proof.
  induction sub as [|c sub IH]; [split; reflexivity|].
  cbn [forallb]. intros H. apply andb_prop in H as [C H].
  destruct (IH H) as [I1 I2].
  assert (E : Ascii.eqb c " "%char = false).
  { destruct (Ascii.eqb c " "%char) eqn:E; [|reflexivity].
    apply Ascii.eqb_eq in E. subst c. discriminate C. }
  split; [|intros content]; cbn [split_once app]; rewrite E.
  - rewrite I1. reflexivity.
  - rewrite I2. reflexivity.
Qed.

(** X26. How a command text is read.  White space around the whole text
    is ignored; the subcommand is the part before the first space, in
    lower case, and the content is everything after that one space, as
    typed.  So a text made of a word without white space, a space and a
    content that does not end in white space is split back into that
    word and that content. *)
Theorem command_text_round_trip (before sub content after : str) :
  forallb is_space before = true ->
  forallb is_space after = true ->
  sub <> [] ->
  forallb (fun c => negb (is_space c)) sub = true ->
  (content = [] \/ is_space (last content " "%char) = false) ->
  let text := before ++ sub ++ lit " " ++ content ++ after in
  subcommand_of text = lower sub /\ content_of text = content.
Proof.
  intros B A N W C text. unfold subcommand_of, content_of, text.
  destruct (split_once_word sub W) as [S1 S2].
  assert (H : is_space (hd " "%char sub) = false).
  { destruct sub as [|c sub]; [contradiction|].
    cbn [forallb hd] in *. apply andb_prop in W as [W _].
    now destruct (is_space c). }
  destruct C as [-> | L].
  - cbn [app].
    rewrite (strip_padded before sub (lit " " ++ after) " "%char);
      auto.
    + rewrite S1. split; reflexivity.
    + rewrite <- (rev_involutive sub), last_rev.
      destruct (rev sub) as [|c r] eqn:E.
      * exfalso. apply N. rewrite <- (rev_involutive sub), E. reflexivity.
      * cbn [hd]. apply forallb_rev in W. rewrite E in W.
        cbn [forallb] in W. apply andb_prop in W as [W _].
        now destruct (is_space c).
  - destruct content as [|c0 content0] eqn:Ec; [discriminate L|].
    rewrite <- Ec in *.
    replace (before ++ sub ++ lit " " ++ content ++ after)
      with (before ++ (sub ++ lit " " ++ content) ++ after)
      by (now rewrite <- !app_assoc).
    rewrite (strip_padded before (sub ++ lit " " ++ content) after " "%char);
      auto.
    + rewrite S2. split; reflexivity.
    + intros Z. apply app_eq_nil in Z as [Z _]. contradiction.
    + destruct sub; [contradiction | exact H].
    + rewrite app_assoc, last_app_nonempty; [exact L|].
      rewrite Ec. discriminate.
Qed.

Lemma command_text_round_trip_witness :
  subcommand_of (lit "  Ask  what now? ") = lit "ask"
  /\ content_of (lit "  Ask  what now? ") = lit " what now?".
Proof.
  apply (command_text_round_trip (lit "  ") (lit "Ask") (lit " what now?")
           (lit " ")); try reflexivity.
  - discriminate.
  - right. reflexivity.
Defined.

Lemma upcoming_lines_null (tasks : list task) :
  (exists t, In t tasks /\ assignee t = Null) ->
  upcoming_lines tasks
  = Raise (Exception (lit "'NoneType' object has no attribute 'get'")).
Proof.
  induction tasks as [|t rest IH]; intros (t0 & I & N); [destruct I|].
  cbn [upcoming_lines]. unfold assignee_name_of.
  destruct (assignee t) eqn:A; try reflexivity.
  - destruct I as [->|I]; [congruence|].
    rewrite IH by eauto. reflexivity.
  - destruct I as [->|I]; [congruence|].
    rewrite IH by eauto. reflexivity.
Qed.

Lemma upcoming_lines_shown (tasks : list task) :
  (forall t, In t tasks -> assignee t <> Null) ->
  upcoming_lines tasks = Ret (concat (map shown tasks)).
Proof.
  induction tasks as [|t rest IH]; intros H; [reflexivity|].
  cbn [upcoming_lines map concat]. unfold assignee_name_of, due_date_of.
  rewrite IH by (intros t0 I; apply H; now right).
  pose proof (H t (or_introl eq_refl)) as N.
  unfold shown. destruct (assignee t); [|contradiction|];
    repeat (rewrite <- ?app_assoc; cbn [app]); reflexivity.
Qed.

(** X29. The reply of the [tasks] command.  The handler lists the
    incomplete tasks that [get_upcoming_tasks] returns for seven days:
    none gives the line saying so; when the assignee of one of them is
    [null], as the service sends it for an unassigned task, reading its
    name raises and the reply is the error line alone; otherwise the
    reply is the title and two lines per task, in order, a [null] due
    date being shown as [None].  In every case exactly this one message
    is said. *)
Theorem tasks_command_reply (e : env) (cmd : command) (s : session) :
  subcommand_of (cmd_text cmd) = lit "tasks" ->
  exists upcoming w1 s',
    get_upcoming_tasks e 7 (process (acknowledged s)) = (Ret upcoming, w1)
    /\ handle_assistant_command e cmd s = (Ret tt, s')
    /\ process s' = w1
    /\ conversation_history s' = conversation_history s
    /\ exists reply,
         said (chat s') = said (chat s) ++ [reply]
         /\ (upcoming = [] -> reply = lit "No upcoming tasks found.")
         /\ (upcoming <> [] ->
             (exists t, In t upcoming /\ assignee t = Null) ->
             reply = lit "Error retrieving tasks: 'NoneType' object has no attribute 'get'")
         /\ (upcoming <> [] ->
             (forall t, In t upcoming -> assignee t <> Null) ->
             reply = lit "*Upcoming Tasks:*" ++ nl
                     ++ concat (map shown upcoming)).
Proof.
  intros Sub. unfold handle_assistant_command.
  fold (subcommand_of (cmd_text cmd)). rewrite Sub.
  change (str_eqb (lit "tasks") (lit "help")
          || negb (nonempty (lit "tasks"))) with false.
  change (str_eqb (lit "tasks") (lit "ask")) with false.
  change (str_eqb (lit "tasks") (lit "tasks")) with true. cbv iota.
  destruct (get_upcoming_tasks_effects e 7 (process (acknowledged s)))
    as (upcoming & w1 & R & _).
  exists upcoming, w1. pose proof R as R0.
  unfold_C. cbn [process chat conversation_history BOT_ID].
  cbn [acknowledged process] in R. rewrite R.
  cbn [process chat conversation_history BOT_ID].
  destruct upcoming as [|t rest].
  - cbn [any_item negb]. eexists. split; [exact R0|].
    do 3 (split; [reflexivity|]).
    eexists. split; [reflexivity|]. repeat split; congruence.
  - cbn [any_item negb].
    destruct (upcoming_lines (t :: rest)) as [lines|ex] eqn:U.
    + eexists. split; [exact R0|]. do 3 (split; [reflexivity|]).
      eexists. split; [reflexivity|].
      split; [discriminate|]. split.
      * intros _ N. rewrite (upcoming_lines_null _ N) in U. discriminate.
      * intros _ N. rewrite (upcoming_lines_shown _ N) in U.
        now injection U as <-.
    + eexists. split; [exact R0|]. do 3 (split; [reflexivity|]).
      eexists. split; [reflexivity|].
      split; [discriminate|]. split.
      * intros _ N. rewrite (upcoming_lines_null _ N) in U.
        now injection U as <-.
      * intros _ N. rewrite (upcoming_lines_shown _ N) in U. discriminate.
Qed.

Lemma tasks_command_reply_witness :
  exists s',
    handle_assistant_command (upcoming_env [assigned_task; unassigned_task])
      (sample_command "tasks") sample_session = (Ret tt, s')
    /\ said (chat s')
       = [lit "Error retrieving tasks: 'NoneType' object has no attribute 'get'"].
Proof.
  destruct (tasks_command_reply
              (upcoming_env [assigned_task; unassigned_task])
              (sample_command "tasks") sample_session eq_refl)
    as (upcoming & w1 & s' & R & H & _ & _ & reply & S & _ & E & _).
  pose proof (eq_refl :
    fst (get_upcoming_tasks (upcoming_env [assigned_task; unassigned_task])
           7 (process (acknowledged sample_session)))
    = Ret [assigned_task; unassigned_task]) as R'.
  rewrite R in R'. cbn [fst] in R'. injection R' as ->.
  exists s'. split; [exact H|]. rewrite S.
  rewrite E; [reflexivity | discriminate |].
  exists unassigned_task. split; [right; left; reflexivity | reflexivity].
Defined.

(** ** The configuration block *)

(** X27. Start-up gets past the configuration block exactly when the
    two chat tokens, the tracker token and the project id all have a
    non-empty value.  Otherwise the process exits with status 1 after
    naming the first of them, in that order, that is unset or empty.  A
    missing provider key does not stop the start-up: it only adds three
    lines of warning.  The assistant name is the fixed default only when
    its variable is not set at all. *)
Theorem startup_requires_four_values (getenv : str -> option str)
    (w : world) :
  let start := lit "Environment variables loaded successfully" in
  match load_configuration getenv w with
  | (Exited status, w') =>
      status = 1
      /\ exists before variable after,
           required_names = before ++ variable :: after
           /\ forallb (is_set getenv) before = true
           /\ is_set getenv variable = false
           /\ printed w'
              = printed w
                ++ [start;
                    lit "Warning: " ++ variable
                    ++ lit " not found in environment variables.";
                    lit "Please add " ++ variable ++ lit " to your .env file"]
  | (Loaded c, w') =>
      forallb (is_set getenv) required_names = true
      /\ cfg_SLACK_BOT_TOKEN c = getenv (lit "SLACK_BOT_TOKEN")
      /\ cfg_SLACK_APP_TOKEN c = getenv (lit "SLACK_APP_TOKEN")
      /\ cfg_ASANA_TOKEN c = getenv (lit "ASANA_TOKEN")
      /\ cfg_ASANA_PROJECT_ID c = getenv (lit "ASANA_PROJECT_ID")
      /\ cfg_OPENAI_API_KEY c = getenv (lit "OPENAI_API_KEY")
      /\ cfg_ASSISTANT_NAME c
         = match getenv (lit "ASSISTANT_NAME") with
           | Some assistant_name => assistant_name
           | None => lit "AI Assistant"
           end
      /\ printed w'
         = printed w
           ++ start
              :: (if is_set getenv (lit "OPENAI_API_KEY") then []
                  else [lit "Warning: OPENAI_API_KEY not found in environment variables.";
                        lit "Please add OPENAI_API_KEY to your .env file";
                        lit "Some API-based features will not work"])
  end.
Proof.
  intros start. unfold load_configuration, halt, unset, required_names.
  cbn [forallb]. fold (is_set getenv (lit "SLACK_BOT_TOKEN")).
  fold (is_set getenv (lit "SLACK_APP_TOKEN")).
  fold (is_set getenv (lit "ASANA_TOKEN")).
  fold (is_set getenv (lit "ASANA_PROJECT_ID")).
  fold (is_set getenv (lit "OPENAI_API_KEY")).
  destruct (is_set getenv (lit "SLACK_BOT_TOKEN")) eqn:E1; cbn [negb andb].
  2:{ split; [reflexivity|].
      exists [], (lit "SLACK_BOT_TOKEN"), (tl required_names).
      repeat split; auto. cbn [printed]. now rewrite <- !app_assoc. }
  destruct (is_set getenv (lit "SLACK_APP_TOKEN")) eqn:E2; cbn [negb andb].
  2:{ split; [reflexivity|].
      exists [lit "SLACK_BOT_TOKEN"], (lit "SLACK_APP_TOKEN"),
        (tl (tl required_names)).
      repeat split; auto.
      - cbn [forallb]. now rewrite E1.
      - cbn [printed]. now rewrite <- !app_assoc. }
  destruct (is_set getenv (lit "ASANA_TOKEN")) eqn:E3; cbn [negb andb].
  2:{ split; [reflexivity|].
      exists [lit "SLACK_BOT_TOKEN"; lit "SLACK_APP_TOKEN"],
        (lit "ASANA_TOKEN"), [lit "ASANA_PROJECT_ID"].
      repeat split; auto.
      - cbn [forallb]. now rewrite E1, E2.
      - cbn [printed]. now rewrite <- !app_assoc. }
  destruct (is_set getenv (lit "ASANA_PROJECT_ID")) eqn:E4; cbn [negb andb].
  2:{ split; [reflexivity|].
      exists [lit "SLACK_BOT_TOKEN"; lit "SLACK_APP_TOKEN";
              lit "ASANA_TOKEN"],
        (lit "ASANA_PROJECT_ID"), [].
      repeat split; auto.
      - cbn [forallb]. now rewrite E1, E2, E3.
      - cbn [printed]. now rewrite <- !app_assoc. }
  cbn [cfg_SLACK_BOT_TOKEN cfg_SLACK_APP_TOKEN cfg_ASANA_TOKEN
       cfg_ASANA_PROJECT_ID cfg_OPENAI_API_KEY cfg_ASSISTANT_NAME].
  repeat split; auto.
  destruct (is_set getenv (lit "OPENAI_API_KEY")); cbn [negb printed];
    now rewrite <- ?app_assoc.
Qed.
